(** * A pressure-enthalpy refrigeration-cycle simulator, embedded in Rocq

    Shallow embedding of [ph_simulator_v4.py]: the unit-conversion layer, the
    property-service adapter [safe_coolprop_call], the dome sampler
    [calculate_dome], the cycle solver [calculate_cycle] and the coordinate
    mapper [map_coordinates], followed by the properties proved about them.

    Python floats are Rocq's primitive binary64 floats, so every definition
    below evaluates with [vm_compute] to the numbers the interpreter prints.
    The object [self] is the record [Sim]; methods are computations in a
    state-and-exception monad over it.  CoolProp and NumPy are outside the
    repository: [PropsSI], [np_log10] and [np_logspace] are section
    variables. *)

From Stdlib Require Import ZArith QArith Qfield List String Ascii Bool Floats Lia.
From Stdlib Require Import DecimalString.
Import ListNotations.

Set Warnings "-inexact-float,-notation-for-abbreviation".

(* ================================================================== *)
(** ** Python values, exceptions and outcomes *)
(* ================================================================== *)

(** The values a caller can hand to a method in place of a number. *)
Inductive pyval : Type :=
| PyNone
| PyInt (z : Z)
| PyFloat (f : float)
| PyStr (s : string).

(** Exception classes that occur in the program; [OtherError] stands for
    any class that is not a subclass of [ValueError]. *)
Inductive exn : Type :=
| ValueError (msg : string)
| TypeError (msg : string)
| OverflowError (msg : string)
| ZeroDivisionError (msg : string)
| OtherError (cls msg : string).

(** [str(e)] *)
Definition str_exn (e : exn) : string :=
  match e with
  | ValueError m | TypeError m | OverflowError m | ZeroDivisionError m => m
  | OtherError _ m => m
  end.

Inductive outcome (A : Type) : Type :=
| Normal (a : A)
| Raised (e : exn).
Arguments Normal {A} a.
Arguments Raised {A} e.

Definition is_normal {A} (o : outcome A) : bool :=
  match o with Normal _ => true | Raised _ => false end.

(* ================================================================== *)
(** ** Float and string primitives of the interpreter *)
(* ================================================================== *)

Module Py.

(** [float(z)] for an [int]: rounded to nearest even. *)
Definition float_of_Z (z : Z) : float :=
  SF2Prim (binary_normalize prec emax z 0 false).

(** The conversion an [int] undergoes wherever a C double is needed; an
    [int] beyond the double range raises [OverflowError]. *)
Definition float_of_int (z : Z) : outcome float :=
  let f := float_of_Z z in
  if is_infinity f
  then Raised (OverflowError "int too large to convert to float")
  else Normal f.

(** [x / y] on floats: Python raises where IEEE would give inf or nan. *)
Definition truediv (x y : float) : outcome float :=
  if (y =? 0)%float
  then Raised (ZeroDivisionError "float division by zero")
  else Normal (x / y)%float.

(** Two-argument [max(a, b)] and [min(a, b)]: the first argument is kept
    unless the second compares strictly beyond it. *)
Definition max (a b : float) : float := if (a <? b)%float then b else a.
Definition min (a b : float) : float := if (b <? a)%float then b else a.

(** [int(x)] on a float: truncation toward zero. *)
Definition int_of_float (x : float) : outcome Z :=
  match Prim2SF x with
  | S754_nan => Raised (ValueError "cannot convert float NaN to integer")
  | S754_infinity _ =>
      Raised (OverflowError "cannot convert float infinity to integer")
  | S754_zero _ => Normal 0%Z
  | S754_finite s m e =>
      let a := (if 0 <=? e then Zpos m * 2 ^ e else Zpos m / 2 ^ (- e))%Z in
      Normal (if s then (- a)%Z else a)
  end.

(** Truthiness, as used by [v or 0]. *)
Definition truthy (v : pyval) : bool :=
  match v with
  | PyNone => false
  | PyInt z => negb (z =? 0)%Z
  | PyFloat f => negb (f =? 0)%float
  | PyStr s => match s with EmptyString => false | String _ _ => true end
  end.

Definition or_zero (v : pyval) : pyval := if truthy v then v else PyInt 0.

(** [isinstance(v, (int, float))] *)
Definition is_number (v : pyval) : bool :=
  match v with PyInt _ | PyFloat _ => true | _ => false end.

(** [math.isfinite(v)] for a number. *)
Definition math_isfinite (v : pyval) : outcome bool :=
  match v with
  | PyFloat f => Normal (is_finite f)
  | PyInt z =>
      match float_of_int z with
      | Normal f => Normal (is_finite f)
      | Raised e => Raised e
      end
  | _ => Raised (TypeError "must be real number")
  end.

(** The double a number is passed as to a C extension. *)
Definition as_double (v : pyval) : float :=
  match v with
  | PyFloat f => f
  | PyInt z => float_of_Z z
  | _ => nan
  end.

(** *** Strings *)

(** [needle in hay] *)
Fixpoint contains (needle hay : string) : bool :=
  String.prefix needle hay
  || match hay with
     | EmptyString => false
     | String _ rest => contains needle rest
     end.

(** [s.split('\n')[0]] *)
Fixpoint first_line (s : string) : string :=
  match s with
  | EmptyString => EmptyString
  | String c rest =>
      if Ascii.eqb c "010"%char then EmptyString
      else String c (first_line rest)
  end.

(** [m in log] for a list of strings. *)
Definition mem (m : string) (log : list string) : bool :=
  existsb (String.eqb m) log.

Definition decimal (n : Z) : string :=
  NilZero.string_of_uint (N.to_uint (Z.to_N n)).

Definition sign_prefix (s : bool) : string :=
  if s then "-"%string else EmptyString.

(** [n / d] rounded to the nearest integer, ties to even ([0 <= n], [0 < d]). *)
Definition round_half_even (n d : Z) : Z :=
  let q := (n / d)%Z in
  let r := (n mod d)%Z in
  match (2 * r ?= d)%Z with
  | Lt => q
  | Gt => (q + 1)%Z
  | Eq => if Z.even q then q else (q + 1)%Z
  end.

(** [format(x, '.1f')] for a float: the exact binary value, correctly
    rounded to one decimal. *)
Definition format_1f (x : float) : string :=
  match Prim2SF x with
  | S754_nan => "nan"%string
  | S754_infinity s => (sign_prefix s ++ "inf")%string
  | S754_zero s => (sign_prefix s ++ "0.0")%string
  | S754_finite s m e =>
      let t := (if 0 <=? e then 10 * Zpos m * 2 ^ e
                else round_half_even (10 * Zpos m) (2 ^ (- e)))%Z in
      (sign_prefix s ++ decimal (t / 10) ++ "." ++ decimal (t mod 10))%string
  end.

(** [f"{v:.1f}"] for any value: only numbers accept the format code. *)
Definition format_spec_1f (v : pyval) : outcome string :=
  match v with
  | PyFloat f => Normal (format_1f f)
  | PyInt z =>
      match float_of_int z with
      | Normal f => Normal (format_1f f)
      | Raised e => Raised e
      end
  | PyStr _ =>
      Raised (ValueError "Unknown format code 'f' for object of type 'str'")
  | PyNone =>
      Raised (TypeError "unsupported format string passed to NoneType.__format__")
  end.

(** [str(x)] for a float that is not finite (the only floats the program
    prints this way). *)
Definition str_nonfinite (x : float) : string :=
  match Prim2SF x with
  | S754_infinity s => (sign_prefix s ++ "inf")%string
  | _ => "nan"%string
  end.

End Py.

(* ================================================================== *)
(** ** Unit conversion layer (module level of the source) *)
(* ================================================================== *)

(** The module-level constants and the two temperature functions use only
    literals and the four arithmetic operations.  They are written once,
    over any carrier with these operations, and read at the floats (what
    the interpreter computes) and at the rationals (the real numbers the
    floats approximate). *)
Class PyNum (N : Type) : Type := {
  lit : Q -> N;
  nadd : N -> N -> N;
  nsub : N -> N -> N;
  nmul : N -> N -> N;
  ndiv : N -> N -> N
}.

Declare Scope num_scope.
Delimit Scope num_scope with num.
Notation "x + y" := (nadd x y) : num_scope.
Notation "x - y" := (nsub x y) : num_scope.
Notation "x * y" := (nmul x y) : num_scope.
Notation "x / y" := (ndiv x y) : num_scope.

(** A decimal literal denotes the double nearest to it; the quotient of
    two exactly represented integers is that double. *)
#[export] Instance float_PyNum : PyNum float := {|
  lit q := (Py.float_of_Z (Qnum q) / Py.float_of_Z (Zpos (Qden q)))%float;
  nadd := PrimFloat.add;
  nsub := PrimFloat.sub;
  nmul := PrimFloat.mul;
  ndiv := PrimFloat.div
|}.

#[export] Instance Q_PyNum : PyNum Q := {|
  lit q := q;
  nadd := Qplus;
  nsub := Qminus;
  nmul := Qmult;
  ndiv := Qdiv
|}.

Section UnitConversion.
Context {N : Type} `{PyNum N}.
Local Open Scope num_scope.

Definition KPA_TO_PSIA : N := lit 0.1450377.
Definition PSIA_TO_PA : N := (lit 1 / KPA_TO_PSIA) * lit 1000.
Definition PA_TO_PSIA : N := KPA_TO_PSIA / lit 1000.
Definition J_KG_TO_BTU_LB : N := lit 0.000430210.
Definition BTU_LB_TO_J_KG : N := lit 1 / J_KG_TO_BTU_LB.
Definition DELTA_K_TO_DELTA_F : N := lit 1.8.
Definition DELTA_F_TO_DELTA_K : N := lit 1 / DELTA_K_TO_DELTA_F.

Definition kelvin_to_fahrenheit (T_k : option N) : option N :=
  match T_k with
  | Some t => Some ((t - lit 273.15) * lit 9 / lit 5 + lit 32)
  | None => None
  end.

Definition fahrenheit_to_kelvin (T_f : option N) : option N :=
  match T_f with
  | Some t => Some ((t - lit 32) * lit 5 / lit 9 + lit 273.15)
  | None => None
  end.
End UnitConversion.

(* ================================================================== *)
(** ** The simulation object *)
(* ================================================================== *)

Definition REFRIGERANT : string := "R134a".

(** One entry of [state_points_si]: the dict with keys 'p', 'h', 's', 'T'
    and 'Q' (the quality may be [None]). *)
Record StatePoint : Type := mkPoint {
  pt_p : float;
  pt_h : float;
  pt_s : float;
  pt_T : float;
  pt_Q : option float
}.

(** The keys '1', '2', '2s', '3', '4' of [state_points_si]. *)
Inductive point_key : Type := K1 | K2 | K2s | K3 | K4.

(** [state_points_si]: every key is always present; [None] is the empty
    dict [{}]. *)
Record StatePoints : Type := mkPoints {
  point1 : option StatePoint;
  point2 : option StatePoint;
  point2s : option StatePoint;
  point3 : option StatePoint;
  point4 : option StatePoint
}.

Definition get_point (k : point_key) (sp : StatePoints) : option StatePoint :=
  match k with
  | K1 => point1 sp
  | K2 => point2 sp
  | K2s => point2s sp
  | K3 => point3 sp
  | K4 => point4 sp
  end.

Definition set_point (k : point_key) (v : option StatePoint)
  (sp : StatePoints) : StatePoints :=
  match k with
  | K1 => mkPoints v (point2 sp) (point2s sp) (point3 sp) (point4 sp)
  | K2 => mkPoints (point1 sp) v (point2s sp) (point3 sp) (point4 sp)
  | K2s => mkPoints (point1 sp) (point2 sp) v (point3 sp) (point4 sp)
  | K3 => mkPoints (point1 sp) (point2 sp) (point2s sp) v (point4 sp)
  | K4 => mkPoints (point1 sp) (point2 sp) (point2s sp) (point3 sp) v
  end.

(** [{'1': {}, '2': {}, '2s': {}, '3': {}, '4': {}}] *)
Definition empty_points : StatePoints := mkPoints None None None None None.

(** [performance]: the dict with the four keys below. *)
Record Performance : Type := mkPerf {
  COP : option float;
  Q_evap_btu_lb : option float;
  W_comp_btu_lb : option float;
  Q_cond_btu_lb : option float
}.

Definition empty_performance : Performance := mkPerf None None None None.

(** [dome_h_si]: [{'liq': [...], 'vap': [...]}]. *)
Record DomeH : Type := mkDomeH {
  liq : list float;
  vap : list float
}.

(** One request to [CP.PropsSI]. *)
Record PropsRequest : Type := mkReq {
  rq_out : string;
  rq_name1 : string;
  rq_val1 : float;
  rq_name2 : string;
  rq_val2 : float;
  rq_fluid : string
}.

(** The attributes of [self] the solver, the sampler and the mapper use.
    The axis bounds are the ints 40, 210, 10 and 400 in the source; they
    only meet floats, so they are kept as the floats they convert to.
    [cp_calls] is no attribute of the Python object: it records, in order,
    the requests sent to the property service. *)
Record Sim : Type := mkSim {
  screen_width : Z;
  screen_height : Z;
  p_evap_psia : float;
  p_cond_psia : float;
  superheat_F : float;
  subcooling_F : float;
  eta_comp : float;
  h_min_btu_lb : float;
  h_max_btu_lb : float;
  p_min_psia : float;
  p_max_psia : float;
  log_p_min : float;
  log_p_max : float;
  plot_x : Z;
  plot_y : Z;
  plot_width : Z;
  plot_height : Z;
  state_points_si : StatePoints;
  performance : Performance;
  errors : list string;
  dome_h_si : DomeH;
  dome_p_pa : list float;
  cp_calls : list PropsRequest
}.

Definition set_state_points_si (v : StatePoints) (self : Sim) : Sim :=
  mkSim (screen_width self) (screen_height self) (p_evap_psia self)
    (p_cond_psia self) (superheat_F self) (subcooling_F self) (eta_comp
    self) (h_min_btu_lb self) (h_max_btu_lb self) (p_min_psia self)
    (p_max_psia self) (log_p_min self) (log_p_max self) (plot_x self)
    (plot_y self) (plot_width self) (plot_height self) v (performance self)
    (errors self) (dome_h_si self) (dome_p_pa self) (cp_calls self).

Definition set_performance (v : Performance) (self : Sim) : Sim :=
  mkSim (screen_width self) (screen_height self) (p_evap_psia self)
    (p_cond_psia self) (superheat_F self) (subcooling_F self) (eta_comp
    self) (h_min_btu_lb self) (h_max_btu_lb self) (p_min_psia self)
    (p_max_psia self) (log_p_min self) (log_p_max self) (plot_x self)
    (plot_y self) (plot_width self) (plot_height self) (state_points_si
    self) v (errors self) (dome_h_si self) (dome_p_pa self) (cp_calls self).

Definition set_errors (v : list string) (self : Sim) : Sim :=
  mkSim (screen_width self) (screen_height self) (p_evap_psia self)
    (p_cond_psia self) (superheat_F self) (subcooling_F self) (eta_comp
    self) (h_min_btu_lb self) (h_max_btu_lb self) (p_min_psia self)
    (p_max_psia self) (log_p_min self) (log_p_max self) (plot_x self)
    (plot_y self) (plot_width self) (plot_height self) (state_points_si
    self) (performance self) v (dome_h_si self) (dome_p_pa self) (cp_calls
    self).

Definition set_dome_h_si (v : DomeH) (self : Sim) : Sim :=
  mkSim (screen_width self) (screen_height self) (p_evap_psia self)
    (p_cond_psia self) (superheat_F self) (subcooling_F self) (eta_comp
    self) (h_min_btu_lb self) (h_max_btu_lb self) (p_min_psia self)
    (p_max_psia self) (log_p_min self) (log_p_max self) (plot_x self)
    (plot_y self) (plot_width self) (plot_height self) (state_points_si
    self) (performance self) (errors self) v (dome_p_pa self) (cp_calls
    self).

Definition set_dome_p_pa (v : list float) (self : Sim) : Sim :=
  mkSim (screen_width self) (screen_height self) (p_evap_psia self)
    (p_cond_psia self) (superheat_F self) (subcooling_F self) (eta_comp
    self) (h_min_btu_lb self) (h_max_btu_lb self) (p_min_psia self)
    (p_max_psia self) (log_p_min self) (log_p_max self) (plot_x self)
    (plot_y self) (plot_width self) (plot_height self) (state_points_si
    self) (performance self) (errors self) (dome_h_si self) v (cp_calls
    self).

Definition set_cp_calls (v : list PropsRequest) (self : Sim) : Sim :=
  mkSim (screen_width self) (screen_height self) (p_evap_psia self)
    (p_cond_psia self) (superheat_F self) (subcooling_F self) (eta_comp
    self) (h_min_btu_lb self) (h_max_btu_lb self) (p_min_psia self)
    (p_max_psia self) (log_p_min self) (log_p_max self) (plot_x self)
    (plot_y self) (plot_width self) (plot_height self) (state_points_si
    self) (performance self) (errors self) (dome_h_si self) (dome_p_pa self)
    v.

(** [reset_parameters] *)
Definition reset_parameters (self : Sim) : Sim :=
  mkSim (screen_width self) (screen_height self)
    35.0 160.0 10.0 5.0 0.75
    (h_min_btu_lb self) (h_max_btu_lb self) (p_min_psia self)
    (p_max_psia self) (log_p_min self) (log_p_max self)
    (plot_x self) (plot_y self) (plot_width self) (plot_height self)
    (state_points_si self) (performance self) (errors self)
    (dome_h_si self) (dome_p_pa self) (cp_calls self).

Definition PLOT_MARGIN_TOP : Z := 60.
Definition PLOT_MARGIN_BOTTOM : Z := 70.
Definition PLOT_MARGIN_LEFT : Z := 95.
Definition INFO_PANEL_WIDTH : Z := 340.
Definition PLOT_MARGIN_RIGHT : Z := INFO_PANEL_WIDTH + 25.

(** [update_layout] (the plot rectangle; the info panel is not modelled). *)
Definition update_layout (self : Sim) : Sim :=
  let w := (screen_width self - PLOT_MARGIN_LEFT - PLOT_MARGIN_RIGHT)%Z in
  let h := (screen_height self - PLOT_MARGIN_TOP - PLOT_MARGIN_BOTTOM)%Z in
  mkSim (screen_width self) (screen_height self)
    (p_evap_psia self) (p_cond_psia self) (superheat_F self)
    (subcooling_F self) (eta_comp self)
    (h_min_btu_lb self) (h_max_btu_lb self) (p_min_psia self)
    (p_max_psia self) (log_p_min self) (log_p_max self)
    PLOT_MARGIN_LEFT PLOT_MARGIN_TOP
    (if (w <? 50)%Z then 50%Z else w) (if (h <? 50)%Z then 50%Z else h)
    (state_points_si self) (performance self) (errors self)
    (dome_h_si self) (dome_p_pa self) (cp_calls self).

(* ================================================================== *)
(** ** Methods as computations over [Sim] *)
(* ================================================================== *)

(** A method body: it reads and updates [self] and either returns or
    raises; what it changed before raising stays changed. *)
Definition M (A : Type) : Type := Sim -> outcome A * Sim.

Definition ret {A} (a : A) : M A := fun s => (Normal a, s).

Definition bind {A B} (m : M A) (k : A -> M B) : M B :=
  fun s =>
    match m s with
    | (Normal a, s') => k a s'
    | (Raised e, s') => (Raised e, s')
    end.

Definition raise {A} (e : exn) : M A := fun s => (Raised e, s).

Definition lift {A} (o : outcome A) : M A := fun s => (o, s).

Definition get : M Sim := fun s => (Normal s, s).

Definition modify (f : Sim -> Sim) : M unit := fun s => (Normal tt, f s).

(** [try: body except ValueError as e: handler(str(e))] *)
Definition try_except_ValueError {A} (body : M A) (handler : string -> M A)
  : M A :=
  fun s =>
    match body s with
    | (Raised (ValueError msg), s') => handler msg s'
    | r => r
    end.

(** [try: body except Exception as e: handler(e)] *)
Definition try_except_Exception {A} (body : M A) (handler : exn -> M A)
  : M A :=
  fun s =>
    match body s with
    | (Raised e, s') => handler e s'
    | r => r
    end.

Definition exec {A} (m : M A) (s : Sim) : Sim := snd (m s).
Definition result {A} (m : M A) (s : Sim) : outcome A := fst (m s).

Declare Scope py_scope.
Delimit Scope py_scope with py.
Notation "x <- c ;; k" := (bind c (fun x => k))
  (at level 61, c at next level, right associativity) : py_scope.
Notation "c ;; k" := (bind c (fun _ => k))
  (at level 61, right associativity) : py_scope.

(** [for x in l: body(x)] *)
Fixpoint for_each {A} (l : list A) (body : A -> M unit) : M unit :=
  match l with
  | [] => ret tt
  | x :: rest => bind (body x) (fun _ => for_each rest body)
  end.

(** [self.errors.append(m)] *)
Definition errors_append (m : string) : M unit :=
  modify (fun self => set_errors (errors self ++ [m]) self).

(** [if m not in self.errors: self.errors.append(m)] *)
Definition errors_append_once (m : string) : M unit :=
  modify (fun self =>
            if Py.mem m (errors self) then self
            else set_errors (errors self ++ [m]) self).

(** What the property service answers. *)
Inductive service_result : Type :=
| Returns (v : float)
| Raises (e : exn).

(* ================================================================== *)
(** ** The adapter, the dome sampler, the cycle solver and the mapper *)
(* ================================================================== *)

Section Model.

(** [CP.PropsSI(output, name1, value1, name2, value2, fluid)] *)
Variable PropsSI :
  string -> string -> float -> string -> float -> string -> service_result.
(** [np.log10] and [np.logspace(start, stop, num)] *)
Variable np_log10 : float -> float.
Variable np_logspace : float -> float -> Z -> list float.

Local Open Scope float_scope.
Local Open Scope py_scope.

(** The loop over [[input1_val, input2_val]] that computes [inputs_ok]:
    the second value is looked at only if the first one passes. *)
Definition inputs_ok (input1_val input2_val : pyval) : outcome bool :=
  let passes v :=
    if negb (Py.is_number v) then Normal false else Py.math_isfinite v in
  match passes input1_val with
  | Normal true => passes input2_val
  | r => r
  end.

(** The call itself, recorded in [cp_calls]. *)
Definition call_PropsSI (output_param input1_param : string)
  (input1_val : float) (input2_param : string) (input2_val : float)
  (refrigerant : string) : M float :=
  fun self =>
    let self' :=
      set_cp_calls
        (cp_calls self
         ++ [mkReq output_param input1_param input1_val input2_param
               input2_val refrigerant]) self in
    match PropsSI output_param input1_param input1_val input2_param
            input2_val refrigerant with
    | Returns v => (Normal v, self')
    | Raises e => (Raised e, self')
    end.

(** The f-string of the handler; the format code [.1f] is applied to
    [(input1_val or 0)] and [(input2_val or 0)]. *)
Definition error_str (err_msg output_param input1_param : string)
  (input1_val : pyval) (input2_param : string) (input2_val : pyval)
  : outcome string :=
  match Py.format_spec_1f (Py.or_zero input1_val) with
  | Raised e => Raised e
  | Normal f1 =>
      match Py.format_spec_1f (Py.or_zero input2_val) with
      | Raised e => Raised e
      | Normal f2 =>
          Normal ("CP Error: " ++ err_msg ++ " calc " ++ output_param ++ "("
                  ++ input1_param ++ "=" ++ f1 ++ ","
                  ++ input2_param ++ "=" ++ f2 ++ ")")%string
      end
  end.

Definition safe_coolprop_call (output_param input1_param : string)
  (input1_val : pyval) (input2_param : string) (input2_val : pyval)
  (refrigerant : string) : M (option float) :=
  try_except_ValueError
    (ok <- lift (inputs_ok input1_val input2_val) ;;
     if negb ok then raise (ValueError "Invalid non-finite input")
     else
       val <- call_PropsSI output_param input1_param (Py.as_double input1_val)
                input2_param (Py.as_double input2_val) refrigerant ;;
       if negb (is_finite val)
       then raise (ValueError
                     ("CoolProp returned non-finite value (" ++ output_param
                      ++ "=" ++ Py.str_nonfinite val ++ ")")%string)
       else ret (Some val))
    (fun e =>
       m <- lift (error_str (Py.first_line e) output_param input1_param
                    input1_val input2_param input2_val) ;;
       errors_append_once m ;;
       ret None).

(** *** Dome sampler *)

(** Body of [for p_pa in pressures_pa_log]. *)
Definition dome_sample (p_pa : float) : M unit :=
  h_liq_si <- safe_coolprop_call "H" "P" (PyFloat p_pa) "Q" (PyInt 0)
                REFRIGERANT ;;
  h_vap_si <- safe_coolprop_call "H" "P" (PyFloat p_pa) "Q" (PyInt 1)
                REFRIGERANT ;;
  match h_liq_si, h_vap_si with
  | Some h_liq_si, Some h_vap_si =>
      modify (fun self => set_dome_p_pa (dome_p_pa self ++ [p_pa]) self) ;;
      modify (fun self =>
                set_dome_h_si
                  (mkDomeH (liq (dome_h_si self) ++ [h_liq_si])
                     (vap (dome_h_si self))) self) ;;
      modify (fun self =>
                set_dome_h_si
                  (mkDomeH (liq (dome_h_si self))
                     (vap (dome_h_si self) ++ [h_vap_si])) self)
  | _, _ => ret tt
  end.

(** The block [if p_end_pa > crit_p_pa * 0.9: ...] that closes the dome. *)
Definition dome_apex (crit_p_pa p_end_pa : float) : M unit :=
  if crit_p_pa * 0.9 <? p_end_pa then
    crit_h_si <- safe_coolprop_call "H" "P" (PyFloat crit_p_pa) "Q"
                   (PyFloat 0.5) REFRIGERANT ;;
    match crit_h_si with
    | Some crit_h_si =>
        let p_crit_psia := crit_p_pa * PA_TO_PSIA in
        self <- get ;;
        if (p_min_psia self <=? p_crit_psia)
           && (p_crit_psia <=? p_max_psia self)
        then
          modify (fun self =>
                    set_dome_p_pa (dome_p_pa self ++ [crit_p_pa]) self) ;;
          modify (fun self =>
                    set_dome_h_si
                      (mkDomeH (liq (dome_h_si self) ++ [crit_h_si])
                         (vap (dome_h_si self))) self) ;;
          modify (fun self =>
                    set_dome_h_si
                      (mkDomeH (liq (dome_h_si self))
                         (vap (dome_h_si self) ++ [crit_h_si])) self)
        else ret tt
    | None => ret tt
    end
  else ret tt.

(** The effective sampling range of [calculate_dome]. *)
Definition p_start_pa (self : Sim) : float :=
  Py.max 1000 (p_min_psia self * PSIA_TO_PA).

Definition p_end_pa (self : Sim) (crit_p_pa : float) : float :=
  Py.min (p_max_psia self * PSIA_TO_PA) (crit_p_pa * 0.999).

Definition pressures_pa_log (self : Sim) (crit_p_pa : float) : list float :=
  np_logspace (np_log10 (p_start_pa self))
    (np_log10 (p_end_pa self crit_p_pa)) 80.

Definition calculate_dome : M unit :=
  modify (set_dome_h_si (mkDomeH [] [])) ;;
  modify (set_dome_p_pa []) ;;
  modify (fun self =>
            set_errors
              (filter (fun e => negb (Py.contains "Dome" e)) (errors self))
              self) ;;
  try_except_Exception
    (crit_p_pa <- safe_coolprop_call "pcrit" EmptyString (PyInt 0)
                    EmptyString (PyInt 0) REFRIGERANT ;;
     match crit_p_pa with
     | None => ret tt
     | Some crit_p_pa =>
         self <- get ;;
         if p_end_pa self crit_p_pa <=? p_start_pa self then
           errors_append "Dome Calc: Invalid SI P range from PSIA."
         else
           for_each (pressures_pa_log self crit_p_pa) dome_sample ;;
           dome_apex crit_p_pa (p_end_pa self crit_p_pa)
     end)
    (fun e =>
       errors_append_once
         ("Unexpected Dome Calc Error: " ++ str_exn e)%string).

(** *** Cycle solver *)

Definition calculate_cycle : M unit :=
  modify (fun self =>
            set_errors
              (filter (fun e => negb (Py.contains "CoolProp Error:" e))
                 (errors self)) self) ;;
  modify (set_state_points_si empty_points) ;;
  modify (set_performance empty_performance) ;;
  self <- get ;;
  let p_evap_pa := p_evap_psia self * PSIA_TO_PA in
  let p_cond_pa := p_cond_psia self * PSIA_TO_PA in
  let delta_T_sh_k := superheat_F self * DELTA_F_TO_DELTA_K in
  let delta_T_sc_k := subcooling_F self * DELTA_F_TO_DELTA_K in
  if p_cond_pa <=? p_evap_pa then errors_append "P_evap must be < P_cond"
  else
  T_sat_evap_k <- safe_coolprop_call "T" "P" (PyFloat p_evap_pa) "Q"
                    (PyInt 1) REFRIGERANT ;;
  T_sat_cond_k <- safe_coolprop_call "T" "P" (PyFloat p_cond_pa) "Q"
                    (PyInt 0) REFRIGERANT ;;
  match T_sat_evap_k, T_sat_cond_k with
  | Some T_sat_evap_k, Some T_sat_cond_k =>
  (* Point 1 *)
  let T1_k := T_sat_evap_k + Py.max 0.01 delta_T_sh_k in
  h1_si <- safe_coolprop_call "H" "P" (PyFloat p_evap_pa) "T" (PyFloat T1_k)
             REFRIGERANT ;;
  s1_si <- safe_coolprop_call "S" "P" (PyFloat p_evap_pa) "T" (PyFloat T1_k)
             REFRIGERANT ;;
  match h1_si, s1_si with
  | Some h1_si, Some s1_si =>
  modify (fun self =>
            set_state_points_si
              (set_point K1
                 (Some (mkPoint p_evap_pa h1_si s1_si T1_k (Some 1.0)))
                 (state_points_si self)) self) ;;
  (* Point 2s *)
  let s2s_si := s1_si in
  h2s_si <- safe_coolprop_call "H" "P" (PyFloat p_cond_pa) "S"
              (PyFloat s2s_si) REFRIGERANT ;;
  T2s_k <- safe_coolprop_call "T" "P" (PyFloat p_cond_pa) "S"
             (PyFloat s2s_si) REFRIGERANT ;;
  match h2s_si, T2s_k with
  | Some h2s_si, Some T2s_k =>
  modify (fun self =>
            set_state_points_si
              (set_point K2s
                 (Some (mkPoint p_cond_pa h2s_si s2s_si T2s_k None))
                 (state_points_si self)) self) ;;
  (* Point 2 *)
  self <- get ;;
  if eta_comp self <=? 0 then errors_append "Comp eff must be > 0"
  else
  w_comp_isentropic_si <-
    (if h2s_si - h1_si <=? 0
     then errors_append "Warning: Isentropic enthalpy rise <= 0" ;; ret 1e-3
     else ret (h2s_si - h1_si)) ;;
  rise <- lift (Py.truediv w_comp_isentropic_si (eta_comp self)) ;;
  let h2_si := h1_si + rise in
  T2_k <- safe_coolprop_call "T" "P" (PyFloat p_cond_pa) "H" (PyFloat h2_si)
            REFRIGERANT ;;
  s2_si <- safe_coolprop_call "S" "P" (PyFloat p_cond_pa) "H" (PyFloat h2_si)
             REFRIGERANT ;;
  match T2_k, s2_si with
  | Some T2_k, Some s2_si =>
  modify (fun self =>
            set_state_points_si
              (set_point K2 (Some (mkPoint p_cond_pa h2_si s2_si T2_k None))
                 (state_points_si self)) self) ;;
  (* Point 3 *)
  let T3_k := T_sat_cond_k - Py.max 0.01 delta_T_sc_k in
  h3_si <- safe_coolprop_call "H" "P" (PyFloat p_cond_pa) "T" (PyFloat T3_k)
             REFRIGERANT ;;
  s3_si <- safe_coolprop_call "S" "P" (PyFloat p_cond_pa) "T" (PyFloat T3_k)
             REFRIGERANT ;;
  match h3_si, s3_si with
  | Some h3_si, Some s3_si =>
  modify (fun self =>
            set_state_points_si
              (set_point K3
                 (Some (mkPoint p_cond_pa h3_si s3_si T3_k (Some 0.0)))
                 (state_points_si self)) self) ;;
  (* Point 4 *)
  let h4_si := h3_si in
  let p4_pa := p_evap_pa in
  T4_k <- safe_coolprop_call "T" "P" (PyFloat p4_pa) "H" (PyFloat h4_si)
            REFRIGERANT ;;
  s4_si <- safe_coolprop_call "S" "P" (PyFloat p4_pa) "H" (PyFloat h4_si)
             REFRIGERANT ;;
  q4 <- safe_coolprop_call "Q" "P" (PyFloat p4_pa) "H" (PyFloat h4_si)
          REFRIGERANT ;;
  match T4_k, s4_si, q4 with
  | Some T4_k, Some s4_si, Some q4 =>
  modify (fun self =>
            set_state_points_si
              (set_point K4 (Some (mkPoint p4_pa h4_si s4_si T4_k (Some q4)))
                 (state_points_si self)) self) ;;
  (* Performance *)
  let q_evap_si := h1_si - h4_si in
  let w_comp_actual_si := h2_si - h1_si in
  let q_cond_si := h2_si - h3_si in
  modify (fun self =>
            set_performance
              (mkPerf (COP (performance self))
                 (Some (q_evap_si * J_KG_TO_BTU_LB))
                 (W_comp_btu_lb (performance self))
                 (Q_cond_btu_lb (performance self))) self) ;;
  modify (fun self =>
            set_performance
              (mkPerf (COP (performance self))
                 (Q_evap_btu_lb (performance self))
                 (Some (w_comp_actual_si * J_KG_TO_BTU_LB))
                 (Q_cond_btu_lb (performance self))) self) ;;
  modify (fun self =>
            set_performance
              (mkPerf (COP (performance self))
                 (Q_evap_btu_lb (performance self))
                 (W_comp_btu_lb (performance self))
                 (Some (q_cond_si * J_KG_TO_BTU_LB))) self) ;;
  if 1e-6 <? w_comp_actual_si then
    cop <- lift (Py.truediv q_evap_si w_comp_actual_si) ;;
    modify (fun self =>
              set_performance
                (mkPerf (Some cop)
                   (Q_evap_btu_lb (performance self))
                   (W_comp_btu_lb (performance self))
                   (Q_cond_btu_lb (performance self))) self)
  else
    modify (fun self =>
              set_performance
                (mkPerf None
                   (Q_evap_btu_lb (performance self))
                   (W_comp_btu_lb (performance self))
                   (Q_cond_btu_lb (performance self))) self)
  | _, _, _ => ret tt
  end
  | _, _ => ret tt
  end
  | _, _ => ret tt
  end
  | _, _ => ret tt
  end
  | _, _ => ret tt
  end
  | _, _ => ret tt
  end.

(** *** Coordinate mapper *)

(** The pixel of an in-range point: the two lines that compute [x] and [y]
    and the [int(x), int(y)] of the return. *)
Definition pixel (self : Sim) (h_btu_lb log_p : float) : outcome (Z * Z) :=
  match Py.truediv (h_btu_lb - h_min_btu_lb self)
          (h_max_btu_lb self - h_min_btu_lb self),
        Py.float_of_int (plot_x self),
        Py.float_of_int (plot_width self) with
  | Raised e, _, _ | Normal _, Raised e, _ | Normal _, Normal _, Raised e =>
      Raised e
  | Normal fx, Normal px, Normal pw =>
      let x := px + fx * pw in
      match Py.truediv (log_p - log_p_min self)
              (log_p_max self - log_p_min self),
            Py.float_of_int (plot_y self + plot_height self),
            Py.float_of_int (plot_height self) with
      | Raised e, _, _ | Normal _, Raised e, _ | Normal _, Normal _, Raised e =>
          Raised e
      | Normal fy, Normal pyh, Normal ph =>
          let y := pyh - fy * ph in
          match Py.int_of_float x with
          | Raised e => Raised e
          | Normal ix =>
              match Py.int_of_float y with
              | Raised e => Raised e
              | Normal iy => Normal (ix, iy)
              end
          end
      end
  end.

(** The test [h_min <= h <= h_max and log_p_min <= log_p <= log_p_max]. *)
Definition in_axes (self : Sim) (h_btu_lb log_p : float) : bool :=
  (h_min_btu_lb self <=? h_btu_lb) && (h_btu_lb <=? h_max_btu_lb self)
  && ((log_p_min self <=? log_p) && (log_p <=? log_p_max self)).

(** [map_coordinates(h_btu_lb, p_psia)]; an argument is a float or [None]. *)
Definition map_coordinates (self : Sim) (h_btu_lb p_psia : option float)
  : outcome (option (Z * Z)) :=
  match p_psia with
  | None =>
      Raised (TypeError
                "'<=' not supported between instances of 'NoneType' and 'float'")
  | Some p =>
      let p_psia := if p <=? 1e-6 then p_min_psia self else p in
      match h_btu_lb with
      | None => Normal None
      | Some h =>
          let log_p := np_log10 p_psia in
          if negb (in_axes self h log_p) then Normal None
          else
            match pixel self h log_p with
            | Normal xy => Normal (Some xy)
            | Raised e => Raised e
            end
      end
  end.

(** [__init__]: the attributes as set before the first computations, and
    the object the constructor leaves. *)
Definition new_sim (width height : Z) : Sim :=
  update_layout
    (mkSim width height 35.0 160.0 10.0 5.0 0.75
       40 210 10 400 (np_log10 10) (np_log10 400)
       0 0 0 0 empty_points empty_performance [] (mkDomeH [] []) [] []).

Definition init (width height : Z) : outcome unit * Sim :=
  (calculate_dome ;; calculate_cycle) (new_sim width height).

End Model.

(* ================================================================== *)
(** ** Concrete collaborators for running the model *)
(* ================================================================== *)

(** NumPy and CoolProp are not part of the repository.  To evaluate the
    methods on concrete inputs this module supplies float implementations
    of [log10] and [logspace] (series evaluated in binary64, accurate to a
    few units in the last place) and a small explicit equation of state
    with the magnitudes of R134a.  No theorem depends on their accuracy. *)
Module Lab.

Local Open Scope string_scope.
Local Open Scope float_scope.

Fixpoint horner (coeffs : list float) (x : float) : float :=
  match coeffs with
  | [] => 0
  | c :: rest => c + x * horner rest x
  end.

Definition LN2 : float := 0.6931471805599453.
Definition LN10 : float := 2.302585092994046.

(** [1/(2k+1)] for [k = 0 .. n-1], the coefficients of [atanh]. *)
Fixpoint odd_reciprocals (k : float) (n : nat) : list float :=
  match n with
  | O => []
  | S n' => 1 / (2 * k + 1) :: odd_reciprocals (k + 1) n'
  end.

(** [1/k!] for [k = 0 .. n-1], the coefficients of [exp]. *)
Fixpoint factorial_reciprocals (k acc : float) (n : nat) : list float :=
  match n with
  | O => []
  | S n' => acc :: factorial_reciprocals (k + 1) (acc / (k + 1)) n'
  end.

(** Natural logarithm of a positive finite float. *)
Definition ln (x : float) : float :=
  let (m, e) := Z.frexp x in
  let ef := Py.float_of_Z e in
  let '(m, ef) := if m <? 0.7071067811865476 then (2 * m, ef - 1)
                  else (m, ef) in
  let t := (m - 1) / (m + 1) in
  ef * LN2 + 2 * t * horner (odd_reciprocals 0 14) (t * t).

Definition log10 (x : float) : float :=
  if x <=? 0 then nan else ln x / LN10.

Definition pow2_Z (k : Z) : float :=
  if (0 <=? k)%Z then Py.float_of_Z (2 ^ k)
  else 1 / Py.float_of_Z (2 ^ (- k)).

Definition exp (z : float) : float :=
  let u := z / LN2 in
  match Py.int_of_float u with
  | Raised _ => nan
  | Normal k =>
      let r := (u - Py.float_of_Z k) * LN2 in
      horner (factorial_reciprocals 0 1 24) r * pow2_Z k
  end.

Definition pow10 (y : float) : float := exp (y * LN10).

(** [np.linspace(start, stop, num)]: equal steps, the last point exact. *)
Fixpoint linspace_from (start step : float) (i : float) (n : nat)
  (stop : float) : list float :=
  match n with
  | O => []
  | S O => [stop]
  | S n' => start + i * step :: linspace_from start step (i + 1) n' stop
  end.

Definition linspace (start stop : float) (num : Z) : list float :=
  let n := Z.to_nat num in
  let step := (stop - start) / Py.float_of_Z (num - 1) in
  linspace_from start step 0 n stop.

Definition logspace (start stop : float) (num : Z) : list float :=
  map pow10 (linspace start stop num).

(** A small equation of state: saturation temperature linear in
    [log10 P], constant specific heats in each phase. *)
Definition PCRIT : float := 4059280.
Definition T_sat (p : float) : float := 71.9 * log10 p - 118.5.
Definition h_liq (p : float) : float := 200000 + 1400 * (T_sat p - 273.15).
Definition h_vap (p : float) : float := 400000 + 500 * (T_sat p - 273.15).
Definition s_liq (p : float) : float := 1000 + 5 * (T_sat p - 273.15).
Definition s_vap (p : float) : float :=
  s_liq p + (h_vap p - h_liq p) / T_sat p.

Definition H_PT (p t : float) : float :=
  if T_sat p <=? t then h_vap p + 900 * (t - T_sat p)
  else h_liq p - 1400 * (T_sat p - t).

Definition S_PT (p t : float) : float :=
  if T_sat p <=? t then s_vap p + 3 * (t - T_sat p)
  else s_liq p - 5 * (T_sat p - t).

Definition T_PH (p h : float) : float :=
  if h_vap p <=? h then T_sat p + (h - h_vap p) / 900
  else if h <=? h_liq p then T_sat p - (h_liq p - h) / 1400
  else T_sat p.

Definition Q_PH (p h : float) : float :=
  (h - h_liq p) / (h_vap p - h_liq p).

Definition S_PH (p h : float) : float :=
  if h_vap p <=? h then s_vap p + 3 * ((h - h_vap p) / 900)
  else if h <=? h_liq p then s_liq p - 5 * ((h_liq p - h) / 1400)
  else s_liq p + Q_PH p h * (s_vap p - s_liq p).

Definition T_PS (p s : float) : float :=
  if s_vap p <=? s then T_sat p + (s - s_vap p) / 3
  else if s <=? s_liq p then T_sat p - (s_liq p - s) / 5
  else T_sat p.

Definition H_PS (p s : float) : float :=
  if s_vap p <=? s then h_vap p + 900 * ((s - s_vap p) / 3)
  else if s <=? s_liq p then h_liq p - 1400 * ((s_liq p - s) / 5)
  else h_liq p + (s - s_liq p) / (s_vap p - s_liq p) * (h_vap p - h_liq p).

(** Like CoolProp, the service refuses (with [ValueError]) a saturated
    state requested at or above the critical pressure, except the critical
    point itself, and any request it has no formula for. *)
Definition PropsSI (out n1 : string) (v1 : float) (n2 : string) (v2 : float)
  (fluid : string) : service_result :=
  let named a b := String.eqb a b in
  let refuse := Raises (ValueError "state not supported by the toy fluid") in
  if named out "pcrit" then Returns PCRIT
  else if negb (named n1 "P") then refuse
  else if named n2 "Q" then
    if (PCRIT <? v1) then
      Raises (ValueError "pressure above the critical pressure")
    else if named out "T" then Returns (T_sat v1)
    else if named out "H" then Returns (h_liq v1 + v2 * (h_vap v1 - h_liq v1))
    else refuse
  else if named n2 "T" then
    if named out "H" then Returns (H_PT v1 v2)
    else if named out "S" then Returns (S_PT v1 v2)
    else refuse
  else if named n2 "S" then
    if named out "H" then Returns (H_PS v1 v2)
    else if named out "T" then Returns (T_PS v1 v2)
    else refuse
  else if named n2 "H" then
    if named out "T" then Returns (T_PH v1 v2)
    else if named out "S" then Returns (S_PH v1 v2)
    else if named out "Q" then Returns (Q_PH v1 v2)
    else refuse
  else refuse.

(** A service on which isentropic compression gains no enthalpy: every
    property is the same constant. *)
Definition flat_PropsSI (out n1 : string) (v1 : float) (n2 : string)
  (v2 : float) (fluid : string) : service_result :=
  Returns 300.

(** A service that fails with an exception other than [ValueError]. *)
Definition crashing_PropsSI (out n1 : string) (v1 : float) (n2 : string)
  (v2 : float) (fluid : string) : service_result :=
  Raises (OtherError "RuntimeError" "property backend unavailable").

(** The constructor's object, before its first computations, for the
    initial window size. *)
Definition sim0 : Sim := new_sim log10 1300 880.

(** The object with other cycle parameters, and with other axis bounds. *)
Definition with_parameters (p_evap p_cond superheat subcooling eta : float)
  (self : Sim) : Sim :=
  mkSim (screen_width self) (screen_height self)
    p_evap p_cond superheat subcooling eta
    (h_min_btu_lb self) (h_max_btu_lb self) (p_min_psia self)
    (p_max_psia self) (log_p_min self) (log_p_max self)
    (plot_x self) (plot_y self) (plot_width self) (plot_height self)
    (state_points_si self) (performance self) (errors self)
    (dome_h_si self) (dome_p_pa self) (cp_calls self).

Definition with_axes (h_min h_max p_min p_max : float) (self : Sim) : Sim :=
  mkSim (screen_width self) (screen_height self)
    (p_evap_psia self) (p_cond_psia self) (superheat_F self)
    (subcooling_F self) (eta_comp self)
    h_min h_max p_min p_max (log10 p_min) (log10 p_max)
    (plot_x self) (plot_y self) (plot_width self) (plot_height self)
    (state_points_si self) (performance self) (errors self)
    (dome_h_si self) (dome_p_pa self) (cp_calls self).

(** Evaporating pressure above condensing pressure. *)
Definition sim_inverted : Sim := with_parameters 200 160 10 5 0.75 sim0.

(** A pressure axis that reaches past the critical pressure (588.7 psia). *)
Definition sim_near_critical : Sim := with_axes 40 210 10 600 sim0.

(** The same pressure axis with the enthalpy axis ending at 150 BTU/lb,
    below the enthalpy of the critical point. *)
Definition sim_narrow_window : Sim := with_axes 40 150 10 600 sim0.

End Lab.

(* ================================================================== *)
(** ** Keyboard input, state descriptions, the dome polyline, events *)
(* ================================================================== *)

Definition set_p_evap_psia (v : float) (self : Sim) : Sim :=
  mkSim (screen_width self) (screen_height self) v
    (p_cond_psia self) (superheat_F self) (subcooling_F self) (eta_comp
    self) (h_min_btu_lb self) (h_max_btu_lb self) (p_min_psia self)
    (p_max_psia self) (log_p_min self) (log_p_max self) (plot_x self)
    (plot_y self) (plot_width self) (plot_height self) (state_points_si
    self) (performance self) (errors self) (dome_h_si self) (dome_p_pa self)
    (cp_calls self).

Definition set_p_cond_psia (v : float) (self : Sim) : Sim :=
  mkSim (screen_width self) (screen_height self) (p_evap_psia self)
    v (superheat_F self) (subcooling_F self) (eta_comp
    self) (h_min_btu_lb self) (h_max_btu_lb self) (p_min_psia self)
    (p_max_psia self) (log_p_min self) (log_p_max self) (plot_x self)
    (plot_y self) (plot_width self) (plot_height self) (state_points_si
    self) (performance self) (errors self) (dome_h_si self) (dome_p_pa self)
    (cp_calls self).

Definition set_superheat_F (v : float) (self : Sim) : Sim :=
  mkSim (screen_width self) (screen_height self) (p_evap_psia self)
    (p_cond_psia self) v (subcooling_F self) (eta_comp
    self) (h_min_btu_lb self) (h_max_btu_lb self) (p_min_psia self)
    (p_max_psia self) (log_p_min self) (log_p_max self) (plot_x self)
    (plot_y self) (plot_width self) (plot_height self) (state_points_si
    self) (performance self) (errors self) (dome_h_si self) (dome_p_pa self)
    (cp_calls self).

Definition set_subcooling_F (v : float) (self : Sim) : Sim :=
  mkSim (screen_width self) (screen_height self) (p_evap_psia self)
    (p_cond_psia self) (superheat_F self) v (eta_comp
    self) (h_min_btu_lb self) (h_max_btu_lb self) (p_min_psia self)
    (p_max_psia self) (log_p_min self) (log_p_max self) (plot_x self)
    (plot_y self) (plot_width self) (plot_height self) (state_points_si
    self) (performance self) (errors self) (dome_h_si self) (dome_p_pa self)
    (cp_calls self).

Definition set_eta_comp (v : float) (self : Sim) : Sim :=
  mkSim (screen_width self) (screen_height self) (p_evap_psia self)
    (p_cond_psia self) (superheat_F self) (subcooling_F self) v
    (h_min_btu_lb self) (h_max_btu_lb self) (p_min_psia self)
    (p_max_psia self) (log_p_min self) (log_p_max self) (plot_x self)
    (plot_y self) (plot_width self) (plot_height self) (state_points_si
    self) (performance self) (errors self) (dome_h_si self) (dome_p_pa self)
    (cp_calls self).

(** [self.screen_width, self.screen_height = w, h] *)
Definition set_screen_size (w h : Z) (self : Sim) : Sim :=
  mkSim w h (p_evap_psia self)
    (p_cond_psia self) (superheat_F self) (subcooling_F self) (eta_comp
    self) (h_min_btu_lb self) (h_max_btu_lb self) (p_min_psia self)
    (p_max_psia self) (log_p_min self) (log_p_max self) (plot_x self)
    (plot_y self) (plot_width self) (plot_height self) (state_points_si
    self) (performance self) (errors self) (dome_h_si self) (dome_p_pa self)
    (cp_calls self).

(** The keys the program compares [event.key] with; [K_other] is any
    other key. *)
Inductive key : Type :=
| K_RIGHT | K_LEFT | K_UP | K_DOWN
| K_s | K_x | K_a | K_z
| K_e | K_d
| K_l | K_h | K_c | K_v
| K_r
| K_f | K_ESCAPE
| K_other.

(** The events the application loop tells apart. *)
Inductive event : Type :=
| QUIT
| VIDEORESIZE (w h : Z)
| KEYDOWN (k : key)
| OTHER_EVENT.

Definition MIN_SCREEN_WIDTH : Z := 950.
Definition MIN_SCREEN_HEIGHT : Z := 700.

(** RGB colours and the calls to [pygame.draw.lines(screen, color, closed,
    points, width)] a drawing method makes. *)
Definition color : Type := (Z * Z * Z)%type.
Definition GRAY : color := (120, 120, 120)%Z.

Record lines_call : Type := mkLines {
  ln_color : color;
  ln_closed : bool;
  ln_points : list (Z * Z);
  ln_width : Z
}.

(** The key of [state_points_si] a name denotes, if any. *)
Definition point_of_name (name : string) : option point_key :=
  if String.eqb name "1" then Some K1
  else if String.eqb name "2" then Some K2
  else if String.eqb name "2s" then Some K2s
  else if String.eqb name "3" then Some K3
  else if String.eqb name "4" then Some K4
  else None.

(** [self.state_points_si.get(state_name)], with [None] for a missing key
    and for the empty dict alike (both are falsy). *)
Definition state_points_get (name : string) (sp : StatePoints)
  : option StatePoint :=
  match point_of_name name with
  | Some k => get_point k sp
  | None => None
  end.

Section Interaction.

Variable PropsSI :
  string -> string -> float -> string -> float -> string -> service_result.
Variable np_log10 : float -> float.

Local Open Scope float_scope.
Local Open Scope py_scope.

(** [handle_input(event)].  The clamps [max(self.p_min_psia, ...)] and
    [min(self.p_max_psia, ...)] may hand back the int bound itself; it is
    kept as the float it equals. *)
Definition handle_input (ev : event) : M unit :=
  match ev with
  | KEYDOWN key =>
      let step_p_evap := 1.0 in
      let step_p_cond := 2.0 in
      let step_t := 1.0 in
      let step_eta := 0.01 in
      recalculate <-
        match key with
        | K_RIGHT =>
            modify (fun self =>
                      set_p_evap_psia (p_evap_psia self + step_p_evap) self) ;;
            ret true
        | K_LEFT =>
            modify (fun self =>
                      set_p_evap_psia (p_evap_psia self - step_p_evap) self) ;;
            ret true
        | K_UP =>
            modify (fun self =>
                      set_p_cond_psia (p_cond_psia self + step_p_cond) self) ;;
            ret true
        | K_DOWN =>
            modify (fun self =>
                      set_p_cond_psia (p_cond_psia self - step_p_cond) self) ;;
            ret true
        | K_s =>
            modify (fun self =>
                      set_superheat_F (superheat_F self + step_t) self) ;;
            ret true
        | K_x =>
            modify (fun self =>
                      set_superheat_F
                        (Py.max 0.1 (superheat_F self - step_t)) self) ;;
            ret true
        | K_a =>
            modify (fun self =>
                      set_subcooling_F (subcooling_F self + step_t) self) ;;
            ret true
        | K_z =>
            modify (fun self =>
                      set_subcooling_F
                        (Py.max 0.1 (subcooling_F self - step_t)) self) ;;
            ret true
        | K_e =>
            modify (fun self =>
                      set_eta_comp (Py.min 1.0 (eta_comp self + step_eta))
                        self) ;;
            ret true
        | K_d =>
            modify (fun self =>
                      set_eta_comp (Py.max 0.1 (eta_comp self - step_eta))
                        self) ;;
            ret true
        | K_l =>
            modify (fun self =>
                      set_p_evap_psia (p_evap_psia self - 5.0) self) ;;
            modify (fun self =>
                      set_superheat_F (superheat_F self + 10.0) self) ;;
            ret true
        | K_h =>
            modify (fun self =>
                      set_p_cond_psia (p_cond_psia self + 10.0) self) ;;
            modify (fun self =>
                      set_superheat_F
                        (Py.max 1.0 (superheat_F self - 10.0)) self) ;;
            ret true
        | K_c =>
            modify (fun self =>
                      set_p_cond_psia (p_cond_psia self + 10.0) self) ;;
            ret true
        | K_v =>
            modify (fun self =>
                      set_p_evap_psia (p_evap_psia self - 5.0) self) ;;
            ret true
        | K_r => modify reset_parameters ;; ret true
        | _ => ret false
        end ;;
      if recalculate then
        modify (fun self =>
                  set_p_evap_psia
                    (Py.max (p_min_psia self)
                       (Py.min (p_max_psia self - 2.0) (p_evap_psia self)))
                    self) ;;
        modify (fun self =>
                  set_p_cond_psia
                    (Py.max (p_evap_psia self + 5.0)
                       (Py.min (p_max_psia self) (p_cond_psia self)))
                    self) ;;
        calculate_cycle PropsSI
      else ret tt
  | _ => ret tt
  end.

(** [get_state_description(state_name)] *)
Definition get_state_description (state_name : string) : M string :=
  self <- get ;;
  match state_points_get state_name (state_points_si self) with
  | None => ret "Unknown/Error"%string
  | Some state_si =>
      let p_pa := pt_p state_si in
      let T_k := pt_T state_si in
      let quality := pt_Q state_si in
      T_sat_k <- safe_coolprop_call PropsSI "T" "P" (PyFloat p_pa) "Q"
                   (PyFloat 0.5) REFRIGERANT ;;
      match T_sat_k with
      | None => ret "Sat Temp Error"%string
      | Some T_sat_k =>
          let tol := 0.1 in
          let by_temperature : M string :=
            if T_k <? T_sat_k - tol then ret "Subcooled Liquid"%string
            else if T_sat_k + tol <? T_k then ret "Superheated Vapor"%string
            else
              let h_si := pt_h state_si in
              let h_tol_j := 50 in
              if negb (h_si =? 0) then
                h_liq <- safe_coolprop_call PropsSI "H" "P" (PyFloat p_pa)
                           "Q" (PyInt 0) REFRIGERANT ;;
                h_vap <- safe_coolprop_call PropsSI "H" "P" (PyFloat p_pa)
                           "Q" (PyInt 1) REFRIGERANT ;;
                match h_liq, h_vap with
                | Some h_liq, Some h_vap =>
                    if negb (h_liq =? 0) && negb (h_vap =? 0) then
                      if abs (h_si - h_liq) <? h_tol_j
                      then ret "Saturated Liquid"%string
                      else if abs (h_si - h_vap) <? h_tol_j
                      then ret "Saturated Vapor"%string
                      else if (h_liq <? h_si) && (h_si <? h_vap)
                      then ret "Two-Phase Mixture"%string
                      else ret "Near Saturation"%string
                    else ret "Near Saturation"%string
                | _, _ => ret "Near Saturation"%string
                end
              else ret "Near Saturation"%string in
          match quality with
          | Some quality =>
              if (abs (quality - 0.0) <? 1e-4) && (T_k <? T_sat_k - tol)
              then ret "Subcooled Liquid"%string
              else if abs (quality - 0.0) <? 1e-4
              then ret "Saturated Liquid"%string
              else if (abs (quality - 1.0) <? 1e-4) && (T_sat_k + tol <? T_k)
              then ret "Superheated Vapor"%string
              else if abs (quality - 1.0) <? 1e-4
              then ret "Saturated Vapor"%string
              else if (0.0 <? quality) && (quality <? 1.0)
              then ret "Two-Phase Mixture"%string
              else by_temperature
          | None => by_temperature
          end
      end
  end.

(** The loop of [draw_dome] over [range(len(self.dome_p_pa))]: the screen
    points of the two branches collected so far.  A coordinate pair is
    truthy, so only [None] is left out. *)
Fixpoint dome_screen_points (self : Sim) (indices : list nat)
  (points_liq_screen points_vap_screen : list (Z * Z))
  : outcome (list (Z * Z) * list (Z * Z)) :=
  match indices with
  | [] => Normal (points_liq_screen, points_vap_screen)
  | i :: rest =>
      let index_error :=
        Raised (OtherError "IndexError" "list index out of range") in
      match nth_error (dome_p_pa self) i with
      | None => index_error
      | Some p_pa =>
          let p_psia := p_pa * PA_TO_PSIA in
          match nth_error (liq (dome_h_si self)) i with
          | None => index_error
          | Some h_liq_si =>
              let h_liq_btu := h_liq_si * J_KG_TO_BTU_LB in
              match nth_error (vap (dome_h_si self)) i with
              | None => index_error
              | Some h_vap_si =>
                  let h_vap_btu := h_vap_si * J_KG_TO_BTU_LB in
                  match map_coordinates np_log10 self (Some h_liq_btu)
                          (Some p_psia) with
                  | Raised e => Raised e
                  | Normal coord_liq =>
                      match map_coordinates np_log10 self (Some h_vap_btu)
                              (Some p_psia) with
                      | Raised e => Raised e
                      | Normal coord_vap =>
                          let add coord points :=
                            match coord with
                            | Some c => points ++ [c]
                            | None => points
                            end in
                          dome_screen_points self rest
                            (add coord_liq points_liq_screen)
                            (add coord_vap points_vap_screen)
                      end
                  end
              end
          end
      end
  end.

(** [draw_dome(screen)]: the polylines it draws, in order. *)
Definition draw_dome (self : Sim) : outcome (list lines_call) :=
  if (List.length (dome_p_pa self) <? 2)%nat then Normal []
  else
    match dome_screen_points self (seq 0 (List.length (dome_p_pa self)))
            [] [] with
    | Raised e => Raised e
    | Normal (points_liq_screen, points_vap_screen) =>
        Normal
          ((if (1 <? List.length points_liq_screen)%nat
            then [mkLines GRAY false points_liq_screen 2] else [])
           ++ (if (1 <? List.length points_vap_screen)%nat
               then [mkLines GRAY false points_vap_screen 2] else []))
    end.

(** [self.sim.screen_width, self.sim.screen_height = w, h;
    self.sim.update_layout(); self.sim.calculate_cycle()] *)
Definition relayout (w h : Z) : M unit :=
  modify (set_screen_size w h) ;;
  modify update_layout ;;
  calculate_cycle PropsSI.

(** The application: [running], the simulator's [fullscreen] flag and the
    simulator. *)
Record App : Type := mkApp {
  running : bool;
  fullscreen : bool;
  sim : Sim
}.

(** The body of [for event in pygame.event.get()] in [App.run];
    [surface_size] is what [pygame.display.get_surface().get_size()]
    answers after a fullscreen toggle. *)
Definition on_event (surface_size : Z * Z) (ev : event) (app : App)
  : outcome unit * App :=
  let with_sim (flag : bool) (r : outcome unit * Sim) :=
    (fst r, mkApp (running app) flag (snd r)) in
  match ev with
  | QUIT => (Normal tt, mkApp false (fullscreen app) (sim app))
  | VIDEORESIZE event_w event_h =>
      let w := Z.max MIN_SCREEN_WIDTH event_w in
      let h := Z.max MIN_SCREEN_HEIGHT event_h in
      with_sim (fullscreen app) (relayout w h (sim app))
  | KEYDOWN K_f =>
      with_sim (negb (fullscreen app))
        (relayout (fst surface_size) (snd surface_size) (sim app))
  | KEYDOWN K_ESCAPE =>
      if fullscreen app then
        with_sim false
          (relayout (fst surface_size) (snd surface_size) (sim app))
      else (Normal tt, mkApp false (fullscreen app) (sim app))
  | KEYDOWN _ => with_sim (fullscreen app) (handle_input ev (sim app))
  | OTHER_EVENT => (Normal tt, app)
  end.

(** The events of a run, each with the surface size the display would
    report, handled one after the other until one raises. *)
Fixpoint on_events (evs : list (Z * Z * event)) (app : App)
  : outcome unit * App :=
  match evs with
  | [] => (Normal tt, app)
  | (size, ev) :: rest =>
      match on_event size ev app with
      | (Normal _, app') => on_events rest app'
      | (Raised e, app') => (Raised e, app')
      end
  end.

End Interaction.
(* ================================================================== *)
(** ** Vocabulary of the statements *)
(* ================================================================== *)

(** The definitions below are not part of the program: they name what the
    properties talk about. *)

Section Views.

Variable PropsSI :
  string -> string -> float -> string -> float -> string -> service_result.

Local Open Scope float_scope.

(** The handler of [safe_coolprop_call], run on the message of the caught
    [ValueError]. *)
Definition handled (e output_param input1_param : string) (input1_val : pyval)
  (input2_param : string) (input2_val : pyval) (s : Sim)
  : outcome (option float) * Sim :=
  match error_str (Py.first_line e) output_param input1_param input1_val
          input2_param input2_val with
  | Raised x => (Raised x, s)
  | Normal m =>
      (Normal None,
       if Py.mem m (errors s) then s else set_errors (errors s ++ [m]) s)
  end.

(** The request a call sends to the service, and the service's answer. *)
Definition request (output_param input1_param : string) (input1_val : pyval)
  (input2_param : string) (input2_val : pyval) (refrigerant : string)
  : PropsRequest :=
  mkReq output_param input1_param (Py.as_double input1_val) input2_param
    (Py.as_double input2_val) refrigerant.

Definition service_answer (r : PropsRequest) : service_result :=
  PropsSI (rq_out r) (rq_name1 r) (rq_val1 r) (rq_name2 r) (rq_val2 r)
    (rq_fluid r).

(** What [safe_coolprop_call] returns, as a function of its arguments
    alone ([safe_coolprop_call_result] below). *)
Definition adapter_reply (out n1 : string) (v1 : pyval) (n2 : string)
  (v2 : pyval) (fluid : string) : outcome (option float) :=
  let failed :=
    match error_str EmptyString out n1 v1 n2 v2 with
    | Raised x => Raised x
    | Normal _ => Normal None
    end in
  match inputs_ok v1 v2 with
  | Raised e => Raised e
  | Normal false => failed
  | Normal true =>
      match service_answer (request out n1 v1 n2 v2 fluid) with
      | Returns v => if is_finite v then Normal (Some v) else failed
      | Raises (ValueError _) => failed
      | Raises e => Raised e
      end
  end.

(** A message composed by the adapter. *)
Definition adapter_message (m : string) : Prop :=
  String.prefix "CP Error: " m = true.

(** The log across one adapter call: unchanged, or longer by one adapter
    message that was not in it. *)
Inductive log_step (before after : list string) : Prop :=
| log_same : after = before -> log_step before after
| log_more m :
    after = before ++ [m] -> adapter_message m -> ~ In m before ->
    log_step before after.

(** An input value the handler's format code [.1f] accepts: [None], a
    float, an int in the range of the doubles, or the empty string (each of
    the last three falsy values is replaced by 0 before formatting). *)
Definition formattable (v : pyval) : bool :=
  match v with
  | PyNone => true
  | PyFloat _ => true
  | PyInt z => negb (is_infinity (Py.float_of_Z z))
  | PyStr s => match s with EmptyString => true | String _ _ => false end
  end.

(** The evaporating and condensing pressures in Pa, as [calculate_cycle]
    computes them. *)
Definition p_evap_pa (self : Sim) : float := p_evap_psia self * PSIA_TO_PA.
Definition p_cond_pa (self : Sim) : float := p_cond_psia self * PSIA_TO_PA.

(** The entries [calculate_cycle] keeps when it cleans the log. *)
Definition kept_by_cycle (e : string) : bool :=
  negb (Py.contains "CoolProp Error:" e).

(** Saturated-liquid enthalpy not above saturated-vapour enthalpy at a
    pressure, for the answers of the service (true when it gives none). *)
Definition enthalpies_ordered (p_pa : float) : bool :=
  match service_answer
          (request "H" "P" (PyFloat p_pa) "Q" (PyInt 0) REFRIGERANT),
        service_answer
          (request "H" "P" (PyFloat p_pa) "Q" (PyInt 1) REFRIGERANT) with
  | Returns h_liq, Returns h_vap => h_liq <=? h_vap
  | _, _ => true
  end.

(** What one pass of the sampling loop does to the dome. *)
Inductive sample_effect (p : float) (s s' : Sim) : Prop :=
| sample_dropped :
    dome_p_pa s' = dome_p_pa s -> dome_h_si s' = dome_h_si s ->
    sample_effect p s s'
| sample_kept h_liq h_vap :
    adapter_reply "H" "P" (PyFloat p) "Q" (PyInt 0) REFRIGERANT = Normal (Some h_liq) ->
    adapter_reply "H" "P" (PyFloat p) "Q" (PyInt 1) REFRIGERANT = Normal (Some h_vap) ->
    dome_p_pa s' = dome_p_pa s ++ [p] ->
    liq (dome_h_si s') = liq (dome_h_si s) ++ [h_liq] ->
    vap (dome_h_si s') = vap (dome_h_si s) ++ [h_vap] ->
    sample_effect p s s'.

End Views.

(** Equality of optional rationals, up to [==]. *)
Definition opt_Qeq (a b : option Q) : Prop :=
  match a, b with
  | Some x, Some y => x == y
  | None, None => True
  | _, _ => False
  end.

(** Every element strictly below all later ones. *)
Fixpoint increasing (l : list float) : bool :=
  match l with
  | [] => true
  | a :: rest => forallb (fun b => (a <? b)%float) rest && increasing rest
  end.

(** What an adapter call leaves as it was: every attribute but the log and
    the request history; the log only grows. *)
Record frame (s s' : Sim) : Prop := mkFrame {
  fr_points : state_points_si s' = state_points_si s;
  fr_performance : performance s' = performance s;
  fr_p_evap : p_evap_psia s' = p_evap_psia s;
  fr_p_cond : p_cond_psia s' = p_cond_psia s;
  fr_superheat : superheat_F s' = superheat_F s;
  fr_subcooling : subcooling_F s' = subcooling_F s;
  fr_eta : eta_comp s' = eta_comp s;
  fr_p_min : p_min_psia s' = p_min_psia s;
  fr_p_max : p_max_psia s' = p_max_psia s;
  fr_dome_h : dome_h_si s' = dome_h_si s;
  fr_dome_p : dome_p_pa s' = dome_p_pa s;
  fr_keeps : forall m, In m (errors s) -> In m (errors s')
}.
(* ================================================================== *)
(** ** The order of the floats *)
(* ================================================================== *)

(** Where a float sits on the real line, as an integer: its value times
    [2 ^ position_scale]; the infinities sit beyond every finite double.
    (Not-a-number has no position; it is given 0.) *)
Definition position_scale : Z := 2200.

Definition dyadic (m e : Z) : Z := m * 2 ^ (e + position_scale).

Definition sf_position (x : spec_float) : Z :=
  match x with
  | S754_zero _ => 0
  | S754_infinity s =>
      if s then - dyadic 1 emax else dyadic 1 emax
  | S754_nan => 0
  | S754_finite s m e =>
      if s then - dyadic (Zpos m) e else dyadic (Zpos m) e
  end.

Definition position (x : float) : Z := sf_position (Prim2SF x).

(** [x] is a number: [x == x] in Python. *)
Definition not_nan (x : float) : Prop := Prim2SF x <> S754_nan.
(* ================================================================== *)
(** ** More vocabulary *)
(* ================================================================== *)

(** A value [math.isfinite] accepts and finds finite. *)
Definition finite_number (v : pyval) : bool :=
  match v with
  | PyFloat f => is_finite f
  | PyInt z => is_finite (Py.float_of_Z z)
  | _ => false
  end.

(** The log grew by messages of the adapter only. *)
Definition adapter_extension (before after : list string) : Prop :=
  exists added,
    after = before ++ added /\ Forall adapter_message added.

Definition filled {A} (o : option A) : bool :=
  match o with Some _ => true | None => false end.

(** Every number of a state point is finite. *)
Definition finite_point (pt : StatePoint) : bool :=
  is_finite (pt_p pt) && is_finite (pt_h pt) && is_finite (pt_s pt)
  && is_finite (pt_T pt)
  && match pt_Q pt with Some q => is_finite q | None => true end.

(** The labels [get_state_description] can return. *)
Definition state_labels : list string :=
  ["Unknown/Error"; "Sat Temp Error"; "Subcooled Liquid"; "Saturated Liquid";
   "Superheated Vapor"; "Saturated Vapor"; "Two-Phase Mixture";
   "Near Saturation"]%string.

(** The keys [handle_input] has a branch for. *)
Definition handled_key (k : key) : bool :=
  match k with
  | K_f | K_ESCAPE | K_other => false
  | _ => true
  end.

(** A computation leaves an attribute (or any function of the object) as
    it found it. *)
Definition preserves {A B} (f : Sim -> B) (m : M A) : Prop :=
  forall s, f (snd (m s)) = f s.

(** A function of the object that does not read the log or the request
    history. *)
Definition ignores_log {B} (f : Sim -> B) : Prop :=
  (forall v t, f (set_errors v t) = f t)
  /\ (forall v t, f (set_cp_calls v t) = f t).

(** ... nor the state points and the performance values. *)
Definition ignores_results {B} (f : Sim -> B) : Prop :=
  ignores_log f
  /\ (forall v t, f (set_state_points_si v t) = f t)
  /\ (forall v t, f (set_performance v t) = f t).

(** ... nor the dome lists. *)
Definition ignores_dome {B} (f : Sim -> B) : Prop :=
  ignores_log f
  /\ (forall v t, f (set_dome_h_si v t) = f t)
  /\ (forall v t, f (set_dome_p_pa v t) = f t).

(** Two states related across a computation. *)
Definition relates {A} (R : Sim -> Sim -> Prop) (m : M A) : Prop :=
  forall s, R s (snd (m s)).

(** The dome lists grew by as many entries each, all finite. *)
Definition dome_grows (s s' : Sim) : Prop :=
  exists ps hls hvs,
    dome_p_pa s' = dome_p_pa s ++ ps
    /\ liq (dome_h_si s') = liq (dome_h_si s) ++ hls
    /\ vap (dome_h_si s') = vap (dome_h_si s) ++ hvs
    /\ List.length hls = List.length ps
    /\ List.length hvs = List.length ps
    /\ forallb is_finite ps = true
    /\ forallb is_finite hls = true
    /\ forallb is_finite hvs = true.

(** The log grew by messages of the adapter only. *)
Definition log_extends (s s' : Sim) : Prop :=
  adapter_extension (errors s) (errors s').

(** The messages [calculate_dome] writes itself. *)
Definition dome_message (m : string) : Prop :=
  m = "Dome Calc: Invalid SI P range from PSIA."%string
  \/ exists text, m = ("Unexpected Dome Calc Error: " ++ text)%string.

(** Two objects with the same dome and the same pressure-axis bounds. *)
Definition dome_twin (s t : Sim) : Prop :=
  dome_p_pa s = dome_p_pa t /\ dome_h_si s = dome_h_si t
  /\ p_min_psia s = p_min_psia t /\ p_max_psia s = p_max_psia t.

(** A computation run on two related objects ends the same way on both
    and leaves them related. *)
Definition in_step {A} (T : Sim -> Sim -> Prop) (m : M A) : Prop :=
  forall s t, T s t ->
    fst (m s) = fst (m t) /\ T (snd (m s)) (snd (m t)).

(** Every value a computation can return satisfies [P]. *)
Definition returns_in {A} (P : A -> Prop) (m : M A) : Prop :=
  forall s a, fst (m s) = Normal a -> P a.

(** What the branch of a key does to the parameters, and the two clamps
    that follow it in [handle_input]. *)
Definition key_effect (k : key) (self : Sim) : Sim :=
  match k with
  | K_RIGHT => set_p_evap_psia (p_evap_psia self + 1.0) self
  | K_LEFT => set_p_evap_psia (p_evap_psia self - 1.0) self
  | K_UP => set_p_cond_psia (p_cond_psia self + 2.0) self
  | K_DOWN => set_p_cond_psia (p_cond_psia self - 2.0) self
  | K_s => set_superheat_F (superheat_F self + 1.0) self
  | K_x => set_superheat_F (Py.max 0.1 (superheat_F self - 1.0)) self
  | K_a => set_subcooling_F (subcooling_F self + 1.0) self
  | K_z => set_subcooling_F (Py.max 0.1 (subcooling_F self - 1.0)) self
  | K_e => set_eta_comp (Py.min 1.0 (eta_comp self + 0.01)) self
  | K_d => set_eta_comp (Py.max 0.1 (eta_comp self - 0.01)) self
  | K_l =>
      set_superheat_F (superheat_F self + 10.0)
        (set_p_evap_psia (p_evap_psia self - 5.0) self)
  | K_h =>
      set_superheat_F (Py.max 1.0 (superheat_F self - 10.0))
        (set_p_cond_psia (p_cond_psia self + 10.0) self)
  | K_c => set_p_cond_psia (p_cond_psia self + 10.0) self
  | K_v => set_p_evap_psia (p_evap_psia self - 5.0) self
  | K_r => reset_parameters self
  | K_f | K_ESCAPE | K_other => self
  end%float.

Definition clamp_pressures (self : Sim) : Sim :=
  let self1 :=
    set_p_evap_psia
      (Py.max (p_min_psia self)
         (Py.min (p_max_psia self - 2.0) (p_evap_psia self)))%float self in
  set_p_cond_psia
    (Py.max (p_evap_psia self1 + 5.0)
       (Py.min (p_max_psia self1) (p_cond_psia self1)))%float self1.

(** An event that makes [handle_input] recalculate. *)
Definition recalculates (ev : event) : bool :=
  match ev with
  | KEYDOWN k => handled_key k
  | _ => false
  end.

(** An exception of the arithmetic of [map_coordinates]. *)
Definition arithmetic_error (e : exn) : bool :=
  match e with
  | OtherError _ _ => false
  | _ => true
  end.

(** The exponent range a position stands for, and the position a
    positive real is rounded to: the nearest multiple of the unit in the
    last place of its binade, ties to the even multiple. *)
Definition magnitude (v : Z) : Z := (Z.log2 v + 1 - position_scale)%Z.

Definition round_position (v : Z) : Z :=
  let u := (2 ^ (fexp prec emax (magnitude v) + position_scale))%Z in
  (u * Py.round_half_even v u)%Z.

Definition infinity_position : Z := dyadic 1 emax.

(** The record [shr] reaches after shifting [m] right by [k] bits. *)
Definition shr_state (m k : Z) : shr_record :=
  let x := (m mod 2 ^ k)%Z in
  Build_shr_record (m / 2 ^ k)%Z (2 ^ k <=? 2 * x)%Z
    (negb (x =? 0)%Z && negb (2 * x =? 2 ^ k)%Z).

(** The region the keyboard keeps the parameters in, for the pressure
    axis of the constructor. *)
Definition envelope (s : Sim) : Prop :=
  p_min_psia s = 10%float /\ p_max_psia s = 400%float
  /\ (10 <=? p_evap_psia s)%float = true
  /\ (p_evap_psia s <=? 398)%float = true
  /\ (p_evap_psia s + 5 <=? p_cond_psia s)%float = true
  /\ (p_cond_psia s <=? 403)%float = true
  /\ (0.1 <=? superheat_F s)%float = true
  /\ (0.1 <=? subcooling_F s)%float = true
  /\ (0.1 <=? eta_comp s)%float = true.

(** Neither guard of [calculate_cycle] stops it: the pressures in Pa are
    in order and the efficiency is above zero. *)
Definition guards_pass (s : Sim) : Prop :=
  (p_cond_psia s * PSIA_TO_PA <=? p_evap_psia s * PSIA_TO_PA)%float = false
  /\ (eta_comp s <=? 0)%float = false.

(** A message the solver appends on a run that passes its guards. *)
Definition run_message (m : string) : Prop :=
  adapter_message m \/ m = "Warning: Isentropic enthalpy rise <= 0"%string.

(** Evaporating pressures 10, 12, ..., 398 psia, and the test that a
    condensing pressure 5 psia above the lower end of a step stays above
    the upper end after the conversion to Pa. *)
Definition pressure_grid : list float :=
  map (fun i => Py.float_of_Z (10 + 2 * Z.of_nat i)) (seq 0 195).

Definition step_separated (a b : float) : bool :=
  ((0 <? a) && (b * PSIA_TO_PA <? (a + 5) * PSIA_TO_PA))%float.

Fixpoint chain_ok (P : float -> float -> bool) (l : list float) : bool :=
  match l with
  | a :: (b :: _) as rest => P a b && chain_ok P rest
  | _ => true
  end.


(** The log grew by messages of a run that passed the guards. *)
Definition run_extends (s s' : Sim) : Prop :=
  exists added, errors s' = errors s ++ added /\ Forall run_message added.

(** ... on an object whose parameters pass the guards, before and after. *)
Definition guarded_run (s s' : Sim) : Prop :=
  guards_pass s -> guards_pass s' /\ run_extends s s'.

(** Neither guard message is in the log. *)
Definition quiet (s : Sim) : Prop :=
  ~ In "P_evap must be < P_cond"%string (errors s)
  /\ ~ In "Comp eff must be > 0"%string (errors s).

(* ================================================================== *)
(** ** Facts about the interpreter primitives *)
(* ================================================================== *)

Arguments PSIA_TO_PA : simpl never.
Arguments PA_TO_PSIA : simpl never.
Arguments J_KG_TO_BTU_LB : simpl never.
Arguments DELTA_F_TO_DELTA_K : simpl never.
Arguments Py.max : simpl never.
Arguments Py.min : simpl never.
Arguments Py.truediv : simpl never.

Section FloatFacts.

Local Open Scope float_scope.

Lemma eqb_leb (x y : float) : (x =? y) = true -> (x <=? y) = true.
Proof.
  rewrite eqb_spec, leb_spec. unfold SFeqb, SFleb.
  destruct (SFcompare (Prim2SF x) (Prim2SF y)) as [[ | | ]|]; congruence.
Qed.

Lemma leb_false_nonzero (x : float) : (x <=? 0) = false -> (x =? 0) = false.
Proof.
  intros H. destruct (x =? 0) eqn:E; [|reflexivity].
  apply eqb_leb in E. congruence.
Qed.

Lemma above_epsilon_nonzero (x : float) :
  (1e-6 <? x) = true -> (x =? 0) = false.
Proof.
  rewrite ltb_spec, eqb_spec.
  change (Prim2SF 0) with (S754_zero false).
  destruct (Prim2SF x) as [s| s | |s m e]; cbn; try reflexivity;
    try discriminate; destruct s; reflexivity.
Qed.

Lemma positive_not_le_zero (x : float) : (0 <? x) = true -> (x <=? 0) = false.
Proof.
  rewrite ltb_spec, leb_spec. change (Prim2SF 0) with (S754_zero false).
  destruct (Prim2SF x) as [s| s | |s m e]; cbn; try discriminate;
    destruct s; try discriminate; reflexivity.
Qed.

Lemma is_finite_eqb_refl (x : float) : is_finite x = true -> (x =? x) = true.
Proof.
  unfold is_finite, is_nan. intros H.
  destruct (x =? x); [reflexivity|]. cbn in H. discriminate.
Qed.

Lemma is_finite_leb_refl (x : float) : is_finite x = true -> (x <=? x) = true.
Proof. intros H. apply eqb_leb, is_finite_eqb_refl, H. Qed.

Lemma truediv_nonzero (x y : float) :
  (y =? 0) = false -> Py.truediv x y = Normal (x / y).
Proof. intros H. unfold Py.truediv. rewrite H. reflexivity. Qed.

End FloatFacts.

Section ListFacts.

Lemma mem_In (m : string) (log : list string) :
  Py.mem m log = true <-> In m log.
Proof.
  unfold Py.mem. rewrite existsb_exists. split.
  - intros [x [Hx E]]. apply String.eqb_eq in E. subst. exact Hx.
  - intros H. exists m. split; [exact H | apply String.eqb_refl].
Qed.

Lemma filter_idempotent {A} (f : A -> bool) (l : list A) :
  filter f (filter f l) = filter f l.
Proof.
  induction l as [|a l IH]; cbn; [reflexivity|].
  destruct (f a) eqn:E; cbn; rewrite ?E, IH; reflexivity.
Qed.

Lemma filter_keeps_all {A} (f : A -> bool) (l : list A) :
  Forall (fun a => f a = true) l -> filter f l = l.
Proof.
  induction 1 as [|a l Ha _ IH]; cbn; [reflexivity|]. rewrite Ha, IH.
  reflexivity.
Qed.

Lemma repeat_snoc {A} (a : A) (n : nat) : repeat a n ++ [a] = repeat a (S n).
Proof.
  induction n as [|n IH]; cbn; [reflexivity|]. cbn in IH. rewrite IH.
  reflexivity.
Qed.

End ListFacts.

(* ================================================================== *)
(** ** Comparisons of floats as comparisons of positions *)
(* ================================================================== *)

Section FloatOrder.

Local Open Scope Z_scope.

Lemma digits2_pos_bounds (m : positive) :
  2 ^ (Zpos (digits2_pos m) - 1) <= Zpos m < 2 ^ Zpos (digits2_pos m).
Proof.
  induction m as [m IH|m IH|]; cbn [digits2_pos].
  - rewrite Pos2Z.inj_succ.
    replace (Z.succ (Zpos (digits2_pos m)) - 1)
      with (Z.succ (Zpos (digits2_pos m) - 1)) by lia.
    rewrite !Z.pow_succ_r by lia. lia.
  - rewrite Pos2Z.inj_succ.
    replace (Z.succ (Zpos (digits2_pos m)) - 1)
      with (Z.succ (Zpos (digits2_pos m) - 1)) by lia.
    rewrite !Z.pow_succ_r by lia. lia.
  - cbn. lia.
Qed.

(** A canonical mantissa: 53 digits, or fewer at the least exponent. *)
Lemma bounded_canonical (m : positive) (e : Z) :
  bounded prec emax m e = true ->
  -1074 <= e <= 971
  /\ Zpos (digits2_pos m) <= 53
  /\ (-1074 < e -> Zpos (digits2_pos m) = 53).
Proof.
  unfold bounded, canonical_mantissa, fexp, SpecFloat.emin, prec, emax.
  intros H. apply andb_true_iff in H as [H1 H2].
  apply Z.eqb_eq in H1. apply Z.leb_le in H2. lia.
Qed.

Lemma dyadic_pos (m : positive) (e : Z) :
  0 <= e + position_scale -> 0 < dyadic (Zpos m) e.
Proof.
  intros H. unfold dyadic. apply Z.mul_pos_pos; [lia|].
  apply Z.pow_pos_nonneg; lia.
Qed.

Lemma dyadic_shift (m e k : Z) :
  0 <= k -> 0 <= e + position_scale ->
  dyadic m (e + k) = dyadic (m * 2 ^ k) e.
Proof.
  intros Hk He. unfold dyadic.
  replace (e + k + position_scale) with (k + (e + position_scale)) by lia.
  rewrite Z.pow_add_r by lia. ring.
Qed.

Lemma dyadic_le_mono (m1 m2 e : Z) :
  0 <= e + position_scale -> (m1 <= m2 <-> dyadic m1 e <= dyadic m2 e).
Proof.
  intros He. unfold dyadic.
  assert (P : 0 < 2 ^ (e + position_scale)) by (apply Z.pow_pos_nonneg; lia).
  split; intros H; nia.
Qed.

Lemma dyadic_lt_mono (m1 m2 e : Z) :
  0 <= e + position_scale -> (m1 < m2 <-> dyadic m1 e < dyadic m2 e).
Proof.
  intros He. unfold dyadic.
  assert (P : 0 < 2 ^ (e + position_scale)) by (apply Z.pow_pos_nonneg; lia).
  split; intros H; nia.
Qed.

(** Canonical mantissas at different exponents: the exponent decides. *)
Lemma canonical_exponent_decides (m1 m2 : positive) (e1 e2 : Z) :
  bounded prec emax m1 e1 = true -> bounded prec emax m2 e2 = true ->
  e1 < e2 -> dyadic (Zpos m1) e1 < dyadic (Zpos m2) e2.
Proof.
  intros B1 B2 Hlt.
  apply bounded_canonical in B1 as (R1 & D1 & _).
  apply bounded_canonical in B2 as (R2 & _ & D2).
  assert (D : Zpos (digits2_pos m2) = 53) by (apply D2; lia).
  pose proof (digits2_pos_bounds m1) as [_ U1].
  pose proof (digits2_pos_bounds m2) as [L2 _].
  rewrite D in L2. change (53 - 1) with 52 in L2.
  assert (U1' : Zpos m1 < 2 ^ 53).
  { eapply Z.lt_le_trans; [exact U1|]. apply Z.pow_le_mono_r; lia. }
  replace e2 with (e1 + (e2 - e1)) by lia.
  rewrite dyadic_shift by (unfold position_scale; lia).
  apply dyadic_lt_mono; [unfold position_scale; lia|].
  assert (P : 2 ^ 1 <= 2 ^ (e2 - e1)) by (apply Z.pow_le_mono_r; lia).
  change (2 ^ 1) with 2 in P.
  change (2 ^ 53) with (2 * 2 ^ 52) in U1'. nia.
Qed.

Lemma canonical_compare (m1 m2 : positive) (e1 e2 : Z) :
  bounded prec emax m1 e1 = true -> bounded prec emax m2 e2 = true ->
  match e1 ?= e2 with
  | Lt => Lt
  | Gt => Gt
  | Eq => Pos.compare_cont Eq m1 m2
  end = (dyadic (Zpos m1) e1 ?= dyadic (Zpos m2) e2).
Proof.
  intros B1 B2. symmetry.
  destruct (Z.compare_spec e1 e2) as [E|L|G].
  - subst e2. fold (Pos.compare m1 m2).
    apply bounded_canonical in B1 as (R1 & _).
    destruct (Pos.compare_spec m1 m2) as [E|L|G].
    + subst. apply Z.compare_refl.
    + apply Z.compare_lt_iff, dyadic_lt_mono; [unfold position_scale|]; lia.
    + apply Z.compare_gt_iff, dyadic_lt_mono; [unfold position_scale|]; lia.
  - apply Z.compare_lt_iff, canonical_exponent_decides; assumption.
  - apply Z.compare_gt_iff, canonical_exponent_decides; assumption.
Qed.

Lemma finite_below_infinity (m : positive) (e : Z) :
  bounded prec emax m e = true -> 0 < dyadic (Zpos m) e < dyadic 1 emax.
Proof.
  intros B. apply bounded_canonical in B as (R & D & _).
  split; [apply dyadic_pos; unfold position_scale; lia|].
  pose proof (digits2_pos_bounds m) as [_ U].
  assert (U' : Zpos m < 2 ^ 53).
  { eapply Z.lt_le_trans; [exact U|]. apply Z.pow_le_mono_r; lia. }
  unfold emax. replace 1024 with (e + (1024 - e)) by lia.
  rewrite dyadic_shift by (unfold position_scale; lia).
  apply dyadic_lt_mono; [unfold position_scale; lia|].
  assert (P : 2 ^ 53 <= 2 ^ (1024 - e)) by (apply Z.pow_le_mono_r; lia).
  lia.
Qed.

(** On valid numbers [SFcompare] compares positions. *)
Lemma SFcompare_position (x y : spec_float) :
  valid_binary x = true -> valid_binary y = true ->
  x <> S754_nan -> y <> S754_nan ->
  SFcompare x y = Some (sf_position x ?= sf_position y).
Proof.
  intros Vx Vy Nx Ny.
  assert (I : 0 < dyadic 1 emax)
    by (apply (dyadic_pos 1); unfold emax, position_scale; lia).
  destruct x as [sx|sx| |sx mx ex]; [| | congruence |];
    (destruct y as [sy|sy| |sy my ey]; [| | congruence |]);
    cbn [SpecFloat.valid_binary] in Vx, Vy;
    try (pose proof (finite_below_infinity _ _ Vx) as [Px Ix]);
    try (pose proof (finite_below_infinity _ _ Vy) as [Py Iy]);
    cbn [SFcompare sf_position].
  9: { destruct sx, sy; f_equal.
       - rewrite Z.compare_opp.
         rewrite (Z.compare_antisym (dyadic (Zpos mx) ex) (dyadic (Zpos my) ey)).
         rewrite <- (canonical_compare _ _ _ _ Vx Vy).
         destruct (ex ?= ey); reflexivity.
       - symmetry. apply Z.compare_lt_iff. lia.
       - symmetry. apply Z.compare_gt_iff. lia.
       - apply canonical_compare; assumption. }
  all: try destruct sx; try destruct sy; f_equal; symmetry;
    try (apply Z.compare_eq_iff; lia);
    try (apply Z.compare_lt_iff; lia);
    try (apply Z.compare_gt_iff; lia).
Qed.

Local Open Scope float_scope.

Lemma compare_position (x y : float) :
  not_nan x -> not_nan y ->
  SFcompare (Prim2SF x) (Prim2SF y) = Some (position x ?= position y)%Z.
Proof.
  intros Nx Ny. apply SFcompare_position; auto using Prim2SF_valid.
Qed.

Lemma compare_nan_l (x y : float) :
  ~ not_nan x -> SFcompare (Prim2SF x) (Prim2SF y) = None.
Proof.
  unfold not_nan. intros H.
  destruct (Prim2SF x); try (exfalso; apply H; discriminate).
  reflexivity.
Qed.

Lemma compare_nan_r (x y : float) :
  ~ not_nan y -> SFcompare (Prim2SF x) (Prim2SF y) = None.
Proof.
  unfold not_nan. intros H.
  destruct (Prim2SF y); try (exfalso; apply H; discriminate).
  destruct (Prim2SF x); reflexivity.
Qed.

Lemma not_nan_dec (x : float) : not_nan x \/ ~ not_nan x.
Proof.
  unfold not_nan. destruct (Prim2SF x); (left; discriminate) || (right; tauto).
Qed.

Lemma ltb_true (x y : float) :
  (x <? y) = true <-> not_nan x /\ not_nan y /\ (position x < position y)%Z.
Proof.
  rewrite ltb_spec. unfold SFltb.
  destruct (not_nan_dec x) as [Nx|Nx];
    [|rewrite compare_nan_l by exact Nx; split; [discriminate|tauto]].
  destruct (not_nan_dec y) as [Ny|Ny];
    [|rewrite compare_nan_r by exact Ny; split; [discriminate|tauto]].
  rewrite compare_position by assumption.
  destruct (Z.compare_spec (position x) (position y)); split;
    try discriminate; try (intros (_ & _ & H'); lia); auto.
Qed.

Lemma leb_true (x y : float) :
  (x <=? y) = true <-> not_nan x /\ not_nan y /\ (position x <= position y)%Z.
Proof.
  rewrite leb_spec. unfold SFleb.
  destruct (not_nan_dec x) as [Nx|Nx];
    [|rewrite compare_nan_l by exact Nx; split; [discriminate|tauto]].
  destruct (not_nan_dec y) as [Ny|Ny];
    [|rewrite compare_nan_r by exact Ny; split; [discriminate|tauto]].
  rewrite compare_position by assumption.
  destruct (Z.compare_spec (position x) (position y)); split;
    try discriminate; try (intros (_ & _ & H'); lia); auto;
    intros _; repeat split; auto; lia.
Qed.

Lemma ltb_false (x y : float) :
  not_nan x -> not_nan y ->
  (x <? y) = false <-> (position y <= position x)%Z.
Proof.
  intros Nx Ny. rewrite ltb_spec. unfold SFltb.
  rewrite compare_position by assumption.
  destruct (Z.compare_spec (position x) (position y)); split;
    try discriminate; try lia; auto.
Qed.

Lemma leb_false (x y : float) :
  not_nan x -> not_nan y ->
  (x <=? y) = false <-> (position y < position x)%Z.
Proof.
  intros Nx Ny. rewrite leb_spec. unfold SFleb.
  rewrite compare_position by assumption.
  destruct (Z.compare_spec (position x) (position y)); split;
    try discriminate; try lia; auto.
Qed.

(** Python's two-argument [max] and [min] in terms of positions. *)
Lemma max_number (a b : float) : not_nan a -> not_nan (Py.max a b).
Proof.
  intros Na. unfold Py.max. destruct (a <? b) eqn:E; [|exact Na].
  apply ltb_true in E. tauto.
Qed.

Lemma min_number (a b : float) : not_nan a -> not_nan (Py.min a b).
Proof.
  intros Na. unfold Py.min. destruct (b <? a) eqn:E; [|exact Na].
  apply ltb_true in E. tauto.
Qed.

Lemma max_position (a b : float) :
  not_nan a ->
  position (Py.max a b)
  = if (b =? b) then Z.max (position a) (position b) else position a.
Proof.
  intros Na. unfold Py.max.
  destruct (not_nan_dec b) as [Nb|Nb].
  - assert (Eb : (b =? b) = true).
    { rewrite eqb_spec. unfold SFeqb. rewrite compare_position by assumption.
      rewrite Z.compare_refl. reflexivity. }
    rewrite Eb. destruct (a <? b) eqn:E.
    + apply ltb_true in E. lia.
    + apply ltb_false in E; [lia|assumption|assumption].
  - assert (Eb : (b =? b) = false).
    { rewrite eqb_spec. unfold SFeqb. rewrite compare_nan_l by exact Nb.
      reflexivity. }
    rewrite Eb. destruct (a <? b) eqn:E; [|reflexivity].
    apply ltb_true in E. tauto.
Qed.

Lemma min_position (a b : float) :
  not_nan a ->
  position (Py.min a b)
  = if (b =? b) then Z.min (position a) (position b) else position a.
Proof.
  intros Na. unfold Py.min.
  destruct (not_nan_dec b) as [Nb|Nb].
  - assert (Eb : (b =? b) = true).
    { rewrite eqb_spec. unfold SFeqb. rewrite compare_position by assumption.
      rewrite Z.compare_refl. reflexivity. }
    rewrite Eb. destruct (b <? a) eqn:E.
    + apply ltb_true in E. lia.
    + apply ltb_false in E; [lia|assumption|assumption].
  - assert (Eb : (b =? b) = false).
    { rewrite eqb_spec. unfold SFeqb. rewrite compare_nan_l by exact Nb.
      reflexivity. }
    rewrite Eb. destruct (b <? a) eqn:E; [|reflexivity].
    apply ltb_true in E. tauto.
Qed.

End FloatOrder.
(* ================================================================== *)
(** ** Rounding to nearest even, by positions *)
(* ================================================================== *)

Section HalfEven.

Local Open Scope Z_scope.

Local Notation rhe := Py.round_half_even.

Lemma rhe_bounds n d : 0 < d -> n / d <= rhe n d <= n / d + 1.
Proof.
  intros Hd. unfold Py.round_half_even. cbv zeta.
  destruct (2 * (n mod d) ?= d); [destruct (Z.even (n / d))| |]; lia.
Qed.

Lemma rhe_exact k d : 0 < d -> rhe (k * d) d = k.
Proof.
  intros Hd. unfold Py.round_half_even. cbv zeta.
  rewrite Z.mod_mul, Z.div_mul by lia.
  destruct (Z.compare_spec (2 * 0) d); lia.
Qed.

Lemma rhe_mono n1 n2 d : 0 < d -> n1 <= n2 -> rhe n1 d <= rhe n2 d.
Proof.
  intros Hd Hn.
  assert (Q : n1 / d <= n2 / d) by (apply Z.div_le_mono; lia).
  destruct (Z.eq_dec (n1 / d) (n2 / d)) as [E|E].
  - assert (R : n1 mod d <= n2 mod d).
    { pose proof (Z.div_mod n1 d ltac:(lia)).
      pose proof (Z.div_mod n2 d ltac:(lia)). rewrite E in *. lia. }
    unfold Py.round_half_even. cbv zeta. rewrite E.
    destruct (Z.compare_spec (2 * (n1 mod d)) d);
      destruct (Z.compare_spec (2 * (n2 mod d)) d);
      destruct (Z.even (n2 / d)); lia.
  - pose proof (rhe_bounds n1 d Hd). pose proof (rhe_bounds n2 d Hd). lia.
Qed.

Lemma rhe_scale n d c : 0 < d -> 0 < c -> rhe (n * c) (d * c) = rhe n d.
Proof.
  intros Hd Hc. unfold Py.round_half_even. cbv zeta.
  rewrite Z.div_mul_cancel_r, Z.mul_mod_distr_r by lia.
  replace (2 * (n mod d * c) ?= d * c) with (2 * (n mod d) ?= d);
    [reflexivity|].
  destruct (Z.compare_spec (2 * (n mod d)) d); symmetry;
    [apply Z.compare_eq_iff | apply Z.compare_lt_iff | apply Z.compare_gt_iff];
    nia.
Qed.

Lemma rhe_nonneg n d : 0 < d -> 0 <= n -> 0 <= rhe n d.
Proof.
  intros Hd Hn. pose proof (rhe_bounds n d Hd).
  pose proof (Z.div_pos n d Hn Hd). lia.
Qed.

End HalfEven.

Section Shifting.

Local Open Scope Z_scope.

Lemma iter_pos_nat {A} (f : A -> A) (p : positive) (x : A) :
  iter_pos f p x = Nat.iter (Pos.to_nat p) f x.
Proof.
  revert x. induction p as [p IH|p IH|]; intros x; cbn [iter_pos].
  - rewrite !IH, Pos2Nat.inj_xI.
    replace (S (2 * Pos.to_nat p)) with (S (Pos.to_nat p + Pos.to_nat p))
      by lia.
    rewrite Nat.iter_succ_r, Nat.iter_add. reflexivity.
  - rewrite !IH, Pos2Nat.inj_xO.
    replace (2 * Pos.to_nat p)%nat with (Pos.to_nat p + Pos.to_nat p)%nat
      by lia.
    rewrite Nat.iter_add. reflexivity.
  - reflexivity.
Qed.

Lemma shr_1_nonneg q r s :
  0 <= q ->
  shr_1 (Build_shr_record q r s) = Build_shr_record (q / 2) (Z.odd q) (r || s).
Proof.
  intros Hq. destruct q as [|p|p]; [reflexivity| |lia].
  rewrite <- Z.div2_div. destruct p as [p|p|]; reflexivity.
Qed.

Lemma shr_state_0 m : shr_state m 0 = Build_shr_record m false false.
Proof.
  unfold shr_state. cbv zeta. change (2 ^ 0) with 1.
  rewrite Z.mod_1_r, Z.div_1_r. reflexivity.
Qed.

Lemma shr_state_succ m k :
  0 <= m -> 0 <= k -> shr_1 (shr_state m k) = shr_state m (k + 1).
Proof.
  intros Hm Hk. unfold shr_state. cbv zeta.
  assert (P : 0 < 2 ^ k) by (apply Z.pow_pos_nonneg; lia).
  rewrite shr_1_nonneg by (apply Z.div_pos; lia).
  rewrite Z.pow_add_r, Z.pow_1_r by lia.
  rewrite Z.div_div by lia.
  pose proof (Z.mod_pos_bound m (2 ^ k) P) as Bx.
  assert (X : m mod (2 ^ k * 2) = m mod 2 ^ k + 2 ^ k * ((m / 2 ^ k) mod 2))
    by (apply Z.rem_mul_r; lia).
  pose proof (Z.mod_pos_bound (m / 2 ^ k) 2 ltac:(lia)) as Bb.
  rewrite X.
  assert (O : Z.odd (m / 2 ^ k) = ((m / 2 ^ k) mod 2 =? 1)).
  { rewrite Zmod_odd. destruct (Z.odd (m / 2 ^ k)); reflexivity. }
  rewrite O. set (x := m mod 2 ^ k) in *. set (b := (m / 2 ^ k) mod 2) in *.
  clearbody x b. clear O X.
  assert (B : b = 0 \/ b = 1) by lia.
  destruct B as [-> | ->]; rewrite ?Z.mul_0_r, ?Z.mul_1_r, ?Z.add_0_r;
    f_equal.
  - destruct (Z.leb_spec (2 ^ k * 2) (2 * x)); [lia | reflexivity].
  - destruct (Z.leb_spec (2 ^ k) (2 * x)), (Z.eqb_spec x 0),
      (Z.eqb_spec (2 * x) (2 ^ k)), (Z.eqb_spec (2 * x) (2 ^ k * 2));
      cbn; try reflexivity; lia.
  - destruct (Z.leb_spec (2 ^ k * 2) (2 * (x + 2 ^ k))); [reflexivity | lia].
  - destruct (Z.leb_spec (2 ^ k) (2 * x)), (Z.eqb_spec x 0),
      (Z.eqb_spec (2 * x) (2 ^ k)), (Z.eqb_spec (x + 2 ^ k) 0),
      (Z.eqb_spec (2 * (x + 2 ^ k)) (2 ^ k * 2)); cbn; try reflexivity; lia.
Qed.

Lemma shr_state_iter m (k : nat) :
  0 <= m ->
  Nat.iter k shr_1 (Build_shr_record m false false)
  = shr_state m (Z.of_nat k).
Proof.
  intros Hm. induction k as [|k IH].
  - rewrite shr_state_0. reflexivity.
  - rewrite Nat.iter_succ, IH, shr_state_succ by lia.
    f_equal. lia.
Qed.

(** Shifting right and rounding the record is rounding the quotient. *)
Lemma shr_state_rounds m k :
  0 <= k ->
  round_nearest_even (shr_m (shr_state m k))
    (loc_of_shr_record (shr_state m k))
  = Py.round_half_even m (2 ^ k).
Proof.
  intros Hk. unfold shr_state, Py.round_half_even. cbv zeta.
  assert (P : 0 < 2 ^ k) by (apply Z.pow_pos_nonneg; lia).
  pose proof (Z.mod_pos_bound m (2 ^ k) P) as Bx.
  set (x := m mod 2 ^ k) in *. cbn [shr_m].
  destruct (Z.leb_spec (2 ^ k) (2 * x)), (Z.eqb_spec x 0),
    (Z.eqb_spec (2 * x) (2 ^ k)), (Z.compare_spec (2 * x) (2 ^ k));
    cbn; try reflexivity; lia.
Qed.

Lemma digits2_log2 (m : positive) :
  Zpos (digits2_pos m) = Z.log2 (Zpos m) + 1.
Proof.
  pose proof (digits2_pos_bounds m) as [L U].
  assert (E : Z.log2 (Zpos m) = Zpos (digits2_pos m) - 1).
  { apply Z.log2_unique; [lia|]. split; [exact L|].
    replace (Z.succ (Zpos (digits2_pos m) - 1)) with (Zpos (digits2_pos m))
      by lia.
    exact U. }
  lia.
Qed.

Lemma nat_iter_xO (m : positive) (n : nat) :
  Zpos (Nat.iter n xO m) = Zpos m * 2 ^ Z.of_nat n.
Proof.
  induction n as [|n IH].
  - change (Zpos m = Zpos m * 2 ^ 0). rewrite Z.pow_0_r. lia.
  - rewrite Nat.iter_succ, Pos2Z.inj_xO, IH, Nat2Z.inj_succ, Z.pow_succ_r
      by lia.
    ring.
Qed.

Lemma pos_iter_xO (m d : positive) :
  Zpos (Pos.iter xO m d) = Zpos m * 2 ^ Zpos d.
Proof.
  rewrite Pos2Nat.inj_iter.
  change (nat_rect (fun _ => positive) m (fun _ => xO) (Pos.to_nat d))
    with (Nat.iter (Pos.to_nat d) xO m).
  rewrite nat_iter_xO, positive_nat_Z. reflexivity.
Qed.

End Shifting.
Section BinaryRound.

Local Open Scope Z_scope.

Local Notation rhe := Py.round_half_even.
Local Notation S := position_scale.

Lemma fexp_cases k : fexp prec emax k = Z.max (k - 53) (-1074).
Proof. reflexivity. Qed.

Lemma pow2_pos k : 0 <= k -> 0 < 2 ^ k.
Proof. intros H. apply Z.pow_pos_nonneg; lia. Qed.

Lemma pow2_split a b : 0 <= a -> 0 <= b -> 2 ^ (a + b) = 2 ^ a * 2 ^ b.
Proof. intros. apply Z.pow_add_r; assumption. Qed.

Lemma pow2_le a b : 0 <= a <= b -> 2 ^ a <= 2 ^ b.
Proof. intros. apply Z.pow_le_mono_r; lia. Qed.

Lemma pow2_lt a b : 0 <= a < b -> 2 ^ a < 2 ^ b.
Proof. intros. apply Z.pow_lt_mono_r; lia. Qed.

Lemma magnitude_dyadic (m : positive) (e : Z) :
  0 <= e + S -> magnitude (dyadic (Zpos m) e) = Zpos (digits2_pos m) + e.
Proof.
  intros He. unfold magnitude, dyadic.
  rewrite Z.log2_mul_pow2, digits2_log2 by lia. lia.
Qed.

(** A positive position lies in the binade its magnitude names. *)
Lemma magnitude_bounds v :
  0 < v -> 2 ^ (magnitude v - 1 + S) <= v < 2 ^ (magnitude v + S).
Proof.
  intros Hv. unfold magnitude. pose proof (Z.log2_spec v Hv) as [L U].
  replace (Z.log2 v + 1 - S - 1 + S) with (Z.log2 v) by lia.
  replace (Z.log2 v + 1 - S + S) with (Z.succ (Z.log2 v)) by lia.
  split; assumption.
Qed.

Lemma magnitude_mono v1 v2 : v1 <= v2 -> magnitude v1 <= magnitude v2.
Proof.
  intros H. unfold magnitude. pose proof (Z.log2_le_mono v1 v2 H). lia.
Qed.

Lemma magnitude_ge v : -S < magnitude v.
Proof. unfold magnitude. pose proof (Z.log2_nonneg v). lia. Qed.

(** The first shift of [binary_round_aux]. *)
Lemma shr_fexp_exact (mz : positive) (ez : Z) :
  let fe := fexp prec emax (Zpos (digits2_pos mz) + ez) in
  ez <= fe ->
  shr_fexp prec emax (Zpos mz) ez loc_Exact
  = (shr_state (Zpos mz) (fe - ez), fe).
Proof.
  intros fe Hle. unfold shr_fexp, shr. cbn [shr_record_of_loc Zdigits2].
  fold fe. destruct (fe - ez) as [|p|p] eqn:E.
  - rewrite shr_state_0. f_equal. lia.
  - rewrite iter_pos_nat, shr_state_iter, positive_nat_Z by lia.
    f_equal. lia.
  - lia.
Qed.

(** The mantissa after the first rounding. *)
Lemma rounded_mantissa (mz : positive) (ez fe : Z) :
  0 <= ez + S -> ez <= fe ->
  rhe (Zpos mz) (2 ^ (fe - ez)) = rhe (dyadic (Zpos mz) ez) (2 ^ (fe + S)).
Proof.
  intros He Hle. unfold dyadic.
  replace (fe + S) with ((fe - ez) + (ez + S)) by lia.
  rewrite (pow2_split (fe - ez) (ez + S)) by lia. symmetry.
  apply rhe_scale; apply pow2_pos; lia.
Qed.

Lemma infinity_position_eq : infinity_position = 2 ^ (1024 + S).
Proof. unfold infinity_position, dyadic, emax. lia. Qed.

Lemma round_aux_position (mz : positive) (ez : Z) :
  0 <= ez + S ->
  ez <= fexp prec emax (Zpos (digits2_pos mz) + ez) ->
  let r := binary_round_aux prec emax false (Zpos mz) ez loc_Exact in
  r <> S754_nan
  /\ sf_position r
     = Z.min (round_position (dyadic (Zpos mz) ez)) infinity_position.
Proof.
  intros He Hle r. subst r.
  set (g := Zpos (digits2_pos mz) + ez) in *.
  set (fe := fexp prec emax g) in *.
  assert (Fe : fe = Z.max (g - 53) (-1074)) by apply fexp_cases.
  set (v := dyadic (Zpos mz) ez).
  assert (Mv : magnitude v = g) by (apply magnitude_dyadic; exact He).
  assert (Pv : 0 < v) by (apply dyadic_pos; exact He).
  pose proof (magnitude_bounds v Pv) as [Lv Uv]. rewrite Mv in Lv, Uv.
  set (U := 2 ^ (fe + S)).
  assert (PU : 0 < U) by (apply pow2_pos; unfold S, position_scale; lia).
  set (R := rhe v U).
  assert (RP : round_position v = U * R).
  { unfold round_position. cbv zeta. rewrite Mv. reflexivity. }
  assert (R0 : 0 <= R) by (apply rhe_nonneg; lia).
  assert (R53 : R <= 2 ^ 53).
  { rewrite <- (rhe_exact (2 ^ 53) U PU). apply rhe_mono; [exact PU|].
    unfold U. rewrite <- pow2_split by (unfold S, position_scale; lia).
    apply Z.lt_le_incl. eapply Z.lt_le_trans; [exact Uv|].
    apply pow2_le. unfold S, position_scale in *. lia. }
  assert (R52 : -1074 < fe -> 2 ^ 52 <= R).
  { intros Hn. rewrite <- (rhe_exact (2 ^ 52) U PU). apply rhe_mono; [exact PU|].
    unfold U. rewrite <- pow2_split by (unfold S, position_scale; lia).
    eapply Z.le_trans; [|exact Lv].
    apply pow2_le. unfold S, position_scale in *. lia. }
  assert (E53 : U * 2 ^ 53 = 2 ^ (fe + 53 + S)).
  { unfold U. rewrite <- pow2_split by (unfold S, position_scale in *; lia).
    f_equal. lia. }
  assert (E52 : U * 2 ^ 52 = 2 ^ (fe + 52 + S)).
  { unfold U. rewrite <- pow2_split by (unfold S, position_scale in *; lia).
    f_equal. lia. }
  pose proof infinity_position_eq as INF.
  assert (PI : 0 < infinity_position).
  { rewrite INF. apply pow2_pos. unfold S, position_scale. lia. }
  rewrite RP.
  unfold binary_round_aux.
  rewrite (shr_fexp_exact mz ez Hle). fold g fe.
  rewrite shr_state_rounds by lia.
  rewrite (rounded_mantissa mz ez fe He Hle). fold v U R.
  clearbody R. clear Lv Uv Mv RP Pv. clearbody v.
  destruct R as [|r|r]; [| |lia].
  - (* underflow to zero *)
    unfold shr_fexp, shr. cbn [shr_record_of_loc Zdigits2].
    rewrite fexp_cases.
    destruct (Z.max (0 + fe - 53) (-1074) - fe) as [|p|p] eqn:E; [| lia |];
      cbn [shr_m]; (split; [discriminate|]); cbn [sf_position]; lia.
  - pose proof (digits2_pos_bounds r) as [Ld Ud].
    assert (D54 : Zpos (digits2_pos r) <= 54).
    { destruct (Z.le_gt_cases (Zpos (digits2_pos r)) 54) as [H|H]; [exact H|].
      assert (2 ^ 54 <= 2 ^ (Zpos (digits2_pos r) - 1))
        by (apply pow2_le; lia).
      assert (2 ^ 53 < 2 ^ 54) by (apply pow2_lt; lia). lia. }
    unfold shr_fexp, shr. cbn [shr_record_of_loc Zdigits2].
    rewrite fexp_cases.
    destruct (Z.le_gt_cases (Zpos (digits2_pos r)) 53) as [D53|D53].
    + (* no carry *)
      assert (Rlt : Zpos r < 2 ^ 53).
      { eapply Z.lt_le_trans; [exact Ud|]. apply pow2_le. lia. }
      assert (RU : U * Zpos r < U * 2 ^ 53)
        by (apply Z.mul_lt_mono_pos_l; assumption).
      destruct (Z.max (Zpos (digits2_pos r) + fe - 53) (-1074) - fe)
        as [|p|p] eqn:E; [| lia |]; cbn [shr_m];
        (destruct (Z.leb_spec fe (emax - prec)) as [Hf|Hf];
         unfold emax, prec in Hf;
         (split; [discriminate|]); cbn [sf_position];
         try change (dyadic 1 emax) with infinity_position;
         unfold dyadic; fold U;
         [ assert (2 ^ (fe + 53 + S) <= 2 ^ (1024 + S))
             by (apply pow2_le; unfold S, position_scale in *; lia);
           lia
         | assert (2 ^ (1024 + S) <= 2 ^ (fe + 52 + S))
             by (apply pow2_le; unfold S, position_scale in *; lia);
           pose proof (R52 ltac:(lia)) as R52';
           assert (U * 2 ^ 52 <= U * Zpos r)
             by (apply Z.mul_le_mono_nonneg_l; lia);
           lia ]).
    + (* the rounding carried into the next binade *)
      assert (D : Zpos (digits2_pos r) = 54) by lia.
      assert (Rr : Zpos r = 2 ^ 53).
      { rewrite D in Ld. change (54 - 1) with 53 in Ld. lia. }
      rewrite D.
      replace (Z.max (54 + fe - 53) (-1074) - fe) with 1 by lia.
      cbn [iter_pos]. rewrite shr_1_nonneg by lia. cbn [shr_m].
      rewrite Rr. change (2 ^ 53 / 2) with (Zpos (2 ^ 52)).
      destruct (Z.leb_spec (fe + 1) (emax - prec)) as [Hf|Hf];
        unfold emax, prec in Hf; (split; [discriminate|]);
        cbn [sf_position];
        try change (dyadic 1 emax) with infinity_position.
      * rewrite dyadic_shift by (unfold S, position_scale in *; lia).
        unfold dyadic. fold U. change (Zpos (2 ^ 52) * 2 ^ 1) with (2 ^ 53).
        assert (2 ^ (fe + 53 + S) < 2 ^ (1024 + S))
          by (apply pow2_lt; unfold S, position_scale in *; lia).
        lia.
      * assert (2 ^ (1024 + S) <= 2 ^ (fe + 53 + S))
          by (apply pow2_le; unfold S, position_scale in *; lia).
        lia.
Qed.

Lemma binary_round_position (m : positive) (e : Z) :
  0 <= e + S ->
  let r := binary_round prec emax false m e in
  r <> S754_nan
  /\ sf_position r
     = Z.min (round_position (dyadic (Zpos m) e)) infinity_position.
Proof.
  intros He r. subst r. unfold binary_round, shl_align.
  set (fe := fexp prec emax (Zpos (digits2_pos m) + e)).
  assert (Fe : fe = Z.max (Zpos (digits2_pos m) + e - 53) (-1074))
    by apply fexp_cases.
  destruct (fe - e) as [|d|d] eqn:E.
  - apply round_aux_position; [exact He | fold fe; lia].
  - apply round_aux_position; [exact He | fold fe; lia].
  - assert (V : dyadic (Zpos (Pos.iter xO m d)) fe = dyadic (Zpos m) e).
    { rewrite pos_iter_xO. rewrite <- dyadic_shift
        by (unfold S, position_scale in *; lia).
      f_equal. lia. }
    assert (G : Zpos (digits2_pos (Pos.iter xO m d)) + fe
                = Zpos (digits2_pos m) + e).
    { rewrite !digits2_log2, pos_iter_xO, Z.log2_mul_pow2 by lia. lia. }
    rewrite <- V. apply round_aux_position.
    + unfold S, position_scale in *. lia.
    + rewrite G. fold fe. lia.
Qed.

(** Rounding keeps the order of positions. *)
Lemma round_position_mono v1 v2 :
  0 < v1 -> v1 <= v2 -> round_position v1 <= round_position v2.
Proof.
  intros P1 Hle. assert (P2 : 0 < v2) by lia.
  unfold round_position. cbv zeta. rewrite !fexp_cases.
  pose proof (magnitude_mono v1 v2 Hle) as Gm.
  pose proof (magnitude_bounds v1 P1) as [L1 U1].
  pose proof (magnitude_bounds v2 P2) as [L2 U2].
  pose proof (magnitude_ge v1) as G1.
  set (g1 := magnitude v1) in *. set (g2 := magnitude v2) in *.
  set (f1 := Z.max (g1 - 53) (-1074)). set (f2 := Z.max (g2 - 53) (-1074)).
  assert (PU1 : 0 < 2 ^ (f1 + S)) by (apply pow2_pos; unfold S, position_scale; lia).
  assert (PU2 : 0 < 2 ^ (f2 + S)) by (apply pow2_pos; unfold S, position_scale; lia).
  destruct (Z.eq_dec f1 f2) as [E|E].
  - rewrite <- E. apply Z.mul_le_mono_nonneg_l; [lia|].
    apply rhe_mono; assumption.
  - assert (F12 : f1 < f2) by lia.
    assert (N2 : f2 = g2 - 53) by lia.
    (* below: a power of two at or above [v1], a multiple of the unit *)
    set (b := Z.max g1 f1).
    assert (B1 : 2 ^ (f1 + S) * rhe v1 (2 ^ (f1 + S)) <= 2 ^ (b + S)).
    { replace (2 ^ (b + S)) with (2 ^ (f1 + S) * 2 ^ (b - f1)).
      2:{ rewrite <- pow2_split by (unfold S, position_scale in *; lia).
          f_equal. lia. }
      apply Z.mul_le_mono_nonneg_l; [lia|].
      rewrite <- (rhe_exact (2 ^ (b - f1)) (2 ^ (f1 + S)) PU1).
      apply rhe_mono; [exact PU1|].
      rewrite <- pow2_split by (unfold S, position_scale in *; lia).
      apply Z.lt_le_incl. eapply Z.lt_le_trans; [exact U1|].
      apply pow2_le. unfold S, position_scale in *. lia. }
    assert (A2 : 2 ^ (g2 - 1 + S) <= 2 ^ (f2 + S) * rhe v2 (2 ^ (f2 + S))).
    { replace (2 ^ (g2 - 1 + S)) with (2 ^ (f2 + S) * 2 ^ 52).
      2:{ rewrite <- pow2_split by (unfold S, position_scale in *; lia).
          f_equal. lia. }
      apply Z.mul_le_mono_nonneg_l; [lia|].
      rewrite <- (rhe_exact (2 ^ 52) (2 ^ (f2 + S)) PU2) at 1.
      apply rhe_mono; [exact PU2|].
      rewrite <- pow2_split by (unfold S, position_scale in *; lia).
      eapply Z.le_trans; [|exact L2].
      apply pow2_le. unfold S, position_scale in *. lia. }
    assert (BA : 2 ^ (b + S) <= 2 ^ (g2 - 1 + S)).
    { apply pow2_le. unfold S, position_scale in *. lia. }
    lia.
Qed.

Lemma round_position_exact_power k :
  -1074 <= k - 52 -> round_position (2 ^ (k + S)) = 2 ^ (k + S).
Proof.
  intros Hk. unfold round_position. cbv zeta.
  assert (M : magnitude (2 ^ (k + S)) = k + 1).
  { unfold magnitude. rewrite Z.log2_pow2 by (unfold S, position_scale; lia).
    lia. }
  rewrite M, fexp_cases.
  set (f := Z.max (k + 1 - 53) (-1074)).
  replace (2 ^ (k + S)) with (2 ^ (k - f) * 2 ^ (f + S)) at 1.
  2:{ rewrite <- pow2_split by (unfold S, position_scale in *; lia).
      f_equal. lia. }
  rewrite rhe_exact by (apply pow2_pos; unfold S, position_scale in *; lia).
  rewrite <- pow2_split by (unfold S, position_scale in *; lia).
  f_equal. lia.
Qed.

End BinaryRound.
Section FloatArithmetic.

Local Notation S := position_scale.

Local Open Scope Z_scope.

Lemma shl_align_value (m : positive) (e ez : Z) :
  ez <= e -> 0 <= ez + S ->
  dyadic (Zpos (fst (shl_align m e ez))) ez = dyadic (Zpos m) e.
Proof.
  intros Hle Hz. unfold shl_align.
  destruct (ez - e) as [|d|d] eqn:E; cbn [fst].
  - f_equal. lia.
  - lia.
  - rewrite pos_iter_xO, <- dyadic_shift by lia. f_equal. lia.
Qed.

Lemma position_le_infinity (x : float) : position x <= infinity_position.
Proof.
  unfold position. pose proof (Prim2SF_valid x) as V.
  assert (I : 0 < infinity_position).
  { rewrite infinity_position_eq. apply pow2_pos. unfold position_scale. lia. }
  destruct (Prim2SF x) as [s|s| |s m e]; cbn [sf_position];
    fold infinity_position; try lia.
  - destruct s; lia.
  - cbn [SpecFloat.valid_binary] in V.
    pose proof (finite_below_infinity m e V) as [P L].
    fold infinity_position in L. destruct s; lia.
Qed.

(** A number with a positive position is [+inf] or a positive finite
    double. *)
Lemma positive_cases (x : float) :
  not_nan x -> 0 < position x ->
  (Prim2SF x = S754_infinity false /\ position x = infinity_position)
  \/ exists m e,
       Prim2SF x = S754_finite false m e
       /\ bounded prec emax m e = true
       /\ position x = dyadic (Zpos m) e
       /\ position x < infinity_position.
Proof.
  unfold not_nan, position. intros N P.
  pose proof (Prim2SF_valid x) as V.
  assert (I : 0 < infinity_position).
  { rewrite infinity_position_eq. apply pow2_pos. unfold position_scale. lia. }
  destruct (Prim2SF x) as [s|s| |s m e]; cbn [sf_position] in *;
    fold infinity_position in *; try lia; try congruence.
  - destruct s; [lia|]. left. split; reflexivity.
  - cbn [SpecFloat.valid_binary] in V.
    pose proof (finite_below_infinity m e V) as [Q L].
    fold infinity_position in L.
    destruct s; [lia|]. right. exists m, e. auto.
Qed.

Lemma add_finite_position (x c : float) mx ex mc ec :
  Prim2SF x = S754_finite false mx ex -> bounded prec emax mx ex = true ->
  Prim2SF c = S754_finite false mc ec -> bounded prec emax mc ec = true ->
  not_nan (x + c)%float
  /\ position (x + c)%float
     = Z.min (round_position (position x + position c)) infinity_position.
Proof.
  intros Hx Bx Hc Bc. unfold not_nan, position.
  rewrite add_spec, Hx, Hc. unfold SF64add, SFadd. cbv zeta.
  apply bounded_canonical in Bx as (Rx & _). apply bounded_canonical in Bc as (Rc & _).
  set (ez := Z.min ex ec).
  assert (Vx : dyadic (Zpos (fst (shl_align mx ex ez))) ez = dyadic (Zpos mx) ex)
    by (apply shl_align_value; unfold position_scale; lia).
  assert (Vc : dyadic (Zpos (fst (shl_align mc ec ez))) ez = dyadic (Zpos mc) ec)
    by (apply shl_align_value; unfold position_scale; lia).
  cbn [cond_Zopp sf_position Z.add binary_normalize].
  rewrite <- Vx, <- Vc.
  replace (dyadic (Zpos (fst (shl_align mx ex ez))) ez
           + dyadic (Zpos (fst (shl_align mc ec ez))) ez)
    with (dyadic (Zpos (fst (shl_align mx ex ez) + fst (shl_align mc ec ez))) ez)
    by (unfold dyadic; rewrite Pos2Z.inj_add; ring).
  apply binary_round_position. unfold position_scale. lia.
Qed.

Lemma mul_finite_position (x c : float) mx ex mc ec :
  Prim2SF x = S754_finite false mx ex -> bounded prec emax mx ex = true ->
  Prim2SF c = S754_finite false mc ec -> bounded prec emax mc ec = true ->
  not_nan (x * c)%float
  /\ position (x * c)%float
     = Z.min (round_position (dyadic (Zpos (mx * mc)) (ex + ec)))
         infinity_position.
Proof.
  intros Hx Bx Hc Bc. unfold not_nan, position.
  rewrite mul_spec, Hx, Hc. unfold SF64mul, SFmul. cbn [xorb].
  apply bounded_canonical in Bx as (Rx & Dx & Nx).
  apply bounded_canonical in Bc as (Rc & Dc & Nc).
  apply round_aux_position; [unfold position_scale; lia|].
  rewrite fexp_cases.
  assert (D : Zpos (digits2_pos mx) + Zpos (digits2_pos mc) - 1
              <= Zpos (digits2_pos (mx * mc))).
  { rewrite !digits2_log2, Pos2Z.inj_mul.
    pose proof (Z.log2_mul_below (Zpos mx) (Zpos mc) ltac:(lia) ltac:(lia)).
    lia. }
  assert (1 <= Zpos (digits2_pos mx)) by lia.
  assert (1 <= Zpos (digits2_pos mc)) by lia.
  lia.
Qed.

Lemma product_position mx ex mc ec :
  0 <= ex + S -> 0 <= ec + S -> 0 <= ex + ec + S ->
  dyadic (Zpos (mx * mc)) (ex + ec) * 2 ^ S
  = dyadic (Zpos mx) ex * dyadic (Zpos mc) ec.
Proof.
  intros Hx Hc Hxc. unfold dyadic. rewrite Pos2Z.inj_mul.
  replace (Zpos mx * Zpos mc * 2 ^ (ex + ec + S) * 2 ^ S)
    with (Zpos mx * Zpos mc * (2 ^ (ex + ec + S) * 2 ^ S)) by ring.
  rewrite <- pow2_split by (unfold position_scale in *; lia).
  replace (ex + ec + S + S) with ((ex + S) + (ec + S)) by lia.
  rewrite pow2_split by lia. ring.
Qed.

(** Adding a positive finite constant keeps the order. *)
Lemma add_mono (x y c : float) :
  not_nan x -> not_nan y -> not_nan c ->
  0 < position x -> position x <= position y ->
  0 < position c < infinity_position ->
  not_nan (x + c)%float /\ not_nan (y + c)%float
  /\ position (x + c)%float <= position (y + c)%float
  /\ 0 < position (x + c)%float.
Proof.
  intros Nx Ny Nc Px Hxy [Pc Fc].
  destruct (positive_cases c Nc Pc) as [[_ E]|(mc & ec & Hc & Bc & Vc & _)];
    [lia|].
  assert (Inf : forall z, Prim2SF z = S754_infinity false ->
                          Prim2SF (z + c)%float = S754_infinity false).
  { intros z Hz. rewrite add_spec, Hz, Hc. reflexivity. }
  assert (Fin : forall z mz ez,
             Prim2SF z = S754_finite false mz ez ->
             bounded prec emax mz ez = true ->
             position z = dyadic (Zpos mz) ez ->
             not_nan (z + c)%float
             /\ position (z + c)%float
                = Z.min (round_position (position z + position c))
                    infinity_position
             /\ 0 < position (z + c)%float).
  { intros z mz ez Hz Bz Vz.
    destruct (add_finite_position z c mz ez mc ec Hz Bz Hc Bc) as [N E].
    split; [exact N|]. split; [exact E|]. rewrite E.
    assert (Pz : 0 < position z).
    { rewrite Vz. apply dyadic_pos. apply bounded_canonical in Bz.
      unfold position_scale. lia. }
    assert (0 < round_position (position z)).
    { destruct (positive_cases z) as [[Hi _]|(m' & e' & H' & B' & V' & L')];
        [intros Hn; rewrite Hz in Hn; discriminate | exact Pz
        | congruence |].
      pose proof (magnitude_bounds (position z) Pz) as [L _].
      assert (M : -1074 <= magnitude (position z) - 1).
      { rewrite V'. rewrite magnitude_dyadic
          by (apply bounded_canonical in B'; unfold position_scale; lia).
        apply bounded_canonical in B'. lia. }
      unfold round_position. cbv zeta. rewrite fexp_cases.
      set (g := magnitude (position z)) in *.
      set (f := Z.max (g - 53) (-1074)).
      assert (PU : 0 < 2 ^ (f + S)) by (apply pow2_pos; unfold position_scale; lia).
      assert (1 <= Py.round_half_even (position z) (2 ^ (f + S))).
      { rewrite <- (rhe_exact 1 (2 ^ (f + S)) PU) at 1.
        apply rhe_mono; [exact PU|]. rewrite Z.mul_1_l.
        eapply Z.le_trans; [|exact L]. apply pow2_le.
        unfold position_scale in *. lia. }
      nia. }
    assert (round_position (position z)
            <= round_position (position z + position c))
      by (apply round_position_mono; lia).
    assert (0 < infinity_position) by lia. lia. }
  destruct (positive_cases x Nx Px) as [[Hx Ex]|(mx & ex & Hx & Bx & Vx & Lx)].
  - (* x = +inf, so y = +inf *)
    pose proof (position_le_infinity y) as Ly.
    destruct (positive_cases y Ny ltac:(lia))
      as [[Hy Ey]|(my & ey & Hy & By & Vy & Lyy)]; [|lia].
    pose proof (Inf x Hx) as Ix. pose proof (Inf y Hy) as Iy.
    unfold not_nan, position. rewrite Ix, Iy. cbn [sf_position].
    fold infinity_position. repeat split; try discriminate; lia.
  - destruct (Fin x mx ex Hx Bx Vx) as (N1 & E1 & P1).
    destruct (positive_cases y Ny ltac:(lia))
      as [[Hy Ey]|(my & ey & Hy & By & Vy & Ly)].
    + pose proof (Inf y Hy) as Iy.
      split; [exact N1|]. split; [unfold not_nan; rewrite Iy; discriminate|].
      split; [|exact P1].
      pose proof (position_le_infinity (x + c)%float).
      unfold position at 2. rewrite Iy. exact H.
    + destruct (Fin y my ey Hy By Vy) as (N2 & E2 & P2).
      split; [exact N1|]. split; [exact N2|]. split; [|exact P1].
      rewrite E1, E2.
      assert (round_position (position x + position c)
              <= round_position (position y + position c))
        by (apply round_position_mono; lia).
      lia.
Qed.

(** Multiplying by a positive finite constant keeps the order. *)
Lemma mul_mono (x y c : float) :
  not_nan x -> not_nan y -> not_nan c ->
  0 < position x -> position x <= position y ->
  0 < position c < infinity_position ->
  not_nan (x * c)%float /\ not_nan (y * c)%float
  /\ position (x * c)%float <= position (y * c)%float.
Proof.
  intros Nx Ny Nc Px Hxy [Pc Fc].
  destruct (positive_cases c Nc Pc) as [[_ E]|(mc & ec & Hc & Bc & Vc & _)];
    [lia|].
  assert (Inf : forall z, Prim2SF z = S754_infinity false ->
                          Prim2SF (z * c)%float = S754_infinity false).
  { intros z Hz. rewrite mul_spec, Hz, Hc. reflexivity. }
  pose proof (bounded_canonical mc ec Bc) as (Rc & _).
  destruct (positive_cases x Nx Px) as [[Hx Ex]|(mx & ex & Hx & Bx & Vx & Lx)].
  - pose proof (position_le_infinity y) as Ly.
    destruct (positive_cases y Ny ltac:(lia))
      as [[Hy Ey]|(my & ey & Hy & By & Vy & Lyy)]; [|lia].
    pose proof (Inf x Hx) as Ix. pose proof (Inf y Hy) as Iy.
    unfold not_nan, position. rewrite Ix, Iy.
    repeat split; try discriminate; lia.
  - destruct (mul_finite_position x c mx ex mc ec Hx Bx Hc Bc) as (N1 & E1).
    pose proof (bounded_canonical mx ex Bx) as (Rx & _).
    destruct (positive_cases y Ny ltac:(lia))
      as [[Hy Ey]|(my & ey & Hy & By & Vy & Ly)].
    + pose proof (Inf y Hy) as Iy.
      split; [exact N1|]. split; [unfold not_nan; rewrite Iy; discriminate|].
      pose proof (position_le_infinity (x * c)%float).
      unfold position at 2. rewrite Iy. exact H.
    + destruct (mul_finite_position y c my ey mc ec Hy By Hc Bc) as (N2 & E2).
      pose proof (bounded_canonical my ey By) as (Ry & _).
      split; [exact N1|]. split; [exact N2|].
      rewrite E1, E2.
      assert (Q : dyadic (Zpos (mx * mc)) (ex + ec)
                  <= dyadic (Zpos (my * mc)) (ey + ec)).
      { pose proof (product_position mx ex mc ec) as Q1.
        pose proof (product_position my ey mc ec) as Q2.
        rewrite <- Vx, <- Vc in Q1. rewrite <- Vy, <- Vc in Q2.
        assert (PS : 0 < 2 ^ S) by (apply pow2_pos; unfold position_scale; lia).
        specialize (Q1 ltac:(unfold position_scale; lia)
                       ltac:(unfold position_scale; lia)
                       ltac:(unfold position_scale; lia)).
        specialize (Q2 ltac:(unfold position_scale; lia)
                       ltac:(unfold position_scale; lia)
                       ltac:(unfold position_scale; lia)).
        assert (position x * position c <= position y * position c)
          by (apply Z.mul_le_mono_nonneg_r; lia).
        nia. }
      assert (0 < dyadic (Zpos (mx * mc)) (ex + ec))
        by (apply dyadic_pos; unfold position_scale; lia).
      assert (round_position (dyadic (Zpos (mx * mc)) (ex + ec))
              <= round_position (dyadic (Zpos (my * mc)) (ey + ec)))
        by (apply round_position_mono; lia).
      lia.
Qed.

End FloatArithmetic.
(* ================================================================== *)
(** ** The parameters the keyboard can reach *)
(* ================================================================== *)

Section FloatComparisons.

Local Open Scope float_scope.

Lemma leb_trans (x y z : float) :
  (x <=? y) = true -> (y <=? z) = true -> (x <=? z) = true.
Proof.
  intros H1 H2. apply leb_true in H1 as (Nx & Ny & H1).
  apply leb_true in H2 as (_ & Nz & H2). apply leb_true. repeat split; auto.
  lia.
Qed.

Lemma ltb_leb_trans (x y z : float) :
  (x <? y) = true -> (y <=? z) = true -> (x <? z) = true.
Proof.
  intros H1 H2. apply ltb_true in H1 as (Nx & Ny & H1).
  apply leb_true in H2 as (_ & Nz & H2). apply ltb_true. repeat split; auto.
  lia.
Qed.

Lemma leb_ltb_trans (x y z : float) :
  (x <=? y) = true -> (y <? z) = true -> (x <? z) = true.
Proof.
  intros H1 H2. apply leb_true in H1 as (Nx & Ny & H1).
  apply ltb_true in H2 as (_ & Nz & H2). apply ltb_true. repeat split; auto.
  lia.
Qed.

Lemma ltb_not_leb (x y : float) : (x <? y) = true -> (y <=? x) = false.
Proof.
  intros H. apply ltb_true in H as (Nx & Ny & H).
  apply leb_false; auto.
Qed.

Lemma max_le (a b c : float) :
  (a <=? c) = true -> (b <=? c) = true -> (Py.max a b <=? c) = true.
Proof. intros Ha Hb. unfold Py.max. destruct (a <? b); assumption. Qed.

Lemma min_le_l (a b : float) : not_nan a -> (Py.min a b <=? a) = true.
Proof.
  intros Na. unfold Py.min. destruct (b <? a) eqn:E.
  - apply ltb_true in E as (Nb & _ & E). apply leb_true. repeat split; auto.
    lia.
  - apply leb_true. repeat split; auto. lia.
Qed.

Lemma max_ge_l (a b : float) : not_nan a -> (a <=? Py.max a b) = true.
Proof.
  intros Na. apply leb_true. split; [exact Na|].
  split; [apply max_number, Na|].
  rewrite max_position by exact Na. destruct (b =? b); lia.
Qed.

Lemma leb_number_l (x y : float) : (x <=? y) = true -> not_nan x.
Proof. intros H. apply leb_true in H. tauto. Qed.

Lemma leb_number_r (x y : float) : (x <=? y) = true -> not_nan y.
Proof. intros H. apply leb_true in H. tauto. Qed.

(** [min(1.0, x)] is at least any bound that both 1.0 and a number [x]
    reach. *)
Lemma min_ge (a b c : float) :
  (c <=? a) = true -> ((c <=? b) = true \/ ~ not_nan b) ->
  (c <=? Py.min a b) = true.
Proof.
  intros Ha Hb. unfold Py.min. destruct (b <? a) eqn:E; [|exact Ha].
  destruct Hb as [Hb|Hb]; [exact Hb|].
  apply ltb_true in E. tauto.
Qed.

Lemma positive_finite (c : float) :
  (0 <? c) = true -> (c <? infinity) = true ->
  not_nan c /\ (0 < position c < infinity_position)%Z.
Proof.
  intros H0 Hi. apply ltb_true in H0 as (_ & Nc & H0).
  apply ltb_true in Hi as (_ & _ & Hi). split; [exact Nc|].
  change (position 0) with 0%Z in H0.
  change (position infinity) with infinity_position in Hi. lia.
Qed.

(** The two monotonicity facts, between comparisons. *)
Lemma leb_add_mono (x y c : float) :
  (0 <? x) = true -> (x <=? y) = true ->
  (0 <? c) = true -> (c <? infinity) = true ->
  (x + c <=? y + c) = true /\ (0 <? x + c) = true.
Proof.
  intros Px Hxy Pc Fc.
  destruct (positive_finite c Pc Fc) as (Nc & Rc).
  apply ltb_true in Px as (N0 & Nx & Px). change (position 0) with 0%Z in Px.
  apply leb_true in Hxy as (_ & Ny & Hxy).
  destruct (add_mono x y c Nx Ny Nc Px Hxy Rc) as (A & B & C & D).
  split; [apply leb_true | apply ltb_true]; repeat split; auto.
Qed.

Lemma leb_mul_mono (x y c : float) :
  (0 <? x) = true -> (x <=? y) = true ->
  (0 <? c) = true -> (c <? infinity) = true ->
  (x * c <=? y * c) = true.
Proof.
  intros Px Hxy Pc Fc.
  destruct (positive_finite c Pc Fc) as (Nc & Rc).
  apply ltb_true in Px as (N0 & Nx & Px). change (position 0) with 0%Z in Px.
  apply leb_true in Hxy as (_ & Ny & Hxy).
  destruct (mul_mono x y c Nx Ny Nc Px Hxy Rc) as (A & B & C).
  apply leb_true. repeat split; auto.
Qed.

Lemma last_default {A} (l : list A) (a b : A) :
  l <> [] -> last l a = last l b.
Proof.
  induction l as [|x l IH]; [congruence|]. intros _.
  destruct l as [|y l]; [reflexivity|]. cbn [last] in *. apply IH. discriminate.
Qed.

(** A chain of steps covers every number between its ends. *)
Lemma chain_covers (P : float -> float -> bool) (x : float) :
  (forall u v, P u v = true -> not_nan u) ->
  forall (l : list float) (a : float),
    chain_ok P (a :: l) = true ->
    (a <=? x) = true -> (x <=? last l a) = true ->
    l <> [] ->
    exists u v, P u v = true /\ (u <=? x) = true /\ (x <=? v) = true.
Proof.
  intros HP. induction l as [|b l IH]; intros a Hc Ha Hl Hne; [congruence|].
  cbn [chain_ok] in Hc. apply andb_true_iff in Hc as [Hab Hc].
  destruct (x <=? b) eqn:E.
  - exists a, b. auto.
  - destruct l as [|c l].
    + cbn in Hl. congruence.
    + apply (IH b Hc).
      * assert (Nb : not_nan b).
        { cbn [chain_ok] in Hc. apply andb_true_iff in Hc as [Hbc _].
          exact (HP b c Hbc). }
        apply leb_true in Ha as (_ & Nx & _).
        apply leb_false in E; auto. apply leb_true. repeat split; auto. lia.
      * rewrite (last_default (c :: l) b a) by discriminate. exact Hl.
      * discriminate.
Qed.

End FloatComparisons.
(* ================================================================== *)
(** ** The adapter: what it returns and what it touches *)
(* ================================================================== *)

Section Adapter.

Variable PropsSI :
  string -> string -> float -> string -> float -> string -> service_result.

Local Open Scope float_scope.

Local Notation call := (safe_coolprop_call PropsSI).
Local Notation reply := (adapter_reply PropsSI).
Local Notation answer := (service_answer PropsSI).

Lemma inputs_ok_raises v1 v2 e :
  inputs_ok v1 v2 = Raised e ->
  e = OverflowError "int too large to convert to float".
Proof.
  assert (P : forall v x,
             (if negb (Py.is_number v) then Normal false
              else Py.math_isfinite v) = Raised x ->
             x = OverflowError "int too large to convert to float").
  { intros v x. destruct v; cbn; try discriminate.
    unfold Py.float_of_int. destruct (is_infinity _); congruence. }
  unfold inputs_ok. intros H.
  destruct (if negb (Py.is_number v1) then Normal false
            else Py.math_isfinite v1) as [[|]|x] eqn:E1.
  - apply (P v2). exact H.
  - discriminate.
  - injection H as <-. apply (P v1). exact E1.
Qed.

Lemma safe_coolprop_call_unfold out n1 v1 n2 v2 fluid s :
  call out n1 v1 n2 v2 fluid s =
  match inputs_ok v1 v2 with
  | Raised e => (Raised e, s)
  | Normal false => handled "Invalid non-finite input" out n1 v1 n2 v2 s
  | Normal true =>
      let r := request out n1 v1 n2 v2 fluid in
      let s1 := set_cp_calls (cp_calls s ++ [r]) s in
      match answer r with
      | Returns v =>
          if is_finite v then (Normal (Some v), s1)
          else handled ("CoolProp returned non-finite value (" ++ out ++ "="
                        ++ Py.str_nonfinite v ++ ")")%string
                 out n1 v1 n2 v2 s1
      | Raises (ValueError m) => handled m out n1 v1 n2 v2 s1
      | Raises e => (Raised e, s1)
      end
  end.
Proof.
  unfold safe_coolprop_call, try_except_ValueError, bind, lift, handled,
    call_PropsSI, service_answer, request, errors_append_once, modify, raise, ret.
  destruct (inputs_ok v1 v2) as [[|]|e] eqn:Eok; cbn.
  - destruct (PropsSI out n1 (Py.as_double v1) n2 (Py.as_double v2) fluid)
      as [v|e]; cbn.
    + destruct (is_finite v); cbn; [reflexivity|].
      destruct (error_str _ out n1 v1 n2 v2); reflexivity.
    + destruct e; reflexivity.
  - destruct (error_str _ out n1 v1 n2 v2); reflexivity.
  - rewrite (inputs_ok_raises _ _ _ Eok). reflexivity.
Qed.

(** Everything but the log and the request history is left as it was. *)
Lemma handled_frame (A : Type) (f : Sim -> A) e out n1 v1 n2 v2 s :
  (forall v t, f (set_errors v t) = f t) ->
  f (snd (handled e out n1 v1 n2 v2 s)) = f s.
Proof.
  intros He. unfold handled.
  destruct (error_str _ out n1 v1 n2 v2); cbn; [|reflexivity].
  destruct (Py.mem _ _); [reflexivity | apply He].
Qed.

Lemma safe_coolprop_call_frame (A : Type) (f : Sim -> A) out n1 v1 n2 v2 fluid s :
  (forall v t, f (set_errors v t) = f t) ->
  (forall v t, f (set_cp_calls v t) = f t) ->
  f (exec (call out n1 v1 n2 v2 fluid) s) = f s.
Proof.
  intros He Hc. unfold exec. rewrite safe_coolprop_call_unfold.
  destruct (inputs_ok v1 v2) as [[|]|e]; cbn.
  - destruct (answer _) as [v|e].
    + destruct (is_finite v); cbn; [apply Hc|].
      rewrite handled_frame by exact He. apply Hc.
    + destruct e; cbn; try apply Hc.
      rewrite handled_frame by exact He. apply Hc.
  - apply handled_frame, He.
  - reflexivity.
Qed.

Lemma error_str_outcome e e' out n1 v1 n2 v2 :
  is_normal (error_str e out n1 v1 n2 v2)
  = is_normal (error_str e' out n1 v1 n2 v2)
  /\ forall x, error_str e out n1 v1 n2 v2 = Raised x ->
               error_str e' out n1 v1 n2 v2 = Raised x.
Proof.
  unfold error_str.
  destruct (Py.format_spec_1f (Py.or_zero v1)); cbn;
    destruct (Py.format_spec_1f (Py.or_zero v2)); cbn; split;
    try reflexivity; try discriminate; auto.
Qed.

Lemma handled_result e out n1 v1 n2 v2 s :
  fst (handled e out n1 v1 n2 v2 s) =
  match error_str EmptyString out n1 v1 n2 v2 with
  | Raised x => Raised x
  | Normal _ => Normal None
  end.
Proof.
  unfold handled.
  destruct (error_str_outcome (Py.first_line e) EmptyString out n1 v1 n2 v2)
    as [Hn Hr].
  destruct (error_str (Py.first_line e) out n1 v1 n2 v2) as [m|x]; cbn.
  - destruct (error_str EmptyString out n1 v1 n2 v2); [reflexivity|].
    discriminate.
  - rewrite (Hr x eq_refl). reflexivity.
Qed.

Lemma safe_coolprop_call_result out n1 v1 n2 v2 fluid s :
  result (call out n1 v1 n2 v2 fluid) s = reply out n1 v1 n2 v2 fluid.
Proof.
  unfold result, adapter_reply. rewrite safe_coolprop_call_unfold.
  destruct (inputs_ok v1 v2) as [[|]|e]; cbn.
  - destruct (answer _) as [v|e].
    + destruct (is_finite v); cbn; [reflexivity | apply handled_result].
    + destruct e; cbn; try reflexivity. apply handled_result.
  - apply handled_result.
  - reflexivity.
Qed.

(** A call followed by the rest of a method. *)
Lemma bind_call (B : Type) out n1 v1 n2 v2 fluid (k : option float -> M B) s :
  bind (call out n1 v1 n2 v2 fluid) k s =
  match reply out n1 v1 n2 v2 fluid with
  | Normal r => k r (exec (call out n1 v1 n2 v2 fluid) s)
  | Raised e => (Raised e, exec (call out n1 v1 n2 v2 fluid) s)
  end.
Proof.
  rewrite <- (safe_coolprop_call_result out n1 v1 n2 v2 fluid s).
  unfold bind, result, exec.
  destruct (call out n1 v1 n2 v2 fluid s) as [[r|e] s']; reflexivity.
Qed.


(** A value comes back only finite, from the service, and silently. *)
Lemma reply_value out n1 v1 n2 v2 fluid v :
  reply out n1 v1 n2 v2 fluid = Normal (Some v) ->
  inputs_ok v1 v2 = Normal true
  /\ answer (request out n1 v1 n2 v2 fluid) = Returns v
  /\ is_finite v = true.
Proof.
  unfold adapter_reply.
  assert (F : forall o : outcome string,
             match o with Raised x => Raised x | Normal _ => Normal None end
             <> Normal (Some v)).
  { intros [m|x]; discriminate. }
  destruct (inputs_ok v1 v2) as [[|]|e]; try discriminate.
  - destruct (answer _) as [w|e].
    + destruct (is_finite w) eqn:Ew.
      * intros H. injection H as ->. auto.
      * intros H. apply F in H. contradiction.
    + destruct e; try discriminate. intros H. apply F in H. contradiction.
  - intros H. apply F in H. contradiction.
Qed.

Lemma safe_coolprop_call_silent out n1 v1 n2 v2 fluid v s :
  reply out n1 v1 n2 v2 fluid = Normal (Some v) ->
  errors (exec (call out n1 v1 n2 v2 fluid) s) = errors s.
Proof.
  intros H. destruct (reply_value _ _ _ _ _ _ _ H) as (Hok & Hans & Hfin).
  unfold exec. rewrite safe_coolprop_call_unfold, Hok. cbn.
  rewrite Hans, Hfin. reflexivity.
Qed.

Lemma error_str_prefix e out n1 v1 n2 v2 m :
  error_str e out n1 v1 n2 v2 = Normal m -> adapter_message m.
Proof.
  unfold error_str, adapter_message.
  destruct (Py.format_spec_1f (Py.or_zero v1)); [|discriminate].
  destruct (Py.format_spec_1f (Py.or_zero v2)); [|discriminate].
  intros H. injection H as <-. cbn.
  destruct (e ++ _)%string; reflexivity.
Qed.

Lemma handled_log e out n1 v1 n2 v2 s :
  log_step (errors s) (errors (snd (handled e out n1 v1 n2 v2 s))).
Proof.
  unfold handled.
  destruct (error_str _ out n1 v1 n2 v2) as [m|x] eqn:E; cbn.
  - destruct (Py.mem m (errors s)) eqn:Em.
    + apply log_same. reflexivity.
    + apply log_more with m.
      * destruct s; reflexivity.
      * exact (error_str_prefix _ _ _ _ _ _ _ E).
      * intros Hin. apply mem_In in Hin. congruence.
  - apply log_same. reflexivity.
Qed.

Lemma safe_coolprop_call_log out n1 v1 n2 v2 fluid s :
  log_step (errors s) (errors (exec (call out n1 v1 n2 v2 fluid) s)).
Proof.
  unfold exec. rewrite safe_coolprop_call_unfold.
  destruct (inputs_ok v1 v2) as [[|]|e]; cbn.
  - set (s1 := set_cp_calls _ s).
    assert (E1 : errors s1 = errors s) by (destruct s; reflexivity).
    rewrite <- E1.
    destruct (answer _) as [v|e].
    + destruct (is_finite v); [apply log_same; reflexivity | apply handled_log].
    + destruct e; try (apply log_same; reflexivity). apply handled_log.
  - apply handled_log.
  - apply log_same. reflexivity.
Qed.

Lemma safe_coolprop_call_keeps out n1 v1 n2 v2 fluid s m :
  In m (errors s) -> In m (errors (exec (call out n1 v1 n2 v2 fluid) s)).
Proof.
  intros H. destruct (safe_coolprop_call_log out n1 v1 n2 v2 fluid s)
    as [E | m' E _ _]; rewrite E; [exact H | apply in_or_app; left; exact H].
Qed.

(** The request history after a call. *)
Lemma safe_coolprop_call_calls out n1 v1 n2 v2 fluid s :
  cp_calls (exec (call out n1 v1 n2 v2 fluid) s) =
  cp_calls s ++ match inputs_ok v1 v2 with
                | Normal true => [request out n1 v1 n2 v2 fluid]
                | _ => []
                end.
Proof.
  unfold exec. rewrite safe_coolprop_call_unfold.
  assert (H : forall e t,
             cp_calls (snd (handled e out n1 v1 n2 v2 t)) = cp_calls t).
  { intros e t. apply handled_frame. intros v u. destruct u; reflexivity. }
  destruct (inputs_ok v1 v2) as [[|]|e]; cbn.
  - set (s1 := set_cp_calls _ s).
    assert (E1 : cp_calls s1 = cp_calls s ++ [request out n1 v1 n2 v2 fluid])
      by (destruct s; reflexivity).
    destruct (answer _) as [v|e].
    + destruct (is_finite v); [exact E1 | rewrite H; exact E1].
    + destruct e; try exact E1. rewrite H; exact E1.
  - rewrite H, app_nil_r. reflexivity.
  - rewrite app_nil_r. reflexivity.
Qed.

Lemma call_step out n1 v1 n2 v2 fluid s :
  exists s',
    call out n1 v1 n2 v2 fluid s = (reply out n1 v1 n2 v2 fluid, s')
    /\ frame s s'.
Proof.
  exists (exec (call out n1 v1 n2 v2 fluid) s). split.
  - rewrite <- (safe_coolprop_call_result out n1 v1 n2 v2 fluid s).
    unfold result, exec. destruct (call out n1 v1 n2 v2 fluid s); reflexivity.
  - constructor;
      try (apply safe_coolprop_call_frame; intros v t; destruct t; reflexivity).
    intros m. apply safe_coolprop_call_keeps.
Qed.

Lemma formattable_format v :
  formattable v = true -> exists f, Py.format_spec_1f (Py.or_zero v) = Normal f.
Proof.
  intros H. destruct v as [|z|f|[|c s]]; try discriminate H.
  - eexists. reflexivity.
  - unfold formattable in H. apply negb_true_iff in H.
    unfold Py.or_zero, Py.truthy. destruct (z =? 0)%Z; cbn [negb].
    + eexists. reflexivity.
    + unfold Py.format_spec_1f, Py.float_of_int. rewrite H.
      eexists. reflexivity.
  - unfold Py.or_zero, Py.truthy. destruct (f =? 0); cbn [negb];
      eexists; reflexivity.
  - eexists. reflexivity.
Qed.

Lemma formattable_inputs_ok v1 v2 :
  formattable v1 = true -> formattable v2 = true ->
  exists b, inputs_ok v1 v2 = Normal b.
Proof.
  assert (P : forall v, formattable v = true ->
                        exists b, (if negb (Py.is_number v) then Normal false
                                   else Py.math_isfinite v) = Normal b).
  { intros [|z|f|s] H; try (eexists; reflexivity).
    unfold formattable in H. apply negb_true_iff in H.
    unfold Py.is_number, Py.math_isfinite, Py.float_of_int. cbn [negb].
    rewrite H. eexists; reflexivity. }
  intros H1 H2. unfold inputs_ok.
  destruct (P v1 H1) as [b1 E1]. rewrite E1.
  destruct b1; [apply (P v2 H2) | eexists; reflexivity].
Qed.

Lemma handled_returns e out n1 v1 n2 v2 s :
  formattable v1 = true -> formattable v2 = true ->
  exists f1 f2,
    Py.format_spec_1f (Py.or_zero v1) = Normal f1
    /\ Py.format_spec_1f (Py.or_zero v2) = Normal f2
    /\ let m := ("CP Error: " ++ Py.first_line e ++ " calc " ++ out ++ "("
                 ++ n1 ++ "=" ++ f1 ++ "," ++ n2 ++ "=" ++ f2 ++ ")")%string in
       fst (handled e out n1 v1 n2 v2 s) = Normal None
       /\ In m (errors (snd (handled e out n1 v1 n2 v2 s)))
       /\ errors (snd (handled e out n1 v1 n2 v2 s))
          = (if Py.mem m (errors s) then errors s else errors s ++ [m]).
Proof.
  intros H1 H2.
  destruct (formattable_format _ H1) as [f1 E1].
  destruct (formattable_format _ H2) as [f2 E2].
  exists f1, f2. split; [exact E1|]. split; [exact E2|].
  unfold handled, error_str. rewrite E1, E2. cbn.
  split; [reflexivity|].
  destruct (Py.mem _ (errors s)) eqn:Em.
  - split; [|reflexivity]. apply mem_In. exact Em.
  - destruct s; cbn. split; [|reflexivity].
    apply in_or_app. right. left. reflexivity.
Qed.


End Adapter.
(* ================================================================== *)
(** ** More about the adapter *)
(* ================================================================== *)

Section AdapterMore.

Variable PropsSI :
  string -> string -> float -> string -> float -> string -> service_result.

Local Open Scope float_scope.

Local Notation call := (safe_coolprop_call PropsSI).
Local Notation reply := (adapter_reply PropsSI).
Local Notation answer := (service_answer PropsSI).

Lemma inputs_ok_finite_number v1 v2 :
  inputs_ok v1 v2 = Normal true
  <-> finite_number v1 && finite_number v2 = true.
Proof.
  assert (P : forall v,
             (if negb (Py.is_number v) then Normal false
              else Py.math_isfinite v) = Normal true
             <-> finite_number v = true).
  { intros [|z|f|t]; cbn; try (split; discriminate).
    - unfold Py.float_of_int.
      destruct (is_infinity (Py.float_of_Z z)) eqn:E.
      + unfold is_finite. rewrite E, orb_true_r. cbn. split; discriminate.
      + split; intros H; [injection H as H|f_equal]; exact H.
    - split; intros H; [injection H as H|f_equal]; exact H. }
  unfold inputs_ok. rewrite andb_true_iff, <- !P.
  destruct (if negb (Py.is_number v1) then Normal false
            else Py.math_isfinite v1) as [[|]|e]; split;
    try tauto; try discriminate; try (intros [H _]; discriminate H).
Qed.

(** X1: [safe_coolprop_call] sends a request to the property service exactly
    when both input values are finite numbers, and then exactly one; a
    value it returns is finite, is the service's answer to that request,
    and leaves the log as it was. *)
Theorem adapter_request_discipline out n1 v1 n2 v2 fluid s :
  let s' := exec (call out n1 v1 n2 v2 fluid) s in
  cp_calls s'
  = cp_calls s ++ (if finite_number v1 && finite_number v2
                   then [request out n1 v1 n2 v2 fluid] else [])
  /\ forall v,
       result (call out n1 v1 n2 v2 fluid) s = Normal (Some v) ->
       finite_number v1 && finite_number v2 = true
       /\ answer (request out n1 v1 n2 v2 fluid) = Returns v
       /\ is_finite v = true
       /\ errors s' = errors s.
Proof.
  intros s'. subst s'. split.
  - rewrite safe_coolprop_call_calls.
    pose proof (inputs_ok_finite_number v1 v2) as I.
    destruct (finite_number v1 && finite_number v2).
    + rewrite (proj2 I eq_refl). reflexivity.
    + destruct (inputs_ok v1 v2) as [[|]|e]; try reflexivity.
      discriminate (proj1 I eq_refl).
  - intros v H. rewrite safe_coolprop_call_result in H.
    pose proof (safe_coolprop_call_silent PropsSI _ _ _ _ _ _ _ s H) as Hs.
    apply reply_value in H as (Hok & Ha & Hf).
    apply inputs_ok_finite_number in Hok. auto.
Qed.

Lemma log_step_extension before after :
  log_step before after -> adapter_extension before after.
Proof.
  intros [E | m E Hm _].
  - exists []. rewrite app_nil_r. split; [exact E | constructor].
  - exists [m]. split; [exact E | constructor; [exact Hm | constructor]].
Qed.

Lemma adapter_extension_refl l : adapter_extension l l.
Proof. exists []. rewrite app_nil_r. split; [reflexivity | constructor]. Qed.

Lemma adapter_extension_trans a b c :
  adapter_extension a b -> adapter_extension b c -> adapter_extension a c.
Proof.
  intros (x & -> & Hx) (y & -> & Hy). exists (x ++ y).
  rewrite app_assoc. split; [reflexivity | apply Forall_app; auto].
Qed.

(** X2: The adapter never writes a message twice: a log without duplicates
    has none after a call, and grows by at most one entry. *)
Theorem adapter_keeps_log_duplicate_free out n1 v1 n2 v2 fluid s :
  let s' := exec (call out n1 v1 n2 v2 fluid) s in
  (NoDup (errors s) -> NoDup (errors s'))
  /\ (List.length (errors s') <= S (List.length (errors s)))%nat
  /\ (forall m, In m (errors s) -> In m (errors s')).
Proof.
  intros s'. subst s'.
  destruct (safe_coolprop_call_log PropsSI out n1 v1 n2 v2 fluid s)
    as [E | m E Hm Hn]; rewrite E.
  - repeat split; auto.
  - repeat split.
    + intros H. apply NoDup_app; [exact H | repeat constructor; intros [] |].
      intros x Hx [<-|[]]. contradiction.
    + rewrite List.length_app. cbn. rewrite Nat.add_1_r. apply le_n.
    + intros x Hx. apply in_or_app. left. exact Hx.
Qed.

(** What a returned value tells about a float input. *)
Lemma reply_finite out n1 a n2 v2 fluid v :
  reply out n1 (PyFloat a) n2 v2 fluid = Normal (Some v) ->
  is_finite a = true /\ finite_number v2 = true /\ is_finite v = true.
Proof.
  intros H. apply reply_value in H as (Hok & _ & Hf).
  apply inputs_ok_finite_number, andb_true_iff in Hok as [H1 H2]. auto.
Qed.

End AdapterMore.
(* ================================================================== *)
(** ** What a method leaves untouched *)
(* ================================================================== *)

Section Effects.

Variable PropsSI :
  string -> string -> float -> string -> float -> string -> service_result.

Context {B : Type} (f : Sim -> B).

Lemma preserves_ret A (a : A) : preserves f (ret a).
Proof. intros s. reflexivity. Qed.

Lemma preserves_get : preserves f get.
Proof. intros s. reflexivity. Qed.

Lemma preserves_lift A (o : outcome A) : preserves f (lift o).
Proof. intros s. reflexivity. Qed.

Lemma preserves_raise A (e : exn) : preserves f (@raise A e).
Proof. intros s. reflexivity. Qed.

Lemma preserves_bind A C (m : M A) (k : A -> M C) :
  preserves f m -> (forall a, preserves f (k a)) -> preserves f (bind m k).
Proof.
  intros Hm Hk s. unfold bind. specialize (Hm s).
  destruct (m s) as [[a|e] s1]; cbn [snd] in *.
  - rewrite Hk. exact Hm.
  - exact Hm.
Qed.

Lemma preserves_modify (g : Sim -> Sim) :
  (forall s, f (g s) = f s) -> preserves f (modify g).
Proof. intros H s. apply H. Qed.

Lemma preserves_errors_append m :
  ignores_log f -> preserves f (errors_append m).
Proof. intros [He _] s. apply He. Qed.

Lemma preserves_errors_append_once m :
  ignores_log f -> preserves f (errors_append_once m).
Proof.
  intros [He _] s. unfold errors_append_once, modify. cbn [snd].
  destruct (Py.mem m (errors s)); [reflexivity | apply He].
Qed.

Lemma preserves_call out n1 v1 n2 v2 fluid :
  ignores_log f -> preserves f (safe_coolprop_call PropsSI out n1 v1 n2 v2 fluid).
Proof.
  intros [He Hc] s.
  apply (safe_coolprop_call_frame PropsSI B f out n1 v1 n2 v2 fluid s He Hc).
Qed.

Lemma preserves_for_each A (l : list A) (body : A -> M unit) :
  (forall a, preserves f (body a)) -> preserves f (for_each l body).
Proof.
  intros H. induction l as [|a l IH]; cbn [for_each].
  - apply preserves_ret.
  - apply preserves_bind; [apply H | intros _; exact IH].
Qed.

Lemma preserves_try_except_Exception A (body : M A) (handler : exn -> M A) :
  preserves f body -> (forall e, preserves f (handler e)) ->
  preserves f (try_except_Exception body handler).
Proof.
  intros Hb Hh s. unfold try_except_Exception. specialize (Hb s).
  destruct (body s) as [[a|e] s1]; cbn [snd] in *.
  - exact Hb.
  - rewrite Hh. exact Hb.
Qed.

End Effects.

(** Walks through a method body. *)
Ltac preserve_step :=
  first
    [ apply preserves_ret
    | apply preserves_get
    | apply preserves_lift
    | apply preserves_raise
    | apply preserves_call; assumption
    | apply preserves_errors_append; assumption
    | apply preserves_errors_append_once; assumption
    | apply preserves_modify; intros ?; solve [auto]
    | apply preserves_bind; [|intros ?]
    | apply preserves_for_each; intros ?
    | apply preserves_try_except_Exception; [|intros ?]
    | match goal with
      | |- preserves _ (if ?c then _ else _) => destruct c
      | |- preserves _ (match ?x with _ => _ end) => destruct x
      end
    | progress cbv zeta ].

Ltac preserve := repeat preserve_step.

(** Settles that a projection does not read what a method writes. *)
Ltac ignores :=
  unfold ignores_results, ignores_dome, ignores_log; repeat split; intros;
  reflexivity.


Section Relations.

Variable R : Sim -> Sim -> Prop.
Hypothesis R_refl : forall s, R s s.
Hypothesis R_trans : forall a b c, R a b -> R b c -> R a c.

Lemma relates_ret A (a : A) : relates R (ret a).
Proof. intros s. apply R_refl. Qed.

Lemma relates_get : relates R get.
Proof. intros s. apply R_refl. Qed.

Lemma relates_lift A (o : outcome A) : relates R (lift o).
Proof. intros s. apply R_refl. Qed.

Lemma relates_raise A (e : exn) : relates R (@raise A e).
Proof. intros s. apply R_refl. Qed.

Lemma relates_modify (g : Sim -> Sim) :
  (forall s, R s (g s)) -> relates R (modify g).
Proof. intros H s. apply H. Qed.

Lemma relates_bind A C (m : M A) (k : A -> M C) :
  relates R m -> (forall a, relates R (k a)) -> relates R (bind m k).
Proof.
  intros Hm Hk s. unfold bind. specialize (Hm s).
  destruct (m s) as [[a|e] s1]; cbn [snd] in *.
  - apply R_trans with s1; [exact Hm | apply Hk].
  - exact Hm.
Qed.

Lemma relates_for_each A (l : list A) (body : A -> M unit) :
  (forall a, relates R (body a)) -> relates R (for_each l body).
Proof.
  intros H. induction l as [|a l IH]; cbn [for_each].
  - apply relates_ret.
  - apply relates_bind; [apply H | intros _; exact IH].
Qed.

Lemma relates_try_except_Exception A (body : M A) (handler : exn -> M A) :
  relates R body -> (forall e, relates R (handler e)) ->
  relates R (try_except_Exception body handler).
Proof.
  intros Hb Hh s. unfold try_except_Exception. specialize (Hb s).
  destruct (body s) as [[a|e] s1]; cbn [snd] in *.
  - exact Hb.
  - apply R_trans with s1; [exact Hb | apply Hh].
Qed.

End Relations.

Section InStep.

Variable T : Sim -> Sim -> Prop.

Lemma in_step_ret A (a : A) : in_step T (ret a).
Proof. intros s t H. split; [reflexivity | exact H]. Qed.

Lemma in_step_lift A (o : outcome A) : in_step T (lift o).
Proof. intros s t H. split; [reflexivity | exact H]. Qed.

Lemma in_step_modify (g : Sim -> Sim) :
  (forall s t, T s t -> T (g s) (g t)) -> in_step T (modify g).
Proof. intros G s t H. split; [reflexivity | apply G, H]. Qed.

Lemma in_step_bind A C (m : M A) (k : A -> M C) :
  in_step T m -> (forall a, in_step T (k a)) -> in_step T (bind m k).
Proof.
  intros Hm Hk s t H. unfold bind. destruct (Hm s t H) as [E H1].
  destruct (m s) as [[a|e] s1], (m t) as [[b|e'] t1]; cbn [fst snd] in *;
    try discriminate E.
  - injection E as <-. apply Hk, H1.
  - injection E as <-. split; [reflexivity | assumption].
Qed.

Lemma in_step_get_bind C (k : Sim -> M C) :
  (forall s t, T s t ->
     fst (k s s) = fst (k t t) /\ T (snd (k s s)) (snd (k t t))) ->
  in_step T (bind get k).
Proof. intros H s t Hst. apply H, Hst. Qed.

Lemma in_step_for_each A (l : list A) (body : A -> M unit) :
  (forall a, in_step T (body a)) -> in_step T (for_each l body).
Proof.
  intros H. induction l as [|a l IH]; cbn [for_each].
  - apply in_step_ret.
  - apply in_step_bind; [apply H | intros _; exact IH].
Qed.

Lemma in_step_try_except_Exception A (body : M A) (handler : exn -> M A) :
  in_step T body -> (forall e, in_step T (handler e)) ->
  in_step T (try_except_Exception body handler).
Proof.
  intros Hb Hh s t H. unfold try_except_Exception.
  destruct (Hb s t H) as [E H1].
  destruct (body s) as [[a|e] s1], (body t) as [[b|e'] t1];
    cbn [fst snd] in *; try discriminate E.
  - split; assumption.
  - injection E as <-. apply Hh, H1.
Qed.

End InStep.

Ltac in_step_walk leaf :=
  repeat first
    [ leaf
    | apply in_step_ret
    | apply in_step_lift
    | apply in_step_bind; [|intros ?]
    | apply in_step_for_each; intros ?
    | apply in_step_try_except_Exception; [|intros ?]
    | match goal with
      | |- in_step _ (if ?c then _ else _) => destruct c
      | |- in_step _ (match ?x with _ => _ end) => destruct x
      end
    | progress cbv zeta ].

(** Walks through a method body; [leaf] settles the calls. *)
Ltac relate refl trans leaf :=
  repeat first
    [ leaf
    | apply (relates_ret _ refl)
    | apply (relates_get _ refl)
    | apply (relates_lift _ refl)
    | apply (relates_raise _ refl)
    | apply (relates_bind _ trans); [|intros ?]
    | apply (relates_for_each _ refl trans); intros ?
    | apply (relates_try_except_Exception _ trans); [|intros ?]
    | match goal with
      | |- relates _ (if ?c then _ else _) => destruct c
      | |- relates _ (match ?x with _ => _ end) => destruct x
      end
    | progress cbv zeta ].
(* ================================================================== *)
(** ** The cycle solver *)
(* ================================================================== *)

Section Cycle.

Variable PropsSI :
  string -> string -> float -> string -> float -> string -> service_result.

Local Open Scope float_scope.

Local Notation call := (safe_coolprop_call PropsSI).
Local Notation reply := (adapter_reply PropsSI).
Local Notation cycle := (calculate_cycle PropsSI).

Ltac shrink_in H :=
  cbn [fst snd
       screen_width screen_height p_evap_psia p_cond_psia superheat_F
       subcooling_F eta_comp h_min_btu_lb h_max_btu_lb p_min_psia p_max_psia
       log_p_min log_p_max plot_x plot_y plot_width plot_height
       state_points_si performance errors dome_h_si dome_p_pa cp_calls
       set_state_points_si set_performance set_errors set_dome_h_si
       set_dome_p_pa set_cp_calls
       point1 point2 point2s point3 point4 set_point get_point empty_points
       COP Q_evap_btu_lb W_comp_btu_lb Q_cond_btu_lb empty_performance
       pt_p pt_h pt_s pt_T pt_Q liq vap] in H.

(** Rewrite in [H] the attributes of a state variable by what is known of
    them. *)
Ltac known_in H :=
  match goal with
  | E : state_points_si ?S = _ |- _ =>
      tryif constr_eq E H then fail else
      match type of H with context [state_points_si S] => rewrite E in H end
  | E : performance ?S = _ |- _ =>
      tryif constr_eq E H then fail else
      match type of H with context [performance S] => rewrite E in H end
  | E : p_evap_psia ?S = _ |- _ =>
      tryif constr_eq E H then fail else
      match type of H with context [p_evap_psia S] => rewrite E in H end
  | E : p_cond_psia ?S = _ |- _ =>
      tryif constr_eq E H then fail else
      match type of H with context [p_cond_psia S] => rewrite E in H end
  | E : superheat_F ?S = _ |- _ =>
      tryif constr_eq E H then fail else
      match type of H with context [superheat_F S] => rewrite E in H end
  | E : subcooling_F ?S = _ |- _ =>
      tryif constr_eq E H then fail else
      match type of H with context [subcooling_F S] => rewrite E in H end
  | E : eta_comp ?S = _ |- _ =>
      tryif constr_eq E H then fail else
      match type of H with context [eta_comp S] => rewrite E in H end
  end.

Ltac norm_in H := repeat first [ progress shrink_in H | known_in H ].

Ltac shrink :=
  cbn [fst snd
       screen_width screen_height p_evap_psia p_cond_psia superheat_F
       subcooling_F eta_comp h_min_btu_lb h_max_btu_lb p_min_psia p_max_psia
       log_p_min log_p_max plot_x plot_y plot_width plot_height
       state_points_si performance errors dome_h_si dome_p_pa cp_calls
       set_state_points_si set_performance set_errors set_dome_h_si
       set_dome_p_pa set_cp_calls
       point1 point2 point2s point3 point4 set_point get_point empty_points
       COP Q_evap_btu_lb W_comp_btu_lb Q_cond_btu_lb empty_performance
       pt_p pt_h pt_s pt_T pt_Q liq vap].

Ltac known :=
  match goal with
  | E : state_points_si ?S = _ |- context [state_points_si ?S] => rewrite E
  | E : performance ?S = _ |- context [performance ?S] => rewrite E
  | E : p_evap_psia ?S = _ |- context [p_evap_psia ?S] => rewrite E
  | E : p_cond_psia ?S = _ |- context [p_cond_psia ?S] => rewrite E
  | E : superheat_F ?S = _ |- context [superheat_F ?S] => rewrite E
  | E : subcooling_F ?S = _ |- context [subcooling_F ?S] => rewrite E
  | E : eta_comp ?S = _ |- context [eta_comp ?S] => rewrite E
  end.

Ltac norm := repeat first [ progress shrink | known ].

(** Split a frame into its equations, normalised. *)
Ltac open_frame F :=
  let P := fresh "Fpts" in
  let Q := fresh "Fperf" in
  let A := fresh "Fpe" in
  let B := fresh "Fpc" in
  let C := fresh "Fsh" in
  let D := fresh "Fsc" in
  let E := fresh "Feta" in
  let K := fresh "Fkeep" in
  destruct F as [P Q A B C D E _ _ _ _ K];
  norm_in P; norm_in Q; norm_in A; norm_in B; norm_in C; norm_in D;
  norm_in E; shrink_in K.

(** One step of a method run kept in hypothesis [R]. *)
Ltac run_step R :=
  first
    [ match type of R with
      | context [call ?o ?a ?b ?c ?d ?e ?S] =>
          let S' := fresh "s" in
          let Ec := fresh "Ec" in
          let F := fresh "F" in
          destruct (call_step PropsSI o a b c d e S) as (S' & Ec & F);
          rewrite Ec in R; clear Ec; open_frame F; norm_in R
      end
    | match type of R with
      | context [match reply ?o ?a ?b ?c ?d ?e with _ => _ end] =>
          let E := fresh "E" in
          destruct (reply o a b c d e) as [[?v|]|?x] eqn:E; norm_in R
      end
    | match type of R with
      | context [Py.truediv ?x ?y] =>
          rewrite (truediv_nonzero x y) in R
            by auto using leb_false_nonzero, above_epsilon_nonzero;
          norm_in R
      end
    | match type of R with
      | context [if ?c then _ else _] =>
          let C := fresh "C" in destruct c eqn:C; norm_in R
      end ].

Ltac run R := norm_in R; repeat run_step R.

(** The same for two runs that advance together: a case split on a reply
    or on a test settles it in both. *)
Ltac call_in R :=
  match type of R with
  | context [call ?o ?a ?b ?c ?d ?e ?S] =>
      let S' := fresh "s" in
      let Ec := fresh "Ec" in
      let F := fresh "F" in
      destruct (call_step PropsSI o a b c d e S) as (S' & Ec & F);
      rewrite Ec in R; clear Ec; open_frame F; norm_in R
  end.

Ltac truediv_in R :=
  match type of R with
  | context [Py.truediv ?x ?y] =>
      rewrite (truediv_nonzero x y) in R
        by auto using leb_false_nonzero, above_epsilon_nonzero;
      norm_in R
  end.

Ltac run_step2 R1 R2 :=
  first
    [ call_in R1
    | call_in R2
    | truediv_in R1
    | truediv_in R2
    | match type of R1 with
      | context [match reply ?o ?a ?b ?c ?d ?e with _ => _ end] =>
          let E := fresh "E" in
          destruct (reply o a b c d e) as [[?v|]|?x] eqn:E;
          norm_in R1; norm_in R2
      end
    | match type of R1 with
      | context [if ?c then _ else _] =>
          let C := fresh "C" in destruct c eqn:C; norm_in R1; norm_in R2
      end ].

Ltac run2 R1 R2 := norm_in R1; norm_in R2; repeat run_step2 R1 R2.

Ltac start_cycle R :=
  unfold calculate_cycle, errors_append, bind, modify, get, lift, ret in R;
  run R.


(** An invocation with inverted pressures, in full. *)
Lemma cycle_on_inverted_pressures (s : Sim) :
  (p_cond_pa s <=? p_evap_pa s) = true ->
  cycle s =
  (Normal tt,
   set_errors
     (filter kept_by_cycle (errors s) ++ ["P_evap must be < P_cond"%string])
     (set_performance empty_performance
        (set_state_points_si empty_points
           (set_errors (filter kept_by_cycle (errors s)) s)))).
Proof.
  unfold p_cond_pa, p_evap_pa. intros H.
  unfold calculate_cycle, errors_append, bind, modify, get.
  cbn. rewrite H. reflexivity.
Qed.

(** C1: when the evaporating pressure in Pa is greater than or equal to
    the condensing pressure in Pa, [calculate_cycle] returns with the five
    state points empty and the four performance values [None], its log
    ends with "P_evap must be < P_cond", and no request was sent to the
    property service. *)
Theorem inverted_pressures_rejected (s : Sim) :
  (p_cond_pa s <=? p_evap_pa s) = true ->
  let s' := exec cycle s in
  result cycle s = Normal tt
  /\ state_points_si s' = empty_points
  /\ performance s' = empty_performance
  /\ errors s'
     = filter kept_by_cycle (errors s) ++ ["P_evap must be < P_cond"%string]
  /\ cp_calls s' = cp_calls s.
Proof.
  intros H s'. subst s'. unfold result, exec.
  rewrite (cycle_on_inverted_pressures s H). cbn. repeat split.
Qed.

(** A message stays in the log across later adapter calls. *)
Ltac logged :=
  shrink;
  repeat (match goal with
          | K : forall m, In m _ -> In m (errors ?S) |- In _ (errors ?S) =>
              apply K; shrink
          end);
  first [ apply in_or_app; right; left; reflexivity
        | apply in_or_app; left; logged ].


Lemma cycle_keeps_parameters (s : Sim) :
  let s' := exec cycle s in
  p_evap_psia s' = p_evap_psia s
  /\ p_cond_psia s' = p_cond_psia s
  /\ superheat_F s' = superheat_F s
  /\ subcooling_F s' = subcooling_F s
  /\ eta_comp s' = eta_comp s.
Proof.
  intros s'. subst s'. unfold exec.
  remember (cycle s) as r eqn:R.
  start_cycle R.
  all: subst r; norm; repeat split.
Qed.

Lemma cycle_depends_on_parameters (s t : Sim) :
  p_evap_psia t = p_evap_psia s ->
  p_cond_psia t = p_cond_psia s ->
  superheat_F t = superheat_F s ->
  subcooling_F t = subcooling_F s ->
  eta_comp t = eta_comp s ->
  result cycle t = result cycle s
  /\ state_points_si (exec cycle t) = state_points_si (exec cycle s)
  /\ performance (exec cycle t) = performance (exec cycle s).
Proof.
  intros Ha Hb Hc Hd He. unfold result, exec.
  remember (cycle s) as r1 eqn:R1.
  remember (cycle t) as r2 eqn:R2.
  unfold calculate_cycle, errors_append, bind, modify, get, lift, ret in R1, R2.
  run2 R1 R2.
  all: subst r1 r2; norm; repeat split.
Qed.

(** Entries the cleanup keeps are still in the log after an invocation. *)
Lemma cycle_log_grows (s : Sim) (m : string) :
  In m (errors s) -> kept_by_cycle m = true -> In m (errors (exec cycle s)).
Proof.
  intros Hin Hk. unfold exec.
  assert (Hf : In m (filter (fun e => negb (Py.contains "CoolProp Error:" e))
                       (errors s))).
  { apply filter_In. split; assumption. }
  remember (cycle s) as r eqn:R.
  start_cycle R.
  all: subst r; shrink;
    repeat (match goal with
            | K : forall m, In m _ -> In m (errors ?S) |- In _ (errors ?S) =>
                apply K; shrink
            | |- In _ (_ ++ _) => apply in_or_app; left
            end);
    exact Hf.
Qed.

(** C7 (amended): invoking [calculate_cycle] twice in succession with
    unchanged parameters (the property service being a function) gives the
    same outcome, the same five state points and the same four performance
    values the second time.  The log is not part of what is repeated: the
    entries the cleanup keeps stay, and an invocation may append again. *)
Theorem cycle_results_idempotent (s : Sim) :
  let s1 := exec cycle s in
  let s2 := exec cycle s1 in
  result cycle s1 = result cycle s
  /\ state_points_si s2 = state_points_si s1
  /\ performance s2 = performance s1
  /\ (forall m, In m (errors s1) -> kept_by_cycle m = true ->
                In m (errors s2)).
Proof.
  intros s1 s2.
  destruct (cycle_keeps_parameters s) as (Ha & Hb & Hc & Hd & He).
  fold s1 in Ha, Hb, Hc, Hd, He.
  destruct (cycle_depends_on_parameters s s1 Ha Hb Hc Hd He)
    as (Hr & Hp & Hf).
  repeat split; try assumption.
  intros m. apply cycle_log_grows.
Qed.

Lemma filter_repeat_kept (m : string) (n : nat) :
  kept_by_cycle m = true -> filter kept_by_cycle (repeat m n) = repeat m n.
Proof.
  intros H. induction n as [|n IH]; cbn; [reflexivity|]. rewrite H, IH.
  reflexivity.
Qed.

Lemma inverted_step (s : Sim) :
  (p_cond_pa s <=? p_evap_pa s) = true ->
  (p_cond_pa (exec cycle s) <=? p_evap_pa (exec cycle s)) = true
  /\ errors (exec cycle s)
     = filter kept_by_cycle (errors s) ++ ["P_evap must be < P_cond"%string].
Proof.
  intros H. unfold exec. rewrite (cycle_on_inverted_pressures s H).
  split; [exact H | reflexivity].
Qed.

Lemma inverted_pressures_stay (s : Sim) (n : nat) :
  (p_cond_pa s <=? p_evap_pa s) = true ->
  (p_cond_pa (Nat.iter n (exec cycle) s)
   <=? p_evap_pa (Nat.iter n (exec cycle) s)) = true
  /\ errors (Nat.iter (S n) (exec cycle) s)
     = filter kept_by_cycle (errors s)
       ++ repeat "P_evap must be < P_cond"%string (S n).
Proof.
  intros H.
  pose proof inverted_step as Step.
  set (F := exec cycle) in *. clearbody F.
  induction n as [|n [IHp IHe]].
  - split; [exact H|]. rewrite Nat.iter_succ.
    apply (Step s H).
  - rewrite !Nat.iter_succ in *.
    destruct (Step _ IHp) as [Hp He]. split; [exact Hp|].
    destruct (Step _ Hp) as [_ He2]. rewrite He2, IHe.
    rewrite filter_app, filter_idempotent, filter_repeat_kept
      by (vm_compute; reflexivity).
    rewrite <- app_assoc, repeat_snoc. reflexivity.
Qed.


(* ------------------------------------------------------------------ *)
(** *** What the solver writes, and in which order *)

Lemma cycle_preserves {B} (f : Sim -> B) :
  ignores_results f -> preserves f cycle.
Proof.
  intros (Hl & Hp & Hq). pose proof Hl as [He Hc].
  unfold calculate_cycle. preserve.
Qed.

(** X3: [calculate_cycle] writes the state points, the performance values and
    the log, and nothing else: the five parameters, the axis bounds, the
    window size, the plot rectangle and the dome are as before, whatever
    the property service does. *)
Theorem cycle_writes_only_results (s : Sim) :
  let s' := exec cycle s in
  (p_evap_psia s', p_cond_psia s', superheat_F s', subcooling_F s',
   eta_comp s')
  = (p_evap_psia s, p_cond_psia s, superheat_F s, subcooling_F s, eta_comp s)
  /\ (h_min_btu_lb s', h_max_btu_lb s', p_min_psia s', p_max_psia s',
      log_p_min s', log_p_max s')
     = (h_min_btu_lb s, h_max_btu_lb s, p_min_psia s, p_max_psia s,
        log_p_min s, log_p_max s)
  /\ (screen_width s', screen_height s', plot_x s', plot_y s', plot_width s',
      plot_height s')
     = (screen_width s, screen_height s, plot_x s, plot_y s, plot_width s,
        plot_height s)
  /\ dome_p_pa s' = dome_p_pa s
  /\ dome_h_si s' = dome_h_si s.
Proof.
  intros s'. subst s'. unfold exec.
  split; [|split; [|split; [|split]]].
  - apply (cycle_preserves
             (fun t => (p_evap_psia t, p_cond_psia t, superheat_F t,
                        subcooling_F t, eta_comp t))). ignores.
  - apply (cycle_preserves
             (fun t => (h_min_btu_lb t, h_max_btu_lb t, p_min_psia t,
                        p_max_psia t, log_p_min t, log_p_max t))). ignores.
  - apply (cycle_preserves
             (fun t => (screen_width t, screen_height t, plot_x t, plot_y t,
                        plot_width t, plot_height t))). ignores.
  - apply (cycle_preserves dome_p_pa). ignores.
  - apply (cycle_preserves dome_h_si). ignores.
Qed.

(** X4: The five state points are filled in the order 1, 2s, 2, 3, 4, so a
    later one is never stored without the earlier ones; the three heat and
    work values are stored exactly when point 4 is, and a coefficient of
    performance only then.  This holds on every path, also when the
    property service raises half-way. *)
Theorem cycle_fills_points_in_order (s : Sim) :
  let sp := state_points_si (exec cycle s) in
  let perf := performance (exec cycle s) in
  (filled (point4 sp) = true -> filled (point3 sp) = true)
  /\ (filled (point3 sp) = true -> filled (point2 sp) = true)
  /\ (filled (point2 sp) = true -> filled (point2s sp) = true)
  /\ (filled (point2s sp) = true -> filled (point1 sp) = true)
  /\ filled (Q_evap_btu_lb perf) = filled (point4 sp)
  /\ filled (W_comp_btu_lb perf) = filled (point4 sp)
  /\ filled (Q_cond_btu_lb perf) = filled (point4 sp)
  /\ (filled (COP perf) = true -> filled (point4 sp) = true).
Proof.
  intros sp perf. subst sp perf. unfold exec.
  remember (cycle s) as r eqn:R.
  start_cycle R.
  all: subst r; norm; cbn [filled]; repeat split; auto.
Qed.

Lemma cycle_levels (s : Sim) :
  let sp := state_points_si (exec cycle s) in
  (forall pt1, point1 sp = Some pt1 ->
     pt_p pt1 = p_evap_pa s /\ pt_Q pt1 = Some 1.0)
  /\ (forall pt2s, point2s sp = Some pt2s ->
        pt_p pt2s = p_cond_pa s /\ pt_Q pt2s = None
        /\ exists pt1, point1 sp = Some pt1 /\ pt_s pt2s = pt_s pt1)
  /\ (forall pt2, point2 sp = Some pt2 ->
        pt_p pt2 = p_cond_pa s /\ pt_Q pt2 = None)
  /\ (forall pt3, point3 sp = Some pt3 ->
        pt_p pt3 = p_cond_pa s /\ pt_Q pt3 = Some 0.0)
  /\ (forall pt4, point4 sp = Some pt4 ->
        pt_p pt4 = p_evap_pa s
        /\ exists pt3, point3 sp = Some pt3 /\ pt_h pt4 = pt_h pt3).
Proof.
  intros sp. subst sp. unfold exec, p_evap_pa, p_cond_pa.
  remember (cycle s) as r eqn:R.
  start_cycle R.
  all: subst r; norm; (split; [|split; [|split; [|split]]]);
    intros pt Hpt; try discriminate Hpt;
    injection Hpt as <-; cbn [pt_p pt_Q pt_s pt_h]; repeat split;
    eexists; split; reflexivity.
Qed.

(** X5: Where the stored points lie: points 1 and 4 at the evaporating
    pressure, points 2s, 2 and 3 at the condensing pressure; point 1 is
    stored with quality 1, point 3 with quality 0, points 2s and 2 with
    none; point 2s has the entropy of point 1 and point 4 the enthalpy of
    point 3. *)
Theorem cycle_point_levels (s : Sim) :
  let sp := state_points_si (exec cycle s) in
  (forall pt1, point1 sp = Some pt1 ->
     pt_p pt1 = p_evap_pa s /\ pt_Q pt1 = Some 1.0)
  /\ (forall pt2s, point2s sp = Some pt2s ->
        pt_p pt2s = p_cond_pa s /\ pt_Q pt2s = None
        /\ exists pt1, point1 sp = Some pt1 /\ pt_s pt2s = pt_s pt1)
  /\ (forall pt2, point2 sp = Some pt2 ->
        pt_p pt2 = p_cond_pa s /\ pt_Q pt2 = None)
  /\ (forall pt3, point3 sp = Some pt3 ->
        pt_p pt3 = p_cond_pa s /\ pt_Q pt3 = Some 0.0)
  /\ (forall pt4, point4 sp = Some pt4 ->
        pt_p pt4 = p_evap_pa s
        /\ exists pt3, point3 sp = Some pt3 /\ pt_h pt4 = pt_h pt3).
Proof. exact (cycle_levels s). Qed.

(** X6: Every number stored in a state point is finite: each one is either an
    answer the adapter let through or an input of a request that was
    answered. *)
Theorem cycle_stores_finite_points (s : Sim) (k : point_key) (pt : StatePoint) :
  get_point k (state_points_si (exec cycle s)) = Some pt ->
  finite_point pt = true.
Proof.
  unfold exec.
  remember (cycle s) as r eqn:R.
  start_cycle R.
  all: subst r; intros Hpt; destruct k; norm_in Hpt; try discriminate Hpt;
    injection Hpt as <-; unfold finite_point; cbn [pt_p pt_h pt_s pt_T pt_Q];
    repeat match goal with
           | E : reply _ _ (PyFloat _) _ _ _ = Normal (Some _) |- _ =>
               apply (reply_finite PropsSI) in E as (? & ? & ?)
           end;
    cbn [finite_number] in *;
    repeat match goal with
           | H : is_finite ?x = true |- context [is_finite ?x] => rewrite H
           end;
    reflexivity.
Qed.

(** X7: Point 1 is stored at the saturation temperature the service gave for
    the evaporating pressure plus [max(0.01, superheat in K)], point 3 at
    the one for the condensing pressure minus [max(0.01, subcooling in
    K)]; either margin is at least 0.01 K whatever the parameter is, also
    when it is negative or not a number. *)
Theorem cycle_temperature_margins (s : Sim) :
  let sp := state_points_si (exec cycle s) in
  let superheat_k := Py.max 0.01 (superheat_F s * DELTA_F_TO_DELTA_K) in
  let subcooling_k := Py.max 0.01 (subcooling_F s * DELTA_F_TO_DELTA_K) in
  (0.01 <=? superheat_k) = true
  /\ (0.01 <=? subcooling_k) = true
  /\ (forall pt1, point1 sp = Some pt1 ->
        exists T_sat_evap_k,
          reply "T" "P" (PyFloat (p_evap_pa s)) "Q" (PyInt 1) REFRIGERANT
          = Normal (Some T_sat_evap_k)
          /\ pt_T pt1 = T_sat_evap_k + superheat_k)
  /\ (forall pt3, point3 sp = Some pt3 ->
        exists T_sat_cond_k,
          reply "T" "P" (PyFloat (p_cond_pa s)) "Q" (PyInt 0) REFRIGERANT
          = Normal (Some T_sat_cond_k)
          /\ pt_T pt3 = T_sat_cond_k - subcooling_k).
Proof.
  intros sp superheat_k subcooling_k. subst sp superheat_k subcooling_k.
  split; [apply max_ge_l; discriminate|].
  split; [apply max_ge_l; discriminate|].
  unfold exec, p_evap_pa, p_cond_pa.
  remember (cycle s) as r eqn:R.
  start_cycle R.
  all: subst r; norm; split; intros pt Hpt; try discriminate Hpt;
    injection Hpt as <-; cbn [pt_T]; eexists; split;
    first [eassumption | reflexivity].
Qed.

End Cycle.

(* ================================================================== *)
(** ** The dome sampler *)
(* ================================================================== *)

Section Dome.

Variable PropsSI :
  string -> string -> float -> string -> float -> string -> service_result.
Variable np_log10 : float -> float.
Variable np_logspace : float -> float -> Z -> list float.

Local Open Scope float_scope.

Local Notation call := (safe_coolprop_call PropsSI).
Local Notation reply := (adapter_reply PropsSI).
Local Notation sample := (dome_sample PropsSI).
Local Notation apex := (dome_apex PropsSI).
Local Notation dome := (calculate_dome PropsSI np_log10 np_logspace).
Local Notation ordered := (enthalpies_ordered PropsSI).

Lemma increasing_snoc l x :
  increasing l = true -> forallb (fun a => a <? x) l = true ->
  increasing (l ++ [x]) = true.
Proof.
  induction l as [|a l IH]; cbn; [reflexivity|].
  intros H1 H2. apply andb_true_iff in H1 as [Ha Hl].
  apply andb_true_iff in H2 as [Hx Hlx].
  rewrite forallb_app, Ha, IH by assumption. cbn. rewrite Hx. reflexivity.
Qed.

Lemma increasing_app l1 l2 :
  increasing l1 = true -> increasing l2 = true ->
  (forall a b, In a l1 -> In b l2 -> (a <? b) = true) ->
  increasing (l1 ++ l2) = true.
Proof.
  induction l1 as [|a l1 IH]; cbn; [auto|].
  intros H1 H2 H. apply andb_true_iff in H1 as [Ha Hl].
  apply andb_true_iff. split.
  - rewrite forallb_app, Ha. cbn. apply forallb_forall. intros b Hb.
    apply H; auto.
  - apply IH; auto.
Qed.

(** The dome lists across one adapter call. *)
Lemma call_dome out n1 v1 n2 v2 fluid s :
  exists s',
    call out n1 v1 n2 v2 fluid s = (reply out n1 v1 n2 v2 fluid, s')
    /\ dome_p_pa s' = dome_p_pa s /\ dome_h_si s' = dome_h_si s
    /\ p_min_psia s' = p_min_psia s /\ p_max_psia s' = p_max_psia s.
Proof.
  destruct (call_step PropsSI out n1 v1 n2 v2 fluid s) as (s' & E & F).
  exists s'. destruct F. auto.
Qed.

Lemma dome_sample_effect p s :
  sample_effect PropsSI p s (snd (sample p s))
  /\ p_min_psia (snd (sample p s)) = p_min_psia s
  /\ p_max_psia (snd (sample p s)) = p_max_psia s.
Proof.
  unfold dome_sample, bind, modify, ret.
  destruct (call_dome "H" "P" (PyFloat p) "Q" (PyInt 0) REFRIGERANT s)
    as (s1 & E1 & P1 & H1 & A1 & B1).
  rewrite E1.
  destruct (reply "H" "P" (PyFloat p) "Q" (PyInt 0) REFRIGERANT)
    as [r1|e1] eqn:R1; cbn [snd].
  2:{ split; [apply sample_dropped; assumption | split; assumption]. }
  destruct (call_dome "H" "P" (PyFloat p) "Q" (PyInt 1) REFRIGERANT s1)
    as (s2 & E2 & P2 & H2 & A2 & B2).
  rewrite E2.
  destruct (reply "H" "P" (PyFloat p) "Q" (PyInt 1) REFRIGERANT)
    as [r2|e2] eqn:R2; cbn [snd].
  2:{ split; [apply sample_dropped; congruence | split; congruence]. }
  destruct r1 as [hl|], r2 as [hv|]; cbn [snd];
    try (split; [apply sample_dropped; congruence | split; congruence]).
  split; [|destruct s2; cbn in *; split; congruence].
  apply sample_kept with hl hv; try reflexivity;
    destruct s2; cbn in *; congruence.
Qed.


Lemma kept_ordered p h_liq h_vap :
  reply "H" "P" (PyFloat p) "Q" (PyInt 0) REFRIGERANT = Normal (Some h_liq) ->
  reply "H" "P" (PyFloat p) "Q" (PyInt 1) REFRIGERANT = Normal (Some h_vap) ->
  ordered p = true -> (h_liq <=? h_vap) = true.
Proof.
  intros H0 H1. apply reply_value in H0 as (_ & A0 & _).
  apply reply_value in H1 as (_ & A1 & _).
  unfold enthalpies_ordered. rewrite A0, A1. auto.
Qed.

(** The sampling loop: what it appends is drawn from the pressures it is
    given, in their order, with the enthalpies the service answered. *)
Lemma sampling_loop L : forall s,
  increasing L = true ->
  forallb ordered L = true ->
  let s' := snd (for_each L sample s) in
  exists ps hls hvs,
    dome_p_pa s' = dome_p_pa s ++ ps
    /\ liq (dome_h_si s') = liq (dome_h_si s) ++ hls
    /\ vap (dome_h_si s') = vap (dome_h_si s) ++ hvs
    /\ incl ps L /\ increasing ps = true
    /\ Forall2 (fun a b => (a <=? b) = true) hls hvs
    /\ p_min_psia s' = p_min_psia s /\ p_max_psia s' = p_max_psia s.
Proof.
  induction L as [|a L IH]; intros s Hinc Hord; cbn -[dome_sample].
  - exists [], [], []. rewrite !app_nil_r. repeat split; auto.
    intros x Hx. exact Hx.
  - cbn in Hinc, Hord.
    apply andb_true_iff in Hinc as [Ha Hinc].
    apply andb_true_iff in Hord as [Hoa Hord].
    destruct (dome_sample_effect a s) as (Eff & Emin & Emax).
    unfold bind.
    destruct (sample a s) as [[u|e] s1] eqn:Es; cbn [snd] in *.
    + destruct (IH s1 Hinc Hord)
        as (ps & hls & hvs & Ep & El & Ev & Hin & Hps & Hhh & Pmin & Pmax).
      destruct Eff as [Dp Dh | hl hv R0 R1 Dp Dl Dv].
      * exists ps, hls, hvs. rewrite Ep, El, Ev, Dp, Dh, Pmin, Pmax.
        repeat split; auto. intros x Hx. right. apply Hin, Hx.
      * exists (a :: ps), (hl :: hls), (hv :: hvs).
        rewrite Ep, El, Ev, Dp, Dl, Dv, Pmin, Pmax, <- !app_assoc.
        repeat split; auto.
        -- intros x [<-|Hx]; [left; reflexivity | right; apply Hin, Hx].
        -- cbn. rewrite Hps, andb_true_r. apply forallb_forall.
           intros x Hx. apply Hin in Hx.
           rewrite forallb_forall in Ha. apply Ha, Hx.
        -- constructor; [|exact Hhh]. exact (kept_ordered _ _ _ R0 R1 Hoa).
    + destruct Eff as [Dp Dh | hl hv R0 R1 Dp Dl Dv].
      * exists [], [], []. rewrite !app_nil_r, Dp, Dh.
        repeat split; auto. intros x [].
      * exists [a], [hl], [hv]. rewrite Dp, Dl, Dv.
        repeat split; auto.
        -- intros x [<-|[]]. left. reflexivity.
        -- constructor; [|constructor].
           exact (kept_ordered _ _ _ R0 R1 Hoa).
Qed.

(** What the closing block does to the dome. *)
Lemma dome_apex_effect crit p_end s :
  let s' := snd (apex crit p_end s) in
  match crit * 0.9 <? p_end,
        reply "H" "P" (PyFloat crit) "Q" (PyFloat 0.5) REFRIGERANT,
        (p_min_psia s <=? crit * PA_TO_PSIA)
        && (crit * PA_TO_PSIA <=? p_max_psia s) with
  | true, Normal (Some crit_h), true =>
      dome_p_pa s' = dome_p_pa s ++ [crit]
      /\ liq (dome_h_si s') = liq (dome_h_si s) ++ [crit_h]
      /\ vap (dome_h_si s') = vap (dome_h_si s) ++ [crit_h]
  | _, _, _ => dome_p_pa s' = dome_p_pa s /\ dome_h_si s' = dome_h_si s
  end.
Proof.
  unfold dome_apex, bind, modify, get, ret.
  destruct (crit * 0.9 <? p_end); [|cbn; auto].
  destruct (call_dome "H" "P" (PyFloat crit) "Q" (PyFloat 0.5) REFRIGERANT s)
    as (s1 & E1 & P1 & H1 & A1 & B1).
  rewrite E1.
  destruct (reply "H" "P" (PyFloat crit) "Q" (PyFloat 0.5) REFRIGERANT)
    as [[ch|]|e]; cbn [snd]; auto.
  rewrite A1, B1.
    destruct ((p_min_psia s <=? crit * PA_TO_PSIA)
              && (crit * PA_TO_PSIA <=? p_max_psia s)); cbn [snd]; auto.
    destruct s1; cbn in *. subst. auto.
Qed.


Lemma snoc_not_same {A} (l : list A) (x : A) : l ++ [x] <> l.
Proof.
  intros H. apply (f_equal (@List.length A)) in H. rewrite List.length_app in H.
  cbn in H. lia.
Qed.



Lemma range_only_reads_bounds s t crit :
  p_min_psia t = p_min_psia s -> p_max_psia t = p_max_psia s ->
  p_start_pa t = p_start_pa s
  /\ p_end_pa t crit = p_end_pa s crit
  /\ pressures_pa_log np_log10 np_logspace t crit
     = pressures_pa_log np_log10 np_logspace s crit.
Proof.
  intros A B. unfold pressures_pa_log, p_start_pa, p_end_pa.
  rewrite A, B. auto.
Qed.


End Dome.

(* ================================================================== *)
(** ** More about the dome sampler *)
(* ================================================================== *)

Section DomeMore.

Variable PropsSI :
  string -> string -> float -> string -> float -> string -> service_result.
Variable np_log10 : float -> float.
Variable np_logspace : float -> float -> Z -> list float.

Local Open Scope float_scope.

Local Notation call := (safe_coolprop_call PropsSI).
Local Notation reply := (adapter_reply PropsSI).
Local Notation sample := (dome_sample PropsSI).
Local Notation apex := (dome_apex PropsSI).
Local Notation dome := (calculate_dome PropsSI np_log10 np_logspace).
Local Notation cycle := (calculate_cycle PropsSI).

Lemma bind_modify A (g : Sim -> Sim) (k : unit -> M A) s :
  bind (modify g) k s = k tt (g s).
Proof. reflexivity. Qed.

Lemma dome_grows_same s s' :
  dome_p_pa s' = dome_p_pa s -> dome_h_si s' = dome_h_si s -> dome_grows s s'.
Proof.
  intros Ep Eh. exists [], [], []. rewrite Ep, Eh, !app_nil_r.
  repeat split.
Qed.

Lemma dome_grows_refl s : dome_grows s s.
Proof. apply dome_grows_same; reflexivity. Qed.

Lemma dome_grows_trans a b c :
  dome_grows a b -> dome_grows b c -> dome_grows a c.
Proof.
  intros (p1 & l1 & v1 & Ep1 & El1 & Ev1 & Ll1 & Lv1 & Fp1 & Fl1 & Fv1)
         (p2 & l2 & v2 & Ep2 & El2 & Ev2 & Ll2 & Lv2 & Fp2 & Fl2 & Fv2).
  exists (p1 ++ p2), (l1 ++ l2), (v1 ++ v2).
  rewrite Ep2, El2, Ev2, Ep1, El1, Ev1, <- !app_assoc, !List.length_app,
    !forallb_app, Ll1, Ll2, Lv1, Lv2, Fp1, Fp2, Fl1, Fl2, Fv1, Fv2.
  repeat split.
Qed.

Lemma call_grows out n1 v1 n2 v2 fluid :
  relates dome_grows (call out n1 v1 n2 v2 fluid).
Proof.
  intros s.
  destruct (call_dome PropsSI out n1 v1 n2 v2 fluid s)
    as (s' & E & Ep & Eh & _).
  rewrite E. apply dome_grows_same; assumption.
Qed.

Lemma sample_grows p : relates dome_grows (sample p).
Proof.
  intros s. destruct (dome_sample_effect PropsSI p s) as (Eff & _).
  destruct Eff as [Dp Dh | hl hv R0 R1 Dp Dl Dv].
  - apply dome_grows_same; assumption.
  - apply (reply_finite PropsSI) in R0 as (Fp & _ & Fl).
    apply (reply_finite PropsSI) in R1 as (_ & _ & Fv).
    exists [p], [hl], [hv]. cbn. rewrite Fp, Fl, Fv. repeat split; assumption.
Qed.

Lemma apex_grows crit p_end : relates dome_grows (apex crit p_end).
Proof.
  intros s. pose proof (dome_apex_effect PropsSI crit p_end s) as E.
  cbn zeta in E.
  destruct (crit * 0.9 <? p_end);
    [|destruct E; apply dome_grows_same; assumption].
  destruct (reply "H" "P" (PyFloat crit) "Q" (PyFloat 0.5) REFRIGERANT)
    as [[ch|]|e] eqn:Rh;
    try (destruct E; apply dome_grows_same; assumption).
  destruct ((p_min_psia s <=? crit * PA_TO_PSIA)
            && (crit * PA_TO_PSIA <=? p_max_psia s));
    [|destruct E; apply dome_grows_same; assumption].
  destruct E as (Ap & Al & Av).
  apply (reply_finite PropsSI) in Rh as (Fc & _ & Fh).
  exists [crit], [ch], [ch]. cbn. rewrite Fc, Fh. repeat split; assumption.
Qed.

Lemma errors_append_grows m : relates dome_grows (errors_append m).
Proof. intros s. apply dome_grows_same; reflexivity. Qed.

Lemma errors_append_once_grows m : relates dome_grows (errors_append_once m).
Proof.
  intros s. unfold errors_append_once, modify. cbn [snd].
  destruct (Py.mem m (errors s)); apply dome_grows_same; reflexivity.
Qed.

Ltac dome_grows_leaf :=
  first
    [ apply call_grows
    | apply sample_grows
    | apply apex_grows
    | apply errors_append_grows
    | apply errors_append_once_grows ].

Lemma dome_aligned (s : Sim) :
  let s' := exec dome s in
  List.length (liq (dome_h_si s')) = List.length (dome_p_pa s')
  /\ List.length (vap (dome_h_si s')) = List.length (dome_p_pa s')
  /\ forallb is_finite (dome_p_pa s') = true
  /\ forallb is_finite (liq (dome_h_si s')) = true
  /\ forallb is_finite (vap (dome_h_si s')) = true.
Proof.
  intros s'. subst s'. unfold exec, calculate_dome.
  rewrite !bind_modify.
  match goal with
  | |- context [try_except_Exception ?b ?h ?s0] =>
      set (s1 := try_except_Exception b h s0);
      assert (G : dome_grows s0 (snd s1))
  end.
  { apply (relates_try_except_Exception _ dome_grows_trans).
    - relate dome_grows_refl dome_grows_trans dome_grows_leaf.
    - intros e. relate dome_grows_refl dome_grows_trans dome_grows_leaf. }
  destruct G as (ps & hls & hvs & Ep & El & Ev & Ll & Lv & Fp & Fl & Fv).
  cbn [dome_p_pa dome_h_si liq vap set_errors set_dome_p_pa set_dome_h_si
       app] in Ep, El, Ev.
  rewrite Ep, El, Ev. auto.
Qed.

(** X8: The dome after [calculate_dome], for any property service and any
    sampling grid: the pressure list and the two enthalpy lists have the
    same length, and every number in them is finite.  (So indexing the
    three lists together, as [draw_dome] does, stays in range.) *)
Theorem dome_lists_aligned (s : Sim) :
  let s' := exec dome s in
  List.length (liq (dome_h_si s')) = List.length (dome_p_pa s')
  /\ List.length (vap (dome_h_si s')) = List.length (dome_p_pa s')
  /\ forallb is_finite (dome_p_pa s') = true
  /\ forallb is_finite (liq (dome_h_si s')) = true
  /\ forallb is_finite (vap (dome_h_si s')) = true.
Proof. apply dome_aligned. Qed.


Lemma try_except_Exception_returns (body : M unit) (handler : exn -> M unit) s :
  (forall e t, fst (handler e t) = Normal tt) ->
  fst (try_except_Exception body handler s) = Normal tt.
Proof.
  intros H. unfold try_except_Exception.
  destruct (body s) as [[[]|e] s1]; [reflexivity | apply H].
Qed.

Lemma dome_returns (s : Sim) : result dome s = Normal tt.
Proof.
  unfold result, calculate_dome. rewrite !bind_modify.
  apply try_except_Exception_returns. reflexivity.
Qed.


(* ------------------------------------------------------------------ *)
(** *** The log across a dome computation *)

Lemma log_extends_refl s : log_extends s s.
Proof. apply adapter_extension_refl. Qed.

Lemma log_extends_trans a b c :
  log_extends a b -> log_extends b c -> log_extends a c.
Proof. apply adapter_extension_trans. Qed.

Lemma call_log out n1 v1 n2 v2 fluid :
  relates log_extends (call out n1 v1 n2 v2 fluid).
Proof.
  intros s. apply log_step_extension.
  apply (safe_coolprop_call_log PropsSI out n1 v1 n2 v2 fluid s).
Qed.

Lemma modify_log (g : Sim -> Sim) :
  (forall s, errors (g s) = errors s) -> relates log_extends (modify g).
Proof.
  intros H s. unfold log_extends, modify. cbn [snd]. rewrite H.
  apply adapter_extension_refl.
Qed.

Ltac log_leaf :=
  first [ apply call_log | apply modify_log; intros ?; reflexivity ].

Lemma sample_log p : relates log_extends (sample p).
Proof.
  unfold dome_sample. relate log_extends_refl log_extends_trans log_leaf.
Qed.

Lemma apex_log crit p_end : relates log_extends (apex crit p_end).
Proof.
  unfold dome_apex. relate log_extends_refl log_extends_trans log_leaf.
Qed.

Lemma dome_message_contains m :
  dome_message m -> Py.contains "Dome" m = true.
Proof. intros [->|[text ->]]; reflexivity. Qed.

Lemma dome_message_not_adapter m :
  dome_message m -> ~ adapter_message m.
Proof.
  unfold adapter_message. intros [->|[text ->]]; cbn; discriminate.
Qed.

(** The log [calculate_dome] leaves: the entries without "Dome" that were
    there, then messages of the adapter, then at most one further entry. *)
Lemma dome_log_shape (s : Sim) :
  exists added tail,
    errors (exec dome s)
    = filter (fun e => negb (Py.contains "Dome" e)) (errors s)
      ++ added ++ tail
    /\ Forall adapter_message added
    /\ (List.length tail <= 1)%nat
    /\ Forall dome_message tail.
Proof.
  unfold exec, calculate_dome. rewrite !bind_modify.
  unfold try_except_Exception. rewrite bind_call.
  match goal with
  | |- context [exec (call ?o ?a ?b ?c ?d ?f) ?s0] =>
      pose proof (call_log o a b c d f s0) as X1;
      set (s1 := exec (call o a b c d f) s0) in *
  end.
  change (snd (call "pcrit" EmptyString (PyInt 0) EmptyString (PyInt 0)
                 REFRIGERANT _)) with s1 in X1.
  destruct X1 as (a1 & E1 & F1).
  cbn [errors set_errors] in E1.
  assert (Once : forall m t a,
             dome_message m ->
             errors t = filter (fun e => negb (Py.contains "Dome" e)) (errors s)
                        ++ a ->
             Forall adapter_message a ->
             exists added tail,
               errors (snd (errors_append_once m t))
               = filter (fun e => negb (Py.contains "Dome" e)) (errors s)
                 ++ added ++ tail
               /\ Forall adapter_message added
               /\ (List.length tail <= 1)%nat
               /\ Forall dome_message tail).
  { intros m t a Hm Et Fa. unfold errors_append_once, modify. cbn [snd].
    destruct (Py.mem m (errors t)).
    - exists a, []. rewrite app_nil_r. auto.
    - exists a, [m]. cbn [errors set_errors]. rewrite Et, <- app_assoc.
      auto. }
  assert (Unexpected : forall e,
             dome_message ("Unexpected Dome Calc Error: " ++ str_exn e)%string)
    by (intros e; right; eexists; reflexivity).
  destruct (reply "pcrit" EmptyString (PyInt 0) EmptyString (PyInt 0)
              REFRIGERANT) as [[crit|]|e].
  - unfold bind at 1, get at 1.
    destruct (p_end_pa s1 crit <=? p_start_pa s1).
    + exists a1, ["Dome Calc: Invalid SI P range from PSIA."%string].
      cbn. rewrite E1, <- app_assoc.
      repeat split; auto. constructor; [left; reflexivity | constructor].
    + match goal with
      | |- context [bind ?m ?k s1] =>
          assert (X2 : relates log_extends (bind m k))
      end.
      { apply (relates_bind _ log_extends_trans).
        - apply (relates_for_each _ log_extends_refl log_extends_trans).
          intros p. apply sample_log.
        - intros _. apply apex_log. }
      specialize (X2 s1).
      match goal with
      | |- context [bind ?m ?k s1] => destruct (bind m k s1) as [[u|e] s2]
      end; cbn [snd fst] in *; destruct X2 as (a2 & E2 & F2).
      * exists (a1 ++ a2), []. rewrite E2, E1, app_nil_r, <- app_assoc.
        split; [reflexivity|]. split; [apply Forall_app; auto | auto].
      * apply (Once _ s2 (a1 ++ a2)).
        -- apply Unexpected.
        -- rewrite E2, E1, <- app_assoc. reflexivity.
        -- apply Forall_app; auto.
  - exists a1, []. cbn. rewrite E1, app_nil_r. auto.
  - cbn [snd fst]. apply (Once _ s1 a1); [apply Unexpected | assumption..].
Qed.

(** X10: The messages [calculate_dome] writes itself ("Dome Calc: Invalid SI P
    range from PSIA." and "Unexpected Dome Calc Error: ...") never pile
    up: its cleanup removes them and an invocation appends at most one,
    so the log holds at most one copy of any of them afterwards. *)
Theorem dome_messages_do_not_accumulate (s : Sim) (m : string) :
  dome_message m ->
  (count_occ string_dec (errors (exec dome s)) m <= 1)%nat.
Proof.
  intros Hm. destruct (dome_log_shape s) as (added & tail & E & Fa & Lt & _).
  rewrite E, !count_occ_app.
  assert (C1 : count_occ string_dec
                 (filter (fun e => negb (Py.contains "Dome" e)) (errors s)) m
               = 0%nat).
  { apply count_occ_not_In. intros Hin. apply filter_In in Hin as [_ Hc].
    rewrite (dome_message_contains m Hm) in Hc. discriminate. }
  assert (C2 : count_occ string_dec added m = 0%nat).
  { apply count_occ_not_In. intros Hin.
    rewrite Forall_forall in Fa.
    exact (dome_message_not_adapter m Hm (Fa m Hin)). }
  assert (C3 : (count_occ string_dec tail m <= List.length tail)%nat)
    by apply count_occ_bound.
  lia.
Qed.

(* ------------------------------------------------------------------ *)
(** *** What the dome depends on *)

Lemma call_in_step out n1 v1 n2 v2 fluid :
  in_step dome_twin (call out n1 v1 n2 v2 fluid).
Proof.
  intros s t (Hp & Hh & Ha & Hb).
  destruct (call_dome PropsSI out n1 v1 n2 v2 fluid s)
    as (s' & Es & Ps & Hs & As & Bs).
  destruct (call_dome PropsSI out n1 v1 n2 v2 fluid t)
    as (t' & Et & Pt & Ht & At & Bt).
  rewrite Es, Et. cbn [fst snd]. split; [reflexivity|].
  unfold dome_twin. repeat split; congruence.
Qed.

Lemma modify_in_step (g : Sim -> Sim) :
  (forall s t, dome_twin s t -> dome_twin (g s) (g t)) ->
  in_step dome_twin (modify g).
Proof. apply in_step_modify. Qed.

Ltac twin_modify :=
  apply in_step_modify;
  let s := fresh "s" in
  let t := fresh "t" in
  intros s t (? & ? & ? & ?); destruct s, t; unfold dome_twin; cbn in *;
  repeat split; congruence.

Ltac twin_leaf := first [ apply call_in_step | twin_modify ].

Lemma sample_in_step p : in_step dome_twin (sample p).
Proof. unfold dome_sample. in_step_walk twin_leaf. Qed.

Lemma apex_in_step crit p_end : in_step dome_twin (apex crit p_end).
Proof.
  unfold dome_apex. destruct (crit * 0.9 <? p_end); [|apply in_step_ret].
  apply in_step_bind; [apply call_in_step|].
  intros [crit_h|]; [|apply in_step_ret].
  apply in_step_get_bind. intros s t H.
  pose proof H as (_ & _ & Ha & Hb). rewrite Ha, Hb.
  destruct ((p_min_psia t <=? crit * PA_TO_PSIA)
            && (crit * PA_TO_PSIA <=? p_max_psia t)).
  - clear Ha Hb. revert s t H.
    change (in_step dome_twin
              (bind
                 (modify (fun self =>
                            set_dome_p_pa (dome_p_pa self ++ [crit]) self))
                 (fun _ =>
                    bind
                      (modify (fun self =>
                                 set_dome_h_si
                                   (mkDomeH (liq (dome_h_si self) ++ [crit_h])
                                      (vap (dome_h_si self))) self))
                      (fun _ =>
                         modify (fun self =>
                                   set_dome_h_si
                                     (mkDomeH (liq (dome_h_si self))
                                        (vap (dome_h_si self) ++ [crit_h]))
                                     self))))).
    in_step_walk twin_leaf.
  - split; [reflexivity | exact H].
Qed.

Lemma dome_same_axis (s t : Sim) :
  p_min_psia t = p_min_psia s ->
  p_max_psia t = p_max_psia s ->
  result dome t = result dome s
  /\ dome_p_pa (exec dome t) = dome_p_pa (exec dome s)
  /\ dome_h_si (exec dome t) = dome_h_si (exec dome s).
Proof.
  intros Ha Hb. unfold result, exec, calculate_dome. rewrite !bind_modify.
  match goal with
  | |- fst (try_except_Exception ?b ?h ?t0) = fst (_ _ _ ?s0) /\ _ =>
      assert (G : in_step dome_twin (try_except_Exception b h));
      [|destruct (G t0 s0) as (Er & Ep & Eh & _);
        [unfold dome_twin; cbn; auto | auto]]
  end.
  apply in_step_try_except_Exception.
  - apply in_step_bind; [apply call_in_step|].
    intros [crit|]; [|apply in_step_ret].
    apply in_step_get_bind. intros a b H.
    pose proof H as (_ & _ & Hmin & Hmax).
    destruct (range_only_reads_bounds np_log10 np_logspace b a crit)
      as (Rs & Re & Rl); [congruence | congruence |].
    rewrite Rs, Re, Rl.
    destruct (p_end_pa b crit <=? p_start_pa b).
    + clear Hmin Hmax Rs Re Rl. revert a b H.
      change (in_step dome_twin
                (errors_append "Dome Calc: Invalid SI P range from PSIA.")).
      unfold errors_append. twin_modify.
    + generalize (pressures_pa_log np_log10 np_logspace b crit) as L.
      generalize (p_end_pa b crit) as p_end.
      intros p_end L. clear Hmin Hmax Rs Re Rl. revert a b H.
      change (in_step dome_twin
                (bind (for_each L sample) (fun _ => apex crit p_end))).
      apply in_step_bind.
      * apply in_step_for_each. intros p. apply sample_in_step.
      * intros _. apply apex_in_step.
  - intros e. unfold errors_append_once.
    apply in_step_modify. intros a b (Hp & Hh & Hmin & Hmax).
    destruct (Py.mem _ (errors a)), (Py.mem _ (errors b));
      destruct a, b; unfold dome_twin; cbn in *; repeat split; congruence.
Qed.

(** X11: The dome is a function of the pressure-axis bounds (and of the
    property service): two objects that agree on [p_min_psia] and
    [p_max_psia] get the same dome from [calculate_dome], whatever their
    parameters, logs and earlier domes are.  In particular recomputing
    the dome changes nothing in it. *)
Theorem dome_depends_on_pressure_axis (s t : Sim) :
  p_min_psia t = p_min_psia s ->
  p_max_psia t = p_max_psia s ->
  result dome t = result dome s
  /\ dome_p_pa (exec dome t) = dome_p_pa (exec dome s)
  /\ dome_h_si (exec dome t) = dome_h_si (exec dome s).
Proof. apply dome_same_axis. Qed.


(* ------------------------------------------------------------------ *)
(** *** What the dome computation leaves alone *)

Lemma dome_preserves {B} (f : Sim -> B) :
  ignores_dome f -> preserves f dome.
Proof.
  intros (Hl & Hh & Hp). pose proof Hl as [He Hc].
  unfold calculate_dome, dome_sample, dome_apex. preserve.
Qed.

(** X12: [calculate_dome] writes the dome lists and the log, and nothing else:
    parameters, axis bounds, window and plot rectangle, state points and
    performance values are as before. *)
Theorem dome_writes_only_dome (s : Sim) :
  let s' := exec dome s in
  (p_evap_psia s', p_cond_psia s', superheat_F s', subcooling_F s',
   eta_comp s')
  = (p_evap_psia s, p_cond_psia s, superheat_F s, subcooling_F s, eta_comp s)
  /\ (h_min_btu_lb s', h_max_btu_lb s', p_min_psia s', p_max_psia s',
      log_p_min s', log_p_max s')
     = (h_min_btu_lb s, h_max_btu_lb s, p_min_psia s, p_max_psia s,
        log_p_min s, log_p_max s)
  /\ (screen_width s', screen_height s', plot_x s', plot_y s', plot_width s',
      plot_height s')
     = (screen_width s, screen_height s, plot_x s, plot_y s, plot_width s,
        plot_height s)
  /\ state_points_si s' = state_points_si s
  /\ performance s' = performance s.
Proof.
  intros s'. subst s'. unfold exec.
  split; [|split; [|split; [|split]]].
  - apply (dome_preserves
             (fun t => (p_evap_psia t, p_cond_psia t, superheat_F t,
                        subcooling_F t, eta_comp t))). ignores.
  - apply (dome_preserves
             (fun t => (h_min_btu_lb t, h_max_btu_lb t, p_min_psia t,
                        p_max_psia t, log_p_min t, log_p_max t))). ignores.
  - apply (dome_preserves
             (fun t => (screen_width t, screen_height t, plot_x t, plot_y t,
                        plot_width t, plot_height t))). ignores.
  - apply (dome_preserves state_points_si). ignores.
  - apply (dome_preserves performance). ignores.
Qed.

(** X13: The two computations of the constructor do not interfere: run in
    either order they leave the same dome, the same state points and the
    same performance values. *)
Theorem dome_and_cycle_commute (s : Sim) :
  let a := exec cycle (exec dome s) in
  let b := exec dome (exec cycle s) in
  dome_p_pa a = dome_p_pa b
  /\ dome_h_si a = dome_h_si b
  /\ state_points_si a = state_points_si b
  /\ performance a = performance b.
Proof.
  intros a b. subst a b.
  assert (Dp : forall u, dome_p_pa (exec cycle u) = dome_p_pa u).
  { intros u. apply (cycle_preserves PropsSI dome_p_pa). ignores. }
  assert (Dh : forall u, dome_h_si (exec cycle u) = dome_h_si u).
  { intros u. apply (cycle_preserves PropsSI dome_h_si). ignores. }
  assert (Sp : forall u, state_points_si (exec dome u) = state_points_si u).
  { intros u. apply (dome_preserves state_points_si). ignores. }
  assert (Pf : forall u, performance (exec dome u) = performance u).
  { intros u. apply (dome_preserves performance). ignores. }
  assert (A : p_min_psia (exec cycle s) = p_min_psia s)
    by (apply (cycle_preserves PropsSI p_min_psia); ignores).
  assert (B : p_max_psia (exec cycle s) = p_max_psia s)
    by (apply (cycle_preserves PropsSI p_max_psia); ignores).
  destruct (dome_same_axis s (exec cycle s) A B)
    as (_ & Ep & Eh).
  destruct (cycle_depends_on_parameters PropsSI s (exec dome s))
    as (_ & Es & Ef);
    [ apply (dome_preserves p_evap_psia); ignores
    | apply (dome_preserves p_cond_psia); ignores
    | apply (dome_preserves superheat_F); ignores
    | apply (dome_preserves subcooling_F); ignores
    | apply (dome_preserves eta_comp); ignores
    | ].
  rewrite Dp, Dh, Sp, Pf, Ep, Eh, Es, Ef. auto.
Qed.

End DomeMore.
(* ================================================================== *)
(** ** State descriptions *)
(* ================================================================== *)

Section Descriptions.

Variable PropsSI :
  string -> string -> float -> string -> float -> string -> service_result.

Local Open Scope float_scope.

Local Notation call := (safe_coolprop_call PropsSI).
Local Notation reply := (adapter_reply PropsSI).
Local Notation cycle := (calculate_cycle PropsSI).
Local Notation describe := (get_state_description PropsSI).

Lemma bind_get A (k : Sim -> M A) s : bind get k s = k s s.
Proof. reflexivity. Qed.

Lemma returns_in_ret A (P : A -> Prop) (a : A) : P a -> returns_in P (ret a).
Proof. intros H s b E. injection E as <-. exact H. Qed.

Lemma returns_in_bind A C (P : C -> Prop) (m : M A) (k : A -> M C) :
  (forall a, returns_in P (k a)) -> returns_in P (bind m k).
Proof.
  intros H s c. unfold bind. destruct (m s) as [[a|e] s1]; cbn [fst].
  - apply H.
  - discriminate.
Qed.

Ltac label_in_list := cbn; repeat (first [left; reflexivity | right]).

Ltac returns_walk :=
  repeat first
    [ apply returns_in_ret; label_in_list
    | apply returns_in_bind; intros ?
    | match goal with
      | |- returns_in _ (if ?c then _ else _) => destruct c
      | |- returns_in _ (match ?x with _ => _ end) => destruct x
      end
    | progress cbv zeta ].

(** X14: [get_state_description] answers with one of eight labels, whatever
    the name, the stored point and the property service are. *)
Theorem description_is_a_label (state_name : string) (s : Sim) (label : string) :
  result (describe state_name) s = Normal label ->
  In label state_labels.
Proof.
  revert s label.
  change (returns_in (fun l => In l state_labels) (describe state_name)).
  unfold get_state_description, state_labels. returns_walk.
Qed.

Lemma describe_preserves {B} (f : Sim -> B) state_name :
  ignores_log f -> preserves f (describe state_name).
Proof.
  intros Hl. pose proof Hl as [He Hc].
  unfold get_state_description. preserve.
Qed.

Lemma describe_log state_name : relates log_extends (describe state_name).
Proof.
  unfold get_state_description.
  relate (fun s => adapter_extension_refl (errors s))
         (fun a b c => adapter_extension_trans (errors a) (errors b) (errors c))
         ltac:(apply (call_log PropsSI)).
Qed.

(** X15: Asking for a description is not a pure read: it sends up to three
    requests to the property service and a failed one is logged.  But it
    writes nothing else: state points, performance values, parameters,
    axis bounds and dome are as before, the log only grows, and only by
    messages of the adapter.  For a name without a stored point the answer
    is "Unknown/Error" and the object is left exactly as it was. *)
Theorem description_touches_only_log (state_name : string) (s : Sim) :
  let s' := exec (describe state_name) s in
  state_points_si s' = state_points_si s
  /\ performance s' = performance s
  /\ (p_evap_psia s', p_cond_psia s', superheat_F s', subcooling_F s',
      eta_comp s')
     = (p_evap_psia s, p_cond_psia s, superheat_F s, subcooling_F s,
        eta_comp s)
  /\ (dome_p_pa s', dome_h_si s') = (dome_p_pa s, dome_h_si s)
  /\ adapter_extension (errors s) (errors s')
  /\ (state_points_get state_name (state_points_si s) = None ->
      describe state_name s = (Normal "Unknown/Error"%string, s)).
Proof.
  intros s'. subst s'. unfold exec.
  split; [|split; [|split; [|split; [|split]]]].
  - apply (describe_preserves state_points_si). ignores.
  - apply (describe_preserves performance). ignores.
  - apply (describe_preserves
             (fun t => (p_evap_psia t, p_cond_psia t, superheat_F t,
                        subcooling_F t, eta_comp t))). ignores.
  - apply (describe_preserves (fun t => (dome_p_pa t, dome_h_si t))). ignores.
  - apply describe_log.
  - intros H. unfold get_state_description. rewrite bind_get. cbv beta.
    rewrite H. reflexivity.
Qed.

(** What the description of a point with a stored quality of exactly 1,
    as the solver stores for point 1, or exactly 0, as for point 3, can
    be. *)
Lemma describe_by_quality state_name s pt :
  state_points_get state_name (state_points_si s) = Some pt ->
  match reply "T" "P" (PyFloat (pt_p pt)) "Q" (PyFloat 0.5) REFRIGERANT with
  | Raised e => result (describe state_name) s = Raised e
  | Normal None => result (describe state_name) s = Normal "Sat Temp Error"%string
  | Normal (Some T_sat_k) =>
      (pt_Q pt = Some 1.0 ->
       result (describe state_name) s
       = Normal (if T_sat_k + 0.1 <? pt_T pt then "Superheated Vapor"%string
                 else "Saturated Vapor"%string))
      /\ (pt_Q pt = Some 0.0 ->
          result (describe state_name) s
          = Normal (if pt_T pt <? T_sat_k - 0.1 then "Subcooled Liquid"%string
                    else "Saturated Liquid"%string))
  end.
Proof.
  intros H. unfold result, get_state_description.
  rewrite bind_get. cbv beta. rewrite H. cbv zeta.
  rewrite bind_call.
  destruct (reply "T" "P" (PyFloat (pt_p pt)) "Q" (PyFloat 0.5) REFRIGERANT)
    as [[T_sat_k|]|e]; try reflexivity.
  split; intros ->.
  - change (abs (1.0 - 0.0) <? 1e-4) with false.
    change (abs (1.0 - 1.0) <? 1e-4) with true.
    cbn [andb]. destruct (T_sat_k + 0.1 <? pt_T pt); reflexivity.
  - change (abs (0.0 - 0.0) <? 1e-4) with true.
    cbn [andb]. destruct (pt_T pt <? T_sat_k - 0.1); reflexivity.
Qed.

(** X16: After [calculate_cycle], point 1 is described as superheated or
    saturated vapour and point 3 as subcooled or saturated liquid (or by
    one of the two error labels): the quality the solver stored with them
    decides, and only the temperature against the saturation temperature
    the service gives at quality 0.5, with a tolerance of 0.1 K, tells
    the two apart. *)
Theorem description_of_cycle_points (s : Sim) (label : string) :
  let s1 := exec cycle s in
  (result (describe "1") s1 = Normal label ->
   In label ["Unknown/Error"; "Sat Temp Error"; "Superheated Vapor";
             "Saturated Vapor"]%string)
  /\ (result (describe "3") s1 = Normal label ->
      In label ["Unknown/Error"; "Sat Temp Error"; "Subcooled Liquid";
                "Saturated Liquid"]%string).
Proof.
  intros s1.
  destruct (cycle_levels PropsSI s) as (L1 & _ & _ & L3 & _).
  fold s1 in L1, L3. split; intros Hr.
  - destruct (point1 (state_points_si s1)) as [pt|] eqn:E.
    + destruct (L1 pt eq_refl) as [_ Q].
      pose proof (describe_by_quality "1" s1 pt E) as D.
      destruct (reply "T" "P" (PyFloat (pt_p pt)) "Q" (PyFloat 0.5) REFRIGERANT)
        as [[T|]|e].
      * destruct D as [D _]. rewrite (D Q) in Hr. injection Hr as <-.
        destruct (T + 0.1 <? pt_T pt); label_in_list.
      * rewrite D in Hr. injection Hr as <-. label_in_list.
      * rewrite D in Hr. discriminate.
    + unfold result, get_state_description in Hr.
      rewrite bind_get in Hr. cbv beta in Hr.
      change (state_points_get "1" (state_points_si s1))
        with (point1 (state_points_si s1)) in Hr.
      rewrite E in Hr. injection Hr as <-. label_in_list.
  - destruct (point3 (state_points_si s1)) as [pt|] eqn:E.
    + destruct (L3 pt eq_refl) as [_ Q].
      pose proof (describe_by_quality "3" s1 pt E) as D.
      destruct (reply "T" "P" (PyFloat (pt_p pt)) "Q" (PyFloat 0.5) REFRIGERANT)
        as [[T|]|e].
      * destruct D as [_ D]. rewrite (D Q) in Hr. injection Hr as <-.
        destruct (pt_T pt <? T - 0.1); label_in_list.
      * rewrite D in Hr. injection Hr as <-. label_in_list.
      * rewrite D in Hr. discriminate.
    + unfold result, get_state_description in Hr.
      rewrite bind_get in Hr. cbv beta in Hr.
      change (state_points_get "3" (state_points_si s1))
        with (point3 (state_points_si s1)) in Hr.
      rewrite E in Hr. injection Hr as <-. label_in_list.
Qed.

End Descriptions.
(* ================================================================== *)
(** ** Layout, events and keyboard input *)
(* ================================================================== *)

Section Layout.

Local Open Scope Z_scope.

(** X17: [update_layout] puts the plot at (95, 60) and makes it the window
    less the margins, but never smaller than 50 by 50; for a window at
    least 510 wide the right edge of the plot is 365 pixels from the right
    edge of the window.  Running it again changes nothing. *)
Theorem update_layout_bounds (self : Sim) :
  let s' := update_layout self in
  plot_x s' = 95 /\ plot_y s' = 60
  /\ plot_width s' = Z.max 50 (screen_width self - 460)
  /\ plot_height s' = Z.max 50 (screen_height self - 130)
  /\ (510 <= screen_width self ->
      plot_x s' + plot_width s' = screen_width self - 365)
  /\ update_layout s' = s'.
Proof.
  intros s'. subst s'. unfold update_layout, PLOT_MARGIN_RIGHT,
    PLOT_MARGIN_LEFT, PLOT_MARGIN_TOP, PLOT_MARGIN_BOTTOM, INFO_PANEL_WIDTH.
  cbn [plot_x plot_y plot_width plot_height screen_width screen_height].
  destruct (Z.ltb_spec (screen_width self - 95 - (340 + 25)) 50);
    destruct (Z.ltb_spec (screen_height self - 60 - 70) 50);
    repeat split; try lia; reflexivity.
Qed.

End Layout.

Section Input.

Variable PropsSI :
  string -> string -> float -> string -> float -> string -> service_result.

Local Open Scope float_scope.

Local Notation cycle := (calculate_cycle PropsSI).
Local Notation handle := (handle_input PropsSI).

Lemma handle_input_handled (k : key) (s : Sim) :
  handled_key k = true ->
  handle (KEYDOWN k) s = cycle (clamp_pressures (key_effect k s)).
Proof. destruct k; intros H; try discriminate H; reflexivity. Qed.

Lemma unhandled_unchanged (ev : event) (s : Sim) :
  recalculates ev = false -> handle ev s = (Normal tt, s).
Proof.
  destruct ev as [| | k |]; try reflexivity.
  destruct k; intros H; try discriminate H; reflexivity.
Qed.

Lemma relayout_run (w h : Z) (s : Sim) :
  relayout PropsSI w h s = cycle (update_layout (set_screen_size w h s)).
Proof. reflexivity. Qed.

(** X18: A resize event sets the window to at least 950 by 700, so the plot
    is the window less 460 by 130 pixels, at least 490 by 570: the floor
    of [update_layout] is never reached this way.  The loop keeps
    running, and parameters and dome are untouched. *)
Theorem resize_keeps_plot_large (size : Z * Z) (w h : Z) (app : App) :
  let app' := snd (on_event PropsSI size (VIDEORESIZE w h) app) in
  let s' := sim app' in
  (screen_width s' = Z.max 950 w /\ screen_height s' = Z.max 700 h
   /\ plot_width s' = screen_width s' - 460 /\ 490 <= plot_width s'
   /\ plot_height s' = screen_height s' - 130 /\ 570 <= plot_height s')%Z
  /\ running app' = running app
  /\ fullscreen app' = fullscreen app
  /\ (p_evap_psia s', p_cond_psia s', superheat_F s', subcooling_F s',
      eta_comp s')
     = (p_evap_psia (sim app), p_cond_psia (sim app), superheat_F (sim app),
        subcooling_F (sim app), eta_comp (sim app))
  /\ (dome_p_pa s', dome_h_si s') = (dome_p_pa (sim app), dome_h_si (sim app)).
Proof.
  intros app' s'. subst s' app'. cbn [on_event snd sim running fullscreen].
  rewrite relayout_run.
  set (s0 := update_layout _).
  assert (L : (screen_width s0, screen_height s0, plot_width s0, plot_height s0)
              = (Z.max 950 w, Z.max 700 h, Z.max 950 w - 460,
                 Z.max 700 h - 130)%Z).
  { subst s0. unfold update_layout, PLOT_MARGIN_RIGHT, PLOT_MARGIN_LEFT,
      PLOT_MARGIN_TOP, PLOT_MARGIN_BOTTOM, INFO_PANEL_WIDTH,
      MIN_SCREEN_WIDTH, MIN_SCREEN_HEIGHT.
    cbn [plot_width plot_height screen_width screen_height set_screen_size].
    destruct (Z.ltb_spec (Z.max 950 w - 95 - (340 + 25)) 50);
      destruct (Z.ltb_spec (Z.max 700 h - 60 - 70) 50);
      rewrite !pair_equal_spec; repeat split; lia. }
  assert (K : (screen_width (snd (cycle s0)), screen_height (snd (cycle s0)),
               plot_width (snd (cycle s0)), plot_height (snd (cycle s0)))
              = (screen_width s0, screen_height s0, plot_width s0,
                 plot_height s0)).
  { apply (cycle_preserves PropsSI
             (fun t => (screen_width t, screen_height t, plot_width t,
                        plot_height t))). ignores. }
  rewrite L in K. injection K as K1 K2 K3 K4.
  split; [rewrite K1, K2, K3, K4; repeat split; lia|].
  split; [reflexivity|]. split; [reflexivity|]. split.
  - etransitivity;
      [apply (cycle_preserves PropsSI
                (fun t => (p_evap_psia t, p_cond_psia t, superheat_F t,
                           subcooling_F t, eta_comp t))); ignores
      | reflexivity].
  - etransitivity;
      [apply (cycle_preserves PropsSI (fun t => (dome_p_pa t, dome_h_si t)));
       ignores
      | reflexivity].
Qed.

Lemma reset_then_clamp (s : Sim) :
  p_min_psia s = 10 -> p_max_psia s = 400 ->
  let s0 := clamp_pressures (reset_parameters s) in
  p_evap_psia s0 = 35.0 /\ p_cond_psia s0 = 160.0 /\ superheat_F s0 = 10.0
  /\ subcooling_F s0 = 5.0 /\ eta_comp s0 = 0.75.
Proof.
  intros Hmin Hmax. unfold clamp_pressures, reset_parameters.
  cbn [p_evap_psia p_cond_psia superheat_F subcooling_F eta_comp
       p_min_psia p_max_psia set_p_evap_psia set_p_cond_psia].
  rewrite Hmin, Hmax. repeat split.
Qed.

(** X19: The reset key restores the five default parameters, which the clamps
    leave alone for the pressure axis of the constructor (10 to 400
    psia), and recalculates: state points and performance values are
    those of the default parameters, whatever was tuned before. *)
Theorem reset_key_restores_defaults (s t : Sim) :
  p_min_psia s = 10 -> p_max_psia s = 400 ->
  let s' := exec (handle (KEYDOWN K_r)) s in
  (p_evap_psia s', p_cond_psia s', superheat_F s', subcooling_F s',
   eta_comp s') = (35.0, 160.0, 10.0, 5.0, 0.75)
  /\ state_points_si s' = state_points_si (exec cycle (reset_parameters t))
  /\ performance s' = performance (exec cycle (reset_parameters t)).
Proof.
  intros Hmin Hmax s'.
  assert (R : s' = exec cycle (clamp_pressures (reset_parameters s))).
  { subst s'. unfold exec. rewrite handle_input_handled by reflexivity.
    reflexivity. }
  rewrite R. clear R s'.
  destruct (reset_then_clamp s Hmin Hmax) as (P1 & P2 & P3 & P4 & P5).
  revert P1 P2 P3 P4 P5.
  generalize (clamp_pressures (reset_parameters s)) as s0.
  intros s0 P1 P2 P3 P4 P5.
  destruct (cycle_keeps_parameters PropsSI s0) as (K1 & K2 & K3 & K4 & K5).
  cbv zeta in K1, K2, K3, K4, K5.
  destruct (cycle_depends_on_parameters PropsSI (reset_parameters t) s0
              P1 P2 P3 P4 P5) as (_ & Es & Ef).
  split; [|split; [exact Es | exact Ef]].
  rewrite K1, K2, K3, K4, K5, P1, P2, P3, P4, P5. reflexivity.
Qed.

End Input.

Section DrawDome.

Variable PropsSI :
  string -> string -> float -> string -> float -> string -> service_result.
Variable np_log10 : float -> float.
Variable np_logspace : float -> float -> Z -> list float.

Local Open Scope float_scope.

Local Notation dome := (calculate_dome PropsSI np_log10 np_logspace).

Lemma pixel_raises self h log_p e :
  pixel self h log_p = Raised e -> arithmetic_error e = true.
Proof.
  unfold pixel, Py.truediv, Py.float_of_int, Py.int_of_float.
  repeat match goal with
         | |- context [if ?c then _ else _] => destruct c
         | |- context [match Prim2SF ?x with _ => _ end] => destruct (Prim2SF x)
         end;
    intros H; try discriminate H; injection H as <-; reflexivity.
Qed.

Lemma map_coordinates_raises self h p e :
  map_coordinates np_log10 self h p = Raised e -> arithmetic_error e = true.
Proof.
  unfold map_coordinates. destruct p as [p|]; [|intros H; injection H as <-; reflexivity].
  destruct h as [h|]; [|discriminate].
  destruct (negb _); [discriminate|].
  destruct (pixel self h _) eqn:E; [discriminate|].
  intros H. injection H as <-. exact (pixel_raises _ _ _ _ E).
Qed.

Lemma dome_screen_points_aligned self :
  List.length (liq (dome_h_si self)) = List.length (dome_p_pa self) ->
  List.length (vap (dome_h_si self)) = List.length (dome_p_pa self) ->
  forall indices acc_liq acc_vap,
    (forall i, In i indices -> (i < List.length (dome_p_pa self))%nat) ->
    match dome_screen_points np_log10 self indices acc_liq acc_vap with
    | Raised e => arithmetic_error e = true
    | Normal (points_liq, points_vap) =>
        (List.length points_liq
         <= List.length acc_liq + List.length indices)%nat
        /\ (List.length points_vap
            <= List.length acc_vap + List.length indices)%nat
    end.
Proof.
  intros Hl Hv. induction indices as [|i rest IH]; intros acc_liq acc_vap Hi.
  - cbn. lia.
  - cbn [dome_screen_points].
    assert (Li : (i < List.length (dome_p_pa self))%nat)
      by (apply Hi; left; reflexivity).
    destruct (nth_error (dome_p_pa self) i) as [p|] eqn:Ep;
      [|apply nth_error_None in Ep; lia].
    destruct (nth_error (liq (dome_h_si self)) i) as [hl|] eqn:El;
      [|apply nth_error_None in El; lia].
    destruct (nth_error (vap (dome_h_si self)) i) as [hv|] eqn:Ev;
      [|apply nth_error_None in Ev; lia].
    destruct (map_coordinates np_log10 self (Some (hl * J_KG_TO_BTU_LB))
                (Some (p * PA_TO_PSIA))) as [c1|e1] eqn:M1;
      [|exact (map_coordinates_raises _ _ _ _ M1)].
    destruct (map_coordinates np_log10 self (Some (hv * J_KG_TO_BTU_LB))
                (Some (p * PA_TO_PSIA))) as [c2|e2] eqn:M2;
      [|exact (map_coordinates_raises _ _ _ _ M2)].
    match goal with
    | |- match dome_screen_points _ _ _ ?a ?b with _ => _ end =>
        specialize (IH a b (fun j Hj => Hi j (or_intror Hj)));
        assert (La : (List.length a <= S (List.length acc_liq))%nat)
          by (destruct c1; rewrite ?List.length_app; cbn; lia);
        assert (Lb : (List.length b <= S (List.length acc_vap))%nat)
          by (destruct c2; rewrite ?List.length_app; cbn; lia);
        destruct (dome_screen_points np_log10 self rest a b) as [[l1 l2]|e]
    end; [|exact IH].
    cbn [List.length]. lia.
Qed.

(** X20: Drawing the dome that [calculate_dome] left never runs off the end
    of a list: [draw_dome] either draws, or fails with an exception of
    the coordinate arithmetic.  It draws at most two open grey polylines
    of width 2, each with at least two points and no more than the dome
    has samples, and none at all for a dome of fewer than two samples. *)
Theorem draw_dome_after_calculate_dome (s : Sim) :
  let s' := exec dome s in
  match draw_dome np_log10 s' with
  | Raised e => arithmetic_error e = true
  | Normal calls =>
      (List.length calls <= 2)%nat
      /\ Forall (fun c =>
                   ln_color c = GRAY /\ ln_closed c = false
                   /\ ln_width c = 2%Z
                   /\ (2 <= List.length (ln_points c)
                       <= List.length (dome_p_pa s'))%nat) calls
      /\ ((List.length (dome_p_pa s') < 2)%nat -> calls = [])
  end.
Proof.
  intros s'.
  destruct (dome_aligned PropsSI np_log10 np_logspace s) as (Hl & Hv & _).
  fold s' in Hl, Hv. unfold draw_dome.
  destruct (Nat.ltb_spec (List.length (dome_p_pa s')) 2) as [Lt|Ge].
  - repeat split; [cbn; lia | constructor].
  - pose proof (dome_screen_points_aligned s' Hl Hv
                  (seq 0 (List.length (dome_p_pa s'))) [] []) as A.
    destruct (dome_screen_points np_log10 s' _ [] []) as [[l1 l2]|e].
    + destruct A as [A1 A2].
      { intros i Hi. apply in_seq in Hi. lia. }
      rewrite length_seq in A1, A2. cbn [List.length Nat.add] in A1, A2.
      split; [|split].
      * destruct (1 <? List.length l1)%nat, (1 <? List.length l2)%nat;
          cbn; lia.
      * apply Forall_app. split.
        -- destruct (Nat.ltb_spec 1 (List.length l1)); constructor;
             [|constructor]. cbn. repeat split; lia.
        -- destruct (Nat.ltb_spec 1 (List.length l2)); constructor;
             [|constructor]. cbn. repeat split; lia.
      * intros Lt. lia.
    + apply A. intros i Hi. apply in_seq in Hi. lia.
Qed.

End DrawDome.
(* ================================================================== *)
(** ** The envelope of the parameters *)
(* ================================================================== *)

Section Envelope.

Variable PropsSI :
  string -> string -> float -> string -> float -> string -> service_result.

Local Open Scope float_scope.

Local Notation call := (safe_coolprop_call PropsSI).
Local Notation cycle := (calculate_cycle PropsSI).
Local Notation handle := (handle_input PropsSI).

Lemma grid_checked : chain_ok step_separated pressure_grid = true.
Proof. vm_compute. reflexivity. Qed.

Lemma envelope_guards (s : Sim) : envelope s -> guards_pass s.
Proof.
  intros (_ & _ & Hlo & Hhi & Hgap & _ & _ & _ & Heta).
  assert (Pc : (0 <? PSIA_TO_PA) = true) by (vm_compute; reflexivity).
  assert (Fc : (PSIA_TO_PA <? infinity) = true) by (vm_compute; reflexivity).
  assert (P5 : (0 <? 5) = true) by reflexivity.
  assert (F5 : (5 <? infinity) = true) by reflexivity.
  split.
  - destruct (chain_covers step_separated (p_evap_psia s)) with
      (l := tl pressure_grid) (a := 10) as (u & v & Huv & Hu & Hv).
    + intros a b H. apply andb_true_iff in H as [H _].
      apply ltb_true in H. tauto.
    + exact grid_checked.
    + exact Hlo.
    + replace (last (tl pressure_grid) 10) with 398
        by (vm_compute; reflexivity).
      exact Hhi.
    + vm_compute. discriminate.
    + apply andb_true_iff in Huv as [Pu Sep].
      assert (Px : (0 <? p_evap_psia s) = true)
        by (apply (ltb_leb_trans 0 u); assumption).
      pose proof (leb_mul_mono (p_evap_psia s) v PSIA_TO_PA Px Hv Pc Fc) as M1.
      destruct (leb_add_mono u (p_evap_psia s) 5 Pu Hu P5 F5) as [A1 A2].
      pose proof (leb_trans _ _ _ A1 Hgap) as A3.
      pose proof (leb_mul_mono (u + 5) (p_cond_psia s) PSIA_TO_PA A2 A3 Pc Fc)
        as M2.
      apply ltb_not_leb.
      apply (leb_ltb_trans _ _ _ M1).
      apply (ltb_leb_trans _ _ _ Sep M2).
  - apply ltb_not_leb. apply (ltb_leb_trans 0 0.1); [reflexivity | exact Heta].
Qed.

Lemma clamp_envelope (s : Sim) :
  p_min_psia s = 10 -> p_max_psia s = 400 ->
  (0.1 <=? superheat_F s) = true -> (0.1 <=? subcooling_F s) = true ->
  (0.1 <=? eta_comp s) = true ->
  envelope (clamp_pressures s).
Proof.
  intros Hmin Hmax Hsh Hsc Heta. unfold envelope, clamp_pressures.
  cbn [p_min_psia p_max_psia p_evap_psia p_cond_psia superheat_F subcooling_F
       eta_comp set_p_evap_psia set_p_cond_psia].
  rewrite Hmin, Hmax. change (400 - 2.0) with 398.
  set (pe := Py.max 10 (Py.min 398 (p_evap_psia s))).
  assert (N10 : not_nan 10) by discriminate.
  assert (N398 : not_nan 398) by discriminate.
  assert (N400 : not_nan 400) by discriminate.
  assert (Lo : (10 <=? pe) = true) by (apply max_ge_l; exact N10).
  assert (Hi : (pe <=? 398) = true).
  { apply max_le; [reflexivity | apply min_le_l; exact N398]. }
  assert (P10 : (0 <? pe) = true)
    by (apply (ltb_leb_trans 0 10); [reflexivity | exact Lo]).
  destruct (leb_add_mono pe 398 5 P10 Hi eq_refl eq_refl) as [A1 A2].
  change (398 + 5) with 403 in A1.
  assert (N5 : not_nan (pe + 5)) by (apply ltb_true in A2; tauto).
  repeat split; try assumption.
  - apply max_ge_l. exact N5.
  - apply max_le; [exact A1|].
    apply (leb_trans _ 400); [apply min_le_l; exact N400 | reflexivity].
Qed.

Lemma key_effect_margins (k : key) (s : Sim) :
  envelope s ->
  let s' := key_effect k s in
  p_min_psia s' = 10 /\ p_max_psia s' = 400
  /\ (0.1 <=? superheat_F s') = true /\ (0.1 <=? subcooling_F s') = true
  /\ (0.1 <=? eta_comp s') = true.
Proof.
  intros (Hmin & Hmax & _ & _ & _ & _ & Hsh & Hsc & Heta).
  assert (N01 : not_nan 0.1) by discriminate.
  assert (Up : forall x c,
             (0.1 <=? x) = true -> (0 <? c) = true -> (c <? infinity) = true ->
             (0.1 <=? 0.1 + c) = true ->
             (0.1 <=? x + c) = true).
  { intros x c Hx Pc Fc H0.
    destruct (leb_add_mono 0.1 x c eq_refl Hx Pc Fc) as [A _].
    apply (leb_trans _ _ _ H0 A). }
  destruct k; cbn [key_effect];
    cbn [p_min_psia p_max_psia superheat_F subcooling_F eta_comp
         set_p_evap_psia set_p_cond_psia set_superheat_F set_subcooling_F
         set_eta_comp reset_parameters];
    repeat split; try assumption; try reflexivity;
    try (apply max_ge_l; exact N01);
    try (apply Up; [assumption | reflexivity..]).
  - (* E: min(1.0, eta + 0.01) *)
    apply min_ge; [reflexivity|]. left. apply Up; [assumption | reflexivity..].
  - (* H: max(1.0, superheat - 10.0) *)
    apply (leb_trans _ 1.0); [reflexivity | apply max_ge_l; discriminate].
Qed.

Lemma step_envelope (k : key) (s : Sim) :
  envelope s -> envelope (clamp_pressures (key_effect k s)).
Proof.
  intros H. destruct (key_effect_margins k s H) as (A & B & C & D & E).
  apply clamp_envelope; assumption.
Qed.

Lemma envelope_same_parameters (s t : Sim) :
  (p_min_psia t, p_max_psia t, p_evap_psia t, p_cond_psia t, superheat_F t,
   subcooling_F t, eta_comp t)
  = (p_min_psia s, p_max_psia s, p_evap_psia s, p_cond_psia s, superheat_F s,
     subcooling_F s, eta_comp s) ->
  envelope s -> envelope t.
Proof.
  intros E. rewrite !pair_equal_spec in E.
  destruct E as ((((((E1 & E2) & E3) & E4) & E5) & E6) & E7).
  unfold envelope. rewrite E1, E2, E3, E4, E5, E6, E7. auto.
Qed.

Lemma cycle_envelope (s : Sim) : envelope s -> envelope (exec cycle s).
Proof.
  apply envelope_same_parameters.
  apply (cycle_preserves PropsSI
           (fun t => (p_min_psia t, p_max_psia t, p_evap_psia t, p_cond_psia t,
                      superheat_F t, subcooling_F t, eta_comp t))).
  ignores.
Qed.

Lemma exec_handle_handled (k : key) (s : Sim) :
  handled_key k = true ->
  exec (handle (KEYDOWN k)) s = exec cycle (clamp_pressures (key_effect k s)).
Proof.
  intros H. unfold exec. rewrite handle_input_handled by exact H. reflexivity.
Qed.

Lemma exec_handle_unhandled (ev : event) (s : Sim) :
  recalculates ev = false -> exec (handle ev) s = s.
Proof.
  intros H. unfold exec. rewrite (unhandled_unchanged PropsSI) by exact H. reflexivity.
Qed.

Lemma handle_envelope (ev : event) (s : Sim) :
  envelope s -> envelope (exec (handle ev) s).
Proof.
  intros H. destruct (recalculates ev) eqn:R.
  - destruct ev as [| |k|]; try discriminate R. cbn [recalculates] in R.
    rewrite exec_handle_handled by exact R.
    apply cycle_envelope, step_envelope, H.
  - rewrite exec_handle_unhandled by exact R. exact H.
Qed.

End Envelope.

Section GuardedRuns.

Variable PropsSI :
  string -> string -> float -> string -> float -> string -> service_result.
Variable np_log10 : float -> float.
Variable np_logspace : float -> float -> Z -> list float.

Local Open Scope float_scope.

Local Notation call := (safe_coolprop_call PropsSI).
Local Notation cycle := (calculate_cycle PropsSI).
Local Notation dome := (calculate_dome PropsSI np_log10 np_logspace).
Local Notation handle := (handle_input PropsSI).

Lemma guards_same_parameters (s t : Sim) :
  (p_evap_psia t, p_cond_psia t, eta_comp t)
  = (p_evap_psia s, p_cond_psia s, eta_comp s) ->
  guards_pass s -> guards_pass t.
Proof.
  intros E. rewrite !pair_equal_spec in E. destruct E as ((E1 & E2) & E3).
  unfold guards_pass. rewrite E1, E2, E3. auto.
Qed.

Lemma run_extends_refl s : run_extends s s.
Proof. exists []. rewrite app_nil_r. split; [reflexivity | constructor]. Qed.

Lemma guarded_refl s : guarded_run s s.
Proof. intros G. split; [exact G | apply run_extends_refl]. Qed.

Lemma guarded_trans a b c :
  guarded_run a b -> guarded_run b c -> guarded_run a c.
Proof.
  intros Hab Hbc Ga. destruct (Hab Ga) as (Gb & x & Ex & Fx).
  destruct (Hbc Gb) as (Gc & y & Ey & Fy). split; [exact Gc|].
  exists (x ++ y). rewrite Ey, Ex, app_assoc.
  split; [reflexivity | apply Forall_app; auto].
Qed.

Lemma call_guarded out n1 v1 n2 v2 fluid :
  relates guarded_run (call out n1 v1 n2 v2 fluid).
Proof.
  intros s G. split.
  - apply (guards_same_parameters s); [|exact G].
    apply (safe_coolprop_call_frame PropsSI _
             (fun t => (p_evap_psia t, p_cond_psia t, eta_comp t)));
      intros; reflexivity.
  - destruct (safe_coolprop_call_log PropsSI out n1 v1 n2 v2 fluid s)
      as [E | m E Hm _]; unfold exec in E.
    + exists []. rewrite app_nil_r. split; [exact E | constructor].
    + exists [m]. split; [exact E|]. constructor; [left; exact Hm | constructor].
Qed.

Lemma modify_guarded (g : Sim -> Sim) :
  (forall s, errors (g s) = errors s) ->
  (forall s, (p_evap_psia (g s), p_cond_psia (g s), eta_comp (g s))
             = (p_evap_psia s, p_cond_psia s, eta_comp s)) ->
  relates guarded_run (modify g).
Proof.
  intros He Hp s G. unfold modify. cbn [snd]. split.
  - apply (guards_same_parameters s); [apply Hp | exact G].
  - exists []. rewrite app_nil_r, He. split; [reflexivity | constructor].
Qed.

Lemma warning_guarded :
  relates guarded_run
    (errors_append "Warning: Isentropic enthalpy rise <= 0").
Proof.
  intros s G. split; [exact G|].
  eexists. split; [reflexivity|]. constructor; [right; reflexivity | constructor].
Qed.

Lemma get_guarded A (k : Sim -> M A) :
  (forall self, guards_pass self -> relates guarded_run (k self)) ->
  relates guarded_run (bind get k).
Proof. intros H s G. exact (H s G s G). Qed.

Ltac guarded_walk :=
  repeat first
    [ apply call_guarded
    | apply warning_guarded
    | apply modify_guarded; intros ?; reflexivity
    | apply (relates_ret _ guarded_refl)
    | apply (relates_lift _ guarded_refl)
    | match goal with
      | |- relates _ (bind get _) =>
          let self := fresh "self" in
          let G1 := fresh "G" in
          let G2 := fresh "G" in
          apply get_guarded; intros self [G1 G2]; cbv zeta;
          rewrite ?G1, ?G2; cbv iota
      end
    | apply (relates_bind _ guarded_trans); [|intros ?]
    | match goal with
      | |- relates _ (if ?c then _ else _) => destruct c
      | |- relates _ (match ?x with _ => _ end) => destruct x
      end
    | progress cbv zeta ].

Lemma guarded_cycle_log (s : Sim) :
  guards_pass s ->
  exists added,
    errors (exec cycle s) = filter kept_by_cycle (errors s) ++ added
    /\ Forall run_message added.
Proof.
  intros G. unfold exec, calculate_cycle. rewrite bind_modify.
  match goal with
  | |- context [snd (?m ?s0)] =>
      assert (W : relates guarded_run m) by guarded_walk;
      destruct (W s0) as (_ & added & E & F)
  end.
  - apply (guards_same_parameters s); [reflexivity | exact G].
  - exists added. split; [exact E | exact F].
Qed.

(** X23: A run of [calculate_cycle] with the condensing pressure above the
    evaporating pressure (in Pa) and a compressor efficiency above zero
    appends only messages of the adapter and the warning about the
    isentropic enthalpy rise to what its cleanup keeps; neither "P_evap
    must be < P_cond" nor "Comp eff must be > 0" is written. *)
Theorem valid_cycle_log (s : Sim) :
  guards_pass s ->
  exists added,
    errors (exec cycle s) = filter kept_by_cycle (errors s) ++ added
    /\ Forall run_message added
    /\ ~ In "P_evap must be < P_cond"%string added
    /\ ~ In "Comp eff must be > 0"%string added.
Proof.
  intros G. destruct (guarded_cycle_log s G) as (added & E & F).
  exists added. rewrite Forall_forall in F.
  repeat split; try assumption; try (apply Forall_forall; exact F);
    intros Hin; destruct (F _ Hin) as [H|H]; discriminate H.
Qed.

(** X21: Within the envelope the two guards of the solver pass: the pressures
    in Pa are strictly in order, although the conversion rounds, and the
    efficiency is above zero. *)
Theorem envelope_passes_guards (s : Sim) :
  envelope s ->
  (p_cond_pa s <=? p_evap_pa s) = false /\ (eta_comp s <=? 0) = false.
Proof. apply envelope_guards. Qed.

(** X22: The keyboard cannot leave the envelope: after any event handled by
    [handle_input] the evaporating pressure is between 10 and 398 psia,
    the condensing pressure at least 5 psia above it and at most 403,
    superheat, subcooling and efficiency at least 0.1 (for the pressure
    axis of the constructor, 10 to 400 psia). *)
Theorem key_press_keeps_envelope (ev : event) (s : Sim) :
  envelope s -> envelope (exec (handle ev) s).
Proof. apply handle_envelope. Qed.

(* ------------------------------------------------------------------ *)
(** *** The application *)

Lemma quiet_after_cycle (s : Sim) :
  envelope s -> quiet s -> quiet (exec cycle s).
Proof.
  intros He [Q1 Q2].
  destruct (guarded_cycle_log s (envelope_guards s He)) as (added & E & F).
  rewrite Forall_forall in F.
  unfold quiet. rewrite E. split; intros Hin; apply in_app_or in Hin;
    (destruct Hin as [Hin|Hin];
     [ apply filter_In in Hin as [Hin _]; tauto
     | destruct (F _ Hin) as [H|H]; discriminate H ]).
Qed.

Lemma exec_relayout (w h : Z) (s : Sim) :
  exec (relayout PropsSI w h) s
  = exec cycle (update_layout (set_screen_size w h s)).
Proof. unfold exec. rewrite relayout_run. reflexivity. Qed.

Lemma relayout_keeps (w h : Z) (s : Sim) :
  envelope s /\ quiet s ->
  envelope (exec (relayout PropsSI w h) s)
  /\ quiet (exec (relayout PropsSI w h) s).
Proof.
  intros [He Hq]. rewrite exec_relayout.
  assert (He' : envelope (update_layout (set_screen_size w h s)))
    by (apply (envelope_same_parameters s); [reflexivity | exact He]).
  split; [apply cycle_envelope, He' | apply quiet_after_cycle; assumption].
Qed.

Lemma handle_keeps (ev : event) (s : Sim) :
  envelope s /\ quiet s ->
  envelope (exec (handle ev) s) /\ quiet (exec (handle ev) s).
Proof.
  intros [He Hq]. split; [apply handle_envelope, He|].
  destruct (recalculates ev) eqn:R.
  - destruct ev as [| |k|]; try discriminate R. cbn [recalculates] in R.
    rewrite exec_handle_handled by exact R.
    apply quiet_after_cycle; [apply step_envelope, He|].
    destruct k; exact Hq.
  - rewrite exec_handle_unhandled by exact R. exact Hq.
Qed.

Lemma sim_on_event (size : Z * Z) (ev : event) (app : App) :
  sim (snd (on_event PropsSI size ev app))
  = match ev with
    | VIDEORESIZE w h =>
        exec (relayout PropsSI (Z.max MIN_SCREEN_WIDTH w)
                (Z.max MIN_SCREEN_HEIGHT h)) (sim app)
    | KEYDOWN K_f =>
        exec (relayout PropsSI (fst size) (snd size)) (sim app)
    | KEYDOWN K_ESCAPE =>
        if fullscreen app
        then exec (relayout PropsSI (fst size) (snd size)) (sim app)
        else sim app
    | KEYDOWN _ => exec (handle ev) (sim app)
    | _ => sim app
    end.
Proof.
  unfold exec, on_event.
  destruct ev as [|w h|k|]; [reflexivity| | |reflexivity].
  - cbv beta iota zeta. cbn [fst snd sim]. reflexivity.
  - destruct k; cbv beta iota zeta; try destruct (fullscreen app);
      cbn [fst snd sim]; reflexivity.
Qed.

Lemma on_event_keeps (size : Z * Z) (ev : event) (app : App) :
  envelope (sim app) /\ quiet (sim app) ->
  envelope (sim (snd (on_event PropsSI size ev app)))
  /\ quiet (sim (snd (on_event PropsSI size ev app))).
Proof.
  intros H. rewrite sim_on_event.
  destruct ev as [|w h|k|]; try exact H.
  - apply relayout_keeps, H.
  - destruct k; try (apply handle_keeps, H).
    + apply relayout_keeps, H.
    + destruct (fullscreen app); [apply relayout_keeps, H | exact H].
Qed.

Lemma on_events_keep (evs : list (Z * Z * event)) :
  forall app,
    envelope (sim app) /\ quiet (sim app) ->
    envelope (sim (snd (on_events PropsSI evs app)))
    /\ quiet (sim (snd (on_events PropsSI evs app))).
Proof.
  induction evs as [|[size ev] evs IH]; intros app H; [exact H|].
  cbn [on_events]. pose proof (on_event_keeps size ev app H) as H1.
  destruct (on_event PropsSI size ev app) as [[u|e] app1]; cbn [snd] in *.
  - apply IH, H1.
  - exact H1.
Qed.

Lemma exec_bind_returns A C (m : M A) (k : A -> M C) (a : A) (s : Sim) :
  fst (m s) = Normal a -> exec (bind m k) s = exec (k a) (exec m s).
Proof.
  unfold exec, bind. destruct (m s) as [[b|e] s1]; cbn [fst snd];
    intros H; [injection H as ->; reflexivity | discriminate].
Qed.

Lemma quiet_after_dome (s : Sim) : errors s = [] -> quiet (exec dome s).
Proof.
  intros E0.
  destruct (dome_log_shape PropsSI np_log10 np_logspace s)
    as (added & tail & E & Fa & _ & Ft).
  rewrite E0 in E. cbn [filter app] in E.
  rewrite Forall_forall in Fa, Ft.
  unfold quiet. rewrite E. split; intros Hin; apply in_app_or in Hin;
    (destruct Hin as [Hin|Hin];
     [ pose proof (Fa _ Hin) as H; discriminate H
     | destruct (Ft _ Hin) as [H|[text H]]; discriminate H ]).
Qed.

Lemma constructor_keeps (w h : Z) :
  let s := snd (init PropsSI np_log10 np_logspace w h) in
  envelope s /\ quiet s.
Proof.
  intros s.
  assert (S0 : s = exec cycle (exec dome (new_sim np_log10 w h))).
  { subst s. unfold init.
    change (snd ((calculate_dome PropsSI np_log10 np_logspace;;
                  calculate_cycle PropsSI)%py (new_sim np_log10 w h)))
      with (exec (bind dome (fun _ => cycle)) (new_sim np_log10 w h)).
    apply exec_bind_returns with (a := tt).
    apply (dome_returns PropsSI np_log10 np_logspace). }
  rewrite S0.
  assert (E0 : envelope (new_sim np_log10 w h)).
  { unfold envelope, new_sim, update_layout.
    cbn [p_min_psia p_max_psia p_evap_psia p_cond_psia superheat_F
         subcooling_F eta_comp].
    repeat split. }
  assert (E1 : envelope (exec dome (new_sim np_log10 w h))).
  { apply (envelope_same_parameters (new_sim np_log10 w h)); [|exact E0].
    apply (dome_preserves PropsSI np_log10 np_logspace
             (fun t => (p_min_psia t, p_max_psia t, p_evap_psia t,
                        p_cond_psia t, superheat_F t, subcooling_F t,
                        eta_comp t))).
    ignores. }
  split; [apply cycle_envelope, E1|].
  apply quiet_after_cycle; [exact E1|].
  apply quiet_after_dome. reflexivity.
Qed.

(** X24: In a run of the application (the constructor, then any events:
    resizes, fullscreen toggles, key presses, whatever sizes the display
    reports and whatever the property service answers) the parameters
    stay in the envelope, and the log never holds "P_evap must be <
    P_cond" or "Comp eff must be > 0": the two guards of the solver
    cannot be tripped from the keyboard. *)
Theorem keyboard_never_trips_guards (w h : Z) (evs : list (Z * Z * event)) :
  let app0 :=
    mkApp true false (snd (init PropsSI np_log10 np_logspace w h)) in
  let app := snd (on_events PropsSI evs app0) in
  envelope (sim app)
  /\ ~ In "P_evap must be < P_cond"%string (errors (sim app))
  /\ ~ In "Comp eff must be > 0"%string (errors (sim app)).
Proof.
  intros app0 app.
  destruct (on_events_keep evs app0 (constructor_keeps w h)) as (E & Q1 & Q2).
  auto.
Qed.

End GuardedRuns.


(* ================================================================== *)
(** ** The coordinate mapper *)
(* ================================================================== *)

Section Mapper.

Variable np_log10 : float -> float.

Local Open Scope float_scope.

Local Notation map := (map_coordinates np_log10).


End Mapper.

(* ================================================================== *)
(** ** The unit conversion layer *)
(* ================================================================== *)

(** The float reading of the constants is the literal of the source. *)
Example KPA_TO_PSIA_float : (KPA_TO_PSIA : float) = 0.1450377%float.
Proof. vm_compute. reflexivity. Qed.

Example PSIA_TO_PA_float :
  (PSIA_TO_PA : float) = ((1 / 0.1450377) * 1000)%float.
Proof. vm_compute. reflexivity. Qed.

Example J_KG_TO_BTU_LB_float : (J_KG_TO_BTU_LB : float) = 0.000430210%float.
Proof. vm_compute. reflexivity. Qed.

Example DELTA_F_TO_DELTA_K_float :
  (DELTA_F_TO_DELTA_K : float) = (1 / 1.8)%float.
Proof. vm_compute. reflexivity. Qed.

Example format_1f_samples :
  Py.format_1f 241316.56803713794 = "241316.6"%string
  /\ Py.format_1f 0.25 = "0.2"%string
  /\ Py.format_1f 0.35 = "0.3"%string
  /\ Py.format_1f (-0.04) = "-0.0"%string
  /\ Py.format_1f 1 = "1.0"%string
  /\ Py.format_1f 1e22 = "10000000000000000000000.0"%string
  /\ Py.format_1f nan = "nan"%string
  /\ Py.format_1f neg_infinity = "-inf"%string.
Proof. vm_compute. repeat split. Qed.

Section Units.

Local Open Scope Q_scope.


End Units.

(* ================================================================== *)
(** ** The properties at concrete inputs *)
(* ================================================================== *)

Section Runs.

Local Open Scope float_scope.

Local Notation cycle := (calculate_cycle Lab.PropsSI).
Local Notation dome := (calculate_dome Lab.PropsSI Lab.log10 Lab.logspace).
Local Notation reply := (adapter_reply Lab.PropsSI).

(** The constructor's run on the explicit fluid: a cycle with a plausible
    coefficient of performance and an 80-sample dome. *)
Example reference_scenario :
  let s := snd (init Lab.PropsSI Lab.log10 Lab.logspace 1300 880) in
  errors s = []
  /\ COP (performance s) = Some 4.019333695043656
  /\ List.length (dome_p_pa s) = 80%nat
  /\ List.length (cp_calls s) = 174%nat.
Proof. vm_compute. repeat split. Qed.

(** C1 at 200 psia against 160 psia. *)
Lemma inverted_pressures_rejected_witness :
  (p_cond_pa Lab.sim_inverted <=? p_evap_pa Lab.sim_inverted) = true
  /\ (let s' := exec cycle Lab.sim_inverted in
      result cycle Lab.sim_inverted = Normal tt
      /\ state_points_si s' = empty_points
      /\ performance s' = empty_performance
      /\ errors s'
         = filter kept_by_cycle (errors Lab.sim_inverted)
           ++ ["P_evap must be < P_cond"%string]
      /\ cp_calls s' = cp_calls Lab.sim_inverted).
Proof.
  split; [vm_compute; reflexivity|].
  apply (inverted_pressures_rejected Lab.PropsSI Lab.sim_inverted).
  vm_compute. reflexivity.
Defined.





(** Two more ways out of the adapter: a non-empty string input makes the
    handler's own format code raise, and an int beyond the doubles makes
    [math.isfinite] raise [OverflowError]. *)
Example adapter_raises_on_text_and_huge_int :
  result (safe_coolprop_call Lab.PropsSI "T" "P" (PyStr "abc") "Q" (PyInt 1)
            REFRIGERANT) Lab.sim0
  = Raised (ValueError "Unknown format code 'f' for object of type 'str'")
  /\ result (safe_coolprop_call Lab.PropsSI "T" "P" (PyInt (10 ^ 400)) "Q"
               (PyInt 1) REFRIGERANT) Lab.sim0
     = Raised (OverflowError "int too large to convert to float").
Proof. vm_compute. split; reflexivity. Qed.

(** Non-finite and absent inputs are reported, with the value shown. *)
Example adapter_reports_nan_input :
  let r := safe_coolprop_call Lab.PropsSI "T" "P" (PyFloat nan) "Q" PyNone
             REFRIGERANT Lab.sim0 in
  fst r = Normal None
  /\ errors (snd r)
     = ["CP Error: Invalid non-finite input calc T(P=nan,Q=0.0)"%string]
  /\ cp_calls (snd r) = [].
Proof. vm_compute. repeat split. Qed.




(** C7 as stated fails: with inverted pressures the second invocation
    leaves a longer log than the first. *)
Lemma second_invocation_changes_log :
  let s1 := exec cycle Lab.sim_inverted in
  let s2 := exec cycle s1 in
  errors s1 = ["P_evap must be < P_cond"%string]
  /\ errors s2
     = ["P_evap must be < P_cond"%string; "P_evap must be < P_cond"%string]
  /\ errors s2 <> errors s1.
Proof.
  vm_compute. repeat split. discriminate.
Qed.



End Runs.
(* ================================================================== *)
(** ** The further properties at concrete inputs *)
(* ================================================================== *)

Section MoreRuns.

Local Open Scope float_scope.

Local Notation cycle := (calculate_cycle Lab.PropsSI).
Local Notation dome := (calculate_dome Lab.PropsSI Lab.log10 Lab.logspace).
Local Notation describe := (get_state_description Lab.PropsSI).
Local Notation handle := (handle_input Lab.PropsSI).

(** The constructor's parameters are inside the envelope. *)
Lemma default_envelope : envelope Lab.sim0.
Proof. repeat split. Qed.

(** X6 at point 2 of the default cycle. *)
Lemma cycle_stores_finite_points_witness :
  exists pt,
    get_point K2 (state_points_si (exec cycle Lab.sim0)) = Some pt
    /\ finite_point pt = true.
Proof.
  eexists. split; [vm_compute; reflexivity|].
  apply (cycle_stores_finite_points Lab.PropsSI Lab.sim0 K2).
  vm_compute. reflexivity.
Defined.

(** X10 on a log that already holds the range message three times. *)
Lemma dome_messages_do_not_accumulate_witness :
  dome_message "Dome Calc: Invalid SI P range from PSIA."%string
  /\ (count_occ string_dec
        (errors
           (exec dome
              (set_errors
                 ["Dome Calc: Invalid SI P range from PSIA."%string;
                  "Dome Calc: Invalid SI P range from PSIA."%string;
                  "Dome Calc: Invalid SI P range from PSIA."%string]
                 Lab.sim0)))
        "Dome Calc: Invalid SI P range from PSIA."%string <= 1)%nat.
Proof.
  split; [left; reflexivity|].
  apply (dome_messages_do_not_accumulate Lab.PropsSI Lab.log10 Lab.logspace).
  left. reflexivity.
Defined.

(** X11 on two objects with the constructor's axis and different
    parameters. *)
Lemma dome_depends_on_pressure_axis_witness :
  p_min_psia Lab.sim_inverted = p_min_psia Lab.sim0
  /\ p_max_psia Lab.sim_inverted = p_max_psia Lab.sim0
  /\ result dome Lab.sim_inverted = result dome Lab.sim0
  /\ dome_p_pa (exec dome Lab.sim_inverted) = dome_p_pa (exec dome Lab.sim0)
  /\ dome_h_si (exec dome Lab.sim_inverted) = dome_h_si (exec dome Lab.sim0).
Proof.
  split; [reflexivity|]. split; [reflexivity|].
  apply (dome_depends_on_pressure_axis Lab.PropsSI Lab.log10 Lab.logspace
           Lab.sim0 Lab.sim_inverted); reflexivity.
Defined.

(** X14 at point 1 of the default cycle. *)
Lemma description_is_a_label_witness :
  exists label,
    result (describe "1") (exec cycle Lab.sim0) = Normal label
    /\ In label state_labels.
Proof.
  eexists. split; [vm_compute; reflexivity|].
  apply (description_is_a_label Lab.PropsSI "1" (exec cycle Lab.sim0)).
  vm_compute. reflexivity.
Defined.

(** X19 after the parameters were tuned away from the defaults. *)
Lemma reset_key_restores_defaults_witness :
  p_min_psia (Lab.with_parameters 100 200 20 10 0.5 Lab.sim0) = 10
  /\ p_max_psia (Lab.with_parameters 100 200 20 10 0.5 Lab.sim0) = 400
  /\ (p_evap_psia
        (exec (handle (KEYDOWN K_r))
           (Lab.with_parameters 100 200 20 10 0.5 Lab.sim0)),
      eta_comp
        (exec (handle (KEYDOWN K_r))
           (Lab.with_parameters 100 200 20 10 0.5 Lab.sim0)))
     = (35.0, 0.75)
  /\ performance
       (exec (handle (KEYDOWN K_r))
          (Lab.with_parameters 100 200 20 10 0.5 Lab.sim0))
     = performance (exec cycle (reset_parameters Lab.sim0)).
Proof.
  destruct (reset_key_restores_defaults Lab.PropsSI
              (Lab.with_parameters 100 200 20 10 0.5 Lab.sim0) Lab.sim0
              eq_refl eq_refl) as (E & _ & P).
  split; [reflexivity|]. split; [reflexivity|].
  split; [|exact P].
  rewrite !pair_equal_spec in E. destruct E as ((((E1 & _) & _) & _) & E5).
  rewrite E1, E5. reflexivity.
Defined.

(** X21 on the constructor's parameters. *)
Lemma envelope_passes_guards_witness :
  envelope Lab.sim0
  /\ (p_cond_pa Lab.sim0 <=? p_evap_pa Lab.sim0) = false
  /\ (eta_comp Lab.sim0 <=? 0) = false.
Proof.
  split; [exact default_envelope|].
  apply (envelope_passes_guards Lab.sim0). exact default_envelope.
Defined.

(** X22 for the key that raises the evaporating pressure. *)
Lemma key_press_keeps_envelope_witness :
  envelope Lab.sim0
  /\ envelope (exec (handle (KEYDOWN K_UP)) Lab.sim0).
Proof.
  split; [exact default_envelope|].
  apply (key_press_keeps_envelope Lab.PropsSI (KEYDOWN K_UP) Lab.sim0).
  exact default_envelope.
Defined.

(** X23 on the constructor's parameters. *)
Lemma valid_cycle_log_witness :
  guards_pass Lab.sim0
  /\ exists added,
      errors (exec cycle Lab.sim0)
      = filter kept_by_cycle (errors Lab.sim0) ++ added
      /\ Forall run_message added
      /\ ~ In "P_evap must be < P_cond"%string added
      /\ ~ In "Comp eff must be > 0"%string added.
Proof.
  assert (G : guards_pass Lab.sim0) by (split; vm_compute; reflexivity).
  split; [exact G|].
  apply (valid_cycle_log Lab.PropsSI Lab.sim0). exact G.
Defined.

End MoreRuns.
